(** * outlook-mcp: the authenticated request layer

    A shallow embedding of the token manager ([auth/token-manager.js]),
    the progressive search planner ([email/search.js]), the folder
    resolver ([email/folder-utils.js], [utils/mailbox-path.js]) and the
    list handler's request construction, with the properties the
    specification states about them; and of the tool handlers built on
    them (search and list, categories, email deletion, folder creation,
    calendar events, mailbox discovery, the authentication tools), with
    further properties read off the code.

    Conventions of the embedding.
    - A JavaScript evaluation that may raise is a [Completion]: a normal
      value or a thrown exception.  [try]/[catch] is a match on it.
    - An optional string-valued property is an [option string]; [None]
      stands for [undefined] or [null] (the code only tests such
      properties for truthiness or copies them).
    - Numbers are integers ([Z]) extended with [NaN]; instants are
      milliseconds since the epoch.  A Date holds a time value within
      8.64e15 ms of the epoch or is invalid; local time is UTC plus
      the offset of the process's time zone, which may change over
      the year.
    - Strings are strings of ASCII characters, with ASCII's case
      mapping and white space; properties that depend on either are
      stated for ASCII text.
    - A plain object read with [obj[key]] answers with its own
      properties first, then with those of [Object.prototype].
    - Module-level mutable state, the network and the remote service
      are explicit: a state record with events delivered by the
      environment for the token manager, scripted answers for the
      remote calls of a search or a folder lookup.
    - A tool handler is a function of its environment (the outcome of
      [ensureAuthenticated] and the answers of the remote service) to
      the text of its response and the remote calls it makes, in
      order. *)

From Stdlib Require Import ZArith String Ascii Bool Lia.
From stdpp Require Import base option list strings pretty gmap.
From Equations Require Import Equations.

Open Scope Z_scope.

(** ** JavaScript prelude *)

Module Js.

Inductive Completion (A : Type) : Type :=
| Normal (a : A)
| Throw (msg : string).
Arguments Normal {A} a.
Arguments Throw {A} msg.

Definition bind {A B} (c : Completion A) (k : A -> Completion B) : Completion B :=
  match c with
  | Normal a => k a
  | Throw m => Throw m
  end.

(** JavaScript numbers, restricted to the integers and [NaN]. *)
Inductive Number : Type :=
| Finite (z : Z)
| NaN.

Definition add (a b : Number) : Number :=
  match a, b with
  | Finite x, Finite y => Finite (x + y)
  | _, _ => NaN
  end.

Definition sub (a b : Number) : Number :=
  match a, b with
  | Finite x, Finite y => Finite (x - y)
  | _, _ => NaN
  end.

Definition mul (a b : Number) : Number :=
  match a, b with
  | Finite x, Finite y => Finite (x * y)
  | _, _ => NaN
  end.

(** [a >= b]: false as soon as one side is [NaN]. *)
Definition geb (a b : Number) : bool :=
  match a, b with
  | Finite x, Finite y => y <=? x
  | _, _ => false
  end.

(** ToNumber of a property that is a number or [undefined]. *)
Definition toNumber (v : option Number) : Number :=
  match v with
  | Some n => n
  | None => NaN
  end.

(** ToBoolean. *)
Definition truthyStr (v : option string) : bool :=
  match v with
  | Some s => negb (String.eqb s "")
  | None => false
  end.

Definition truthyNum (v : option Number) : bool :=
  match v with
  | Some (Finite z) => negb (z =? 0)
  | Some NaN => false
  | None => false
  end.

(** [a || b] on optional strings. *)
Definition orElse (a b : option string) : option string :=
  if truthyStr a then a else b.

End Js.

Import Js.

(** * Part I: the program *)

(** ** auth/token-manager.js *)

Module TokenManager.

(** The credential record, as stored in the token file and held in
    [cachedTokens]. *)
Record Tokens : Type := mkTokens {
  access_token : option string;
  refresh_token : option string;
  expires_in : option Number;
  expires_at : option Number;
  scope : option string
}.

(** What [fs] finds at [tokenStorePath]. [Corrupt] covers every read
    that makes [loadTokenCache] take one of its [catch] branches. *)
Inductive TokenFile : Type :=
| Missing
| Corrupt
| Stored (t : Tokens).

(** The body of the token endpoint's response after [JSON.parse]. *)
Record ResponseBody : Type := mkBody {
  body_access_token : option string;
  body_refresh_token : option string;
  body_expires_in : option Number;
  body_scope : option string;
  body_error_description : option string
}.

Inductive Parsed : Type :=
| ParseError              (* JSON.parse throws *)
| ParsedNull              (* the body is the JSON value null *)
| ParsedObject (r : ResponseBody).

(** A renewal request handed to [https.request]: the promise created
    for it and the refresh token it carries. *)
Record Request : Type := mkRequest {
  req_promise : nat;
  req_refresh_token : option string
}.

(** The module state, together with the bookkeeping of the event
    loop: the requests created so far, the requests still awaiting
    their response, the calls of [getAccessToken] suspended at
    [await refreshAccessToken()], and the calls that have settled. *)
Record State : Type := mkState {
  cachedTokens : option Tokens;
  refreshPromise : option nat;
  tokenFile : TokenFile;
  requests : list Request;
  pending : list nat;
  waiters : list (nat * nat);
  completed : list (nat * Completion (option string))
}.

Definition REFRESH_BUFFER_MS : Z := 5 * 60 * 1000.

Definition set_cachedTokens (t : option Tokens) (st : State) : State :=
  mkState t (refreshPromise st) (tokenFile st) (requests st) (pending st)
          (waiters st) (completed st).

Definition set_refreshPromise (p : option nat) (st : State) : State :=
  mkState (cachedTokens st) p (tokenFile st) (requests st) (pending st)
          (waiters st) (completed st).

Definition set_tokenFile (f : TokenFile) (st : State) : State :=
  mkState (cachedTokens st) (refreshPromise st) f (requests st) (pending st)
          (waiters st) (completed st).

(** [loadTokenCache()]: the tokens read, and the state after. *)
Definition loadTokenCache (st : State) : option Tokens * State :=
  match tokenFile st with
  | Missing => (None, st)
  | Corrupt => (None, st)
  | Stored t =>
      if negb (truthyStr (access_token t)) then (None, st)
      else (Some t, set_cachedTokens (Some t) st)
  end.

(** [saveTokenCache(tokens)]; [writeOk] tells whether
    [fs.writeFileSync] returns or throws. *)
Definition saveTokenCache (tokens : Tokens) (writeOk : bool) (st : State) : bool * State :=
  if writeOk
  then (true, set_cachedTokens (Some tokens) (set_tokenFile (Stored tokens) st))
  else (false, st).

(** [needsRefresh()] at clock reading [now]. *)
Definition needsRefresh (now : Z) (st : State) : bool :=
  match cachedTokens st with
  | None => true
  | Some t =>
      if negb (truthyNum (expires_at t)) then true
      else geb (Finite now) (sub (toNumber (expires_at t)) (Finite REFRESH_BUFFER_MS))
  end.

(** [refreshAccessToken()] up to its [return]: the promise the caller
    gets (or the exception), and the state after.  A new promise is
    numbered by the requests created so far; creating it runs the
    executor, which sends the request. *)
Definition refreshAccessToken (st : State) : Completion nat * State :=
  match cachedTokens st with
  | None => (Throw "No refresh token available", st)
  | Some t =>
      if negb (truthyStr (refresh_token t))
      then (Throw "No refresh token available", st)
      else
        match refreshPromise st with
        | Some p => (Normal p, st)
        | None =>
            let p := length (requests st) in
            (Normal p,
             mkState (cachedTokens st) (Some p) (tokenFile st)
                     (requests st ++ [mkRequest p (refresh_token t)])
                     (p :: pending st) (waiters st) (completed st))
        end
  end.

Definition complete (c : nat) (r : Completion (option string)) (st : State) : State :=
  mkState (cachedTokens st) (refreshPromise st) (tokenFile st) (requests st)
          (pending st) (waiters st) (completed st ++ [(c, r)]).

Definition suspend (c p : nat) (st : State) : State :=
  mkState (cachedTokens st) (refreshPromise st) (tokenFile st) (requests st)
          (pending st) (waiters st ++ [(c, p)]) (completed st).

(** The read [cachedTokens.access_token]: a TypeError when
    [cachedTokens] is null. *)
Definition read_access_token (st : State) : Completion (option string) :=
  match cachedTokens st with
  | None => Throw "TypeError: Cannot read properties of null"
  | Some t => Normal (access_token t)
  end.

(** [getAccessToken()] called by [c] at clock reading [now], up to its
    first suspension or its return. *)
Definition getAccessToken (c : nat) (now : Z) (st : State) : State :=
  let st := match cachedTokens st with
            | None => snd (loadTokenCache st)
            | Some _ => st
            end in
  match cachedTokens st with
  | None => complete c (Normal None) st
  | Some t =>
      if negb (truthyStr (access_token t)) then complete c (Normal None) st
      else if needsRefresh now st then
        if truthyStr (refresh_token t) then
          match refreshAccessToken st with
          | (Normal p, st') => suspend c p st'
          | (Throw _, st') => complete c (Normal None) st'
          end
        else complete c (Normal None) st
      else complete c (read_access_token st) st
  end.

(** How a promise settles. *)
Inductive Settlement : Type :=
| Fulfilled
| Rejected (msg : string).

(** [getAccessToken] resumed after its [await]. *)
Definition resume (s : Settlement) (st : State) : Completion (option string) :=
  match s with
  | Rejected _ => Normal None
  | Fulfilled => read_access_token st
  end.

(** Settling promise [p] runs the continuation of every call
    suspended on it, in the order they attached. *)
Fixpoint wake (p : nat) (s : Settlement) (ws : list (nat * nat)) (st : State)
  : list (nat * nat) * list (nat * Completion (option string)) :=
  match ws with
  | [] => ([], [])
  | (c, q) :: ws' =>
      let '(rest, done) := wake p s ws' st in
      if Nat.eqb q p then (rest, (c, resume s st) :: done)
      else ((c, q) :: rest, done)
  end.

Definition settle (p : nat) (s : Settlement) (st : State) : State :=
  let '(rest, done) := wake p s (waiters st) st in
  mkState (cachedTokens st) (refreshPromise st) (tokenFile st) (requests st)
          (filter (fun q => q ≠ p) (pending st))
          rest (completed st ++ done).

(** The record after the success branch's assignments. *)
Definition merge (now : Z) (r : ResponseBody) (t : Tokens) : Tokens :=
  mkTokens (body_access_token r)
           (if truthyStr (body_refresh_token r) then body_refresh_token r
            else refresh_token t)
           (body_expires_in r)
           (Some (add (Finite now) (mul (toNumber (body_expires_in r)) (Finite 1000))))
           (orElse (body_scope r) (scope t)).

(** [responseBody.error_description || `Token refresh failed: ...`]. *)
Definition failure_message (r : ResponseBody) : string :=
  match body_error_description r with
  | Some d => if String.eqb d "" then "Token refresh failed" else d
  | None => "Token refresh failed"
  end.

(** The body of [res.on('end', ...)] for the request of promise [p]:
    the slot is cleared first, then the [try] block either updates
    and saves the record and resolves, or rejects. *)
Definition on_end (p : nat) (statusCode : Z) (body : Parsed) (now : Z)
           (writeOk : bool) (st : State) : State :=
  let st := set_refreshPromise None st in
  match body with
  | ParseError => settle p (Rejected "SyntaxError") st
  | ParsedNull => settle p (Rejected "TypeError") st
  | ParsedObject r =>
      if (200 <=? statusCode) && (statusCode <? 300) then
        match cachedTokens st with
        | None => settle p (Rejected "TypeError") st
        | Some t =>
            let t' := merge now r t in
            let st := set_cachedTokens (Some t') st in
            let st := snd (saveTokenCache t' writeOk st) in
            settle p Fulfilled st
        end
      else
        settle p (Rejected (failure_message r)) st
  end.

(** The body of [req.on('error', ...)]. *)
Definition on_error (p : nat) (st : State) : State :=
  settle p (Rejected "request error") (set_refreshPromise None st).

(** What the environment can do to the module: call [getAccessToken],
    deliver the outcome of a request, call the exported
    [loadTokenCache] and [saveTokenCache] (the authentication tools
    do), and write the token file from outside the process (the
    authorization server does). *)
Inductive Event : Type :=
| Call (c : nat) (now : Z)
| ResponseEnd (p : nat) (statusCode : Z) (body : Parsed) (now : Z) (writeOk : bool)
| RequestError (p : nat)
| LoadTokenCache
| SaveTokenCache (t : Tokens) (writeOk : bool)
| TokenFileWritten (f : TokenFile).

(** The handlers of a request are registered when the request is
    created (lines 141 and 173), so a response's end or a request error
    is delivered to a request that has been created.  Neither handler
    tests whether its request still awaits an outcome or whether its
    promise is the one in the slot: an event of a request that has
    settled runs the handler all the same. *)
Definition step (e : Event) (st : State) : option State :=
  match e with
  | Call c now => Some (getAccessToken c now st)
  | ResponseEnd p code body now ok =>
      if bool_decide (p < length (requests st))%nat
      then Some (on_end p code body now ok st) else None
  | RequestError p =>
      if bool_decide (p < length (requests st))%nat
      then Some (on_error p st) else None
  | LoadTokenCache => Some (snd (loadTokenCache st))
  | SaveTokenCache t ok => Some (snd (saveTokenCache t ok st))
  | TokenFileWritten f => Some (set_tokenFile f st)
  end.

Fixpoint run (es : list Event) (st : State) : option State :=
  match es with
  | [] => Some st
  | e :: es' =>
      match step e st with
      | Some st' => run es' st'
      | None => None
      end
  end.

(** The module as loaded: nothing cached, no attempt in flight. *)
Definition init (f : TokenFile) : State :=
  mkState None None f [] [] [] [].

End TokenManager.

Import TokenManager.

(** ** Strings and dates of the JavaScript runtime *)

Module JsString.

(** Strings are strings of ASCII characters.  On them the runtime's
    case mapping and white space are the ones below; what the runtime
    does with a character outside ASCII (its Unicode case mapping, its
    further white space characters) is not part of the embedding, and
    a property that depends on it is stated for [asciiText]. *)
Definition isAscii (a : ascii) : bool := (nat_of_ascii a <? 128)%nat.

Fixpoint asciiText (s : string) : bool :=
  match s with
  | EmptyString => true
  | String a s' => isAscii a && asciiText s'
  end.

Definition lowerAscii (a : ascii) : ascii :=
  let n := nat_of_ascii a in
  if (65 <=? n)%nat && (n <=? 90)%nat then ascii_of_nat (n + 32) else a.

Fixpoint toLowerCase (s : string) : string :=
  match s with
  | EmptyString => EmptyString
  | String a s' => String (lowerAscii a) (toLowerCase s')
  end.

Definition isSpace (a : ascii) : bool :=
  let n := nat_of_ascii a in
  ((9 <=? n)%nat && (n <=? 13)%nat) || (n =? 32)%nat.

Definition isDigit (a : ascii) : bool :=
  let n := nat_of_ascii a in
  (48 <=? n)%nat && (n <=? 57)%nat.

Fixpoint trimStart (s : string) : string :=
  match s with
  | EmptyString => EmptyString
  | String a s' => if isSpace a then trimStart s' else s
  end.

(** The string without its trailing white space. *)
Fixpoint trimEnd (s : string) : string :=
  match s with
  | EmptyString => EmptyString
  | String a s' =>
      match trimEnd s' with
      | EmptyString => if isSpace a then EmptyString else String a EmptyString
      | t => String a t
      end
  end.

Definition trim (s : string) : string := trimEnd (trimStart s).

(** [s.startsWith(p)], and what follows the prefix. *)
Fixpoint stripPrefix (p s : string) : option string :=
  match p, s with
  | EmptyString, _ => Some s
  | String a p', String b s' => if Ascii.eqb a b then stripPrefix p' s' else None
  | String _ _, EmptyString => None
  end.

Definition startsWith (s p : string) : bool :=
  match stripPrefix p s with
  | Some _ => true
  | None => false
  end.

(** The longest prefix of decimal digits, read as a number
    ([parseInt(_, 10)] on a string of digits), and the rest. *)
Fixpoint digits (acc : Z) (n : nat) (s : string) : Z * nat * string :=
  match s with
  | String a s' =>
      if isDigit a
      then digits (10 * acc + Z.of_nat (nat_of_ascii a - 48)) (S n) s'
      else (acc, n, s)
  | EmptyString => (acc, n, s)
  end.

Definition join (sep : string) (l : list string) : string :=
  String.concat sep l.

(** Decimal digits of a non-negative number, padded to [width]. *)
Definition digitChar (d : Z) : ascii := ascii_of_nat (48 + Z.to_nat d).

Fixpoint pad (width : nat) (n : Z) : string :=
  match width with
  | O => EmptyString
  | S w => pad w (n / 10) +:+ String (digitChar (n mod 10)) EmptyString
  end.

End JsString.

Module JsDate.

Definition msPerDay : Z := 86400000.

Definition Day (t : Z) : Z := t / msPerDay.
Definition TimeWithinDay (t : Z) : Z := t mod msPerDay.

Definition DayFromYear (y : Z) : Z :=
  365 * (y - 1970) + (y - 1969) / 4 - (y - 1901) / 100 + (y - 1601) / 400.

(** The largest year whose first day is not after day [d]. *)
Definition YearFromDay (d : Z) : Z :=
  let y := 1970 + d * 400 / 146097 in
  if d <? DayFromYear y then y - 1
  else if DayFromYear (y + 1) <=? d then y + 1
  else y.

Definition YearFromTime (t : Z) : Z := YearFromDay (Day t).

Definition isLeapYear (y : Z) : bool :=
  ((y mod 4 =? 0) && negb (y mod 100 =? 0)) || (y mod 400 =? 0).

Definition DayWithinYear (t : Z) : Z := Day t - DayFromYear (YearFromTime t).

(** Days of the year before month [m] (0 for January). *)
Definition daysBeforeMonth (leap : bool) (m : Z) : Z :=
  let l := if leap then 1 else 0 in
  match m with
  | 0 => 0
  | 1 => 31
  | 2 => 59 + l
  | 3 => 90 + l
  | 4 => 120 + l
  | 5 => 151 + l
  | 6 => 181 + l
  | 7 => 212 + l
  | 8 => 243 + l
  | 9 => 273 + l
  | 10 => 304 + l
  | _ => 334 + l
  end.

Definition monthOfYearDay (leap : bool) (d : Z) : Z :=
  if d <? daysBeforeMonth leap 1 then 0
  else if d <? daysBeforeMonth leap 2 then 1
  else if d <? daysBeforeMonth leap 3 then 2
  else if d <? daysBeforeMonth leap 4 then 3
  else if d <? daysBeforeMonth leap 5 then 4
  else if d <? daysBeforeMonth leap 6 then 5
  else if d <? daysBeforeMonth leap 7 then 6
  else if d <? daysBeforeMonth leap 8 then 7
  else if d <? daysBeforeMonth leap 9 then 8
  else if d <? daysBeforeMonth leap 10 then 9
  else if d <? daysBeforeMonth leap 11 then 10
  else 11.

Definition MonthFromTime (t : Z) : Z :=
  monthOfYearDay (isLeapYear (YearFromTime t)) (DayWithinYear t).

Definition DateFromTime (t : Z) : Z :=
  DayWithinYear t
  - daysBeforeMonth (isLeapYear (YearFromTime t)) (MonthFromTime t) + 1.

Definition MakeDay (year month date : Z) : Z :=
  let ym := year + month / 12 in
  let mn := month mod 12 in
  DayFromYear ym + daysBeforeMonth (isLeapYear ym) mn + date - 1.

Definition MakeDate (day time : Z) : Z := day * msPerDay + time.

(** The time value of a Date object: [None] is the invalid date. *)
Definition TimeClip (t : Z) : option Z :=
  if Z.abs t <=? 8640000000000000 then Some t else None.

(** The local time zone of the process: its offset from UTC in
    milliseconds, as the runtime reads it at a UTC instant
    ([LocalTZA(t, true)]) and at a local time value
    ([LocalTZA(t, false)]).  In a zone with daylight saving the offset
    changes over the year, and around a change the two readings
    differ. *)
Record TimeZone : Type := mkTimeZone {
  offsetAtUTC : Z -> Z;
  offsetAtLocal : Z -> Z
}.

(** A zone whose clocks never change. *)
Definition fixedOffset (tza : Z) : TimeZone :=
  mkTimeZone (fun _ => tza) (fun _ => tza).

Section LocalTime.

Variable zone : TimeZone.

Definition LocalTime (t : Z) : Z := t + offsetAtUTC zone t.
Definition UTC (t : Z) : Z := t - offsetAtLocal zone t.

Definition getDate (t : Z) : Z := DateFromTime (LocalTime t).
Definition getMonth (t : Z) : Z := MonthFromTime (LocalTime t).

Definition setDate (d : option Z) (date : Z) : option Z :=
  match d with
  | None => None
  | Some t =>
      let lt := LocalTime t in
      TimeClip (UTC (MakeDate (MakeDay (YearFromTime lt) (MonthFromTime lt) date)
                              (TimeWithinDay lt)))
  end.

Definition setMonth (d : option Z) (month : Z) : option Z :=
  match d with
  | None => None
  | Some t =>
      let lt := LocalTime t in
      TimeClip (UTC (MakeDate (MakeDay (YearFromTime lt) month (DateFromTime lt))
                              (TimeWithinDay lt)))
  end.

(** [setHours(0, 0, 0, 0)]. *)
Definition setHoursZero (d : option Z) : option Z :=
  match d with
  | None => None
  | Some t => TimeClip (UTC (MakeDate (Day (LocalTime t)) 0))
  end.

End LocalTime.

Definition formatYear (y : Z) : string :=
  if (0 <=? y) && (y <=? 9999) then JsString.pad 4 y
  else if y <? 0 then "-" +:+ JsString.pad 6 (- y)
  else "+" +:+ JsString.pad 6 y.

(** [toISOString()]: a RangeError on the invalid date. *)
Definition toISOString (d : option Z) : Completion string :=
  match d with
  | None => Throw "RangeError: Invalid time value"
  | Some t =>
      let ms := TimeWithinDay t in
      Normal (formatYear (YearFromTime t) +:+ "-"
              +:+ JsString.pad 2 (MonthFromTime t + 1) +:+ "-"
              +:+ JsString.pad 2 (DateFromTime t) +:+ "T"
              +:+ JsString.pad 2 (ms / 3600000) +:+ ":"
              +:+ JsString.pad 2 (ms / 60000 mod 60) +:+ ":"
              +:+ JsString.pad 2 (ms / 1000 mod 60) +:+ "."
              +:+ JsString.pad 3 (ms mod 1000) +:+ "Z")
  end.

End JsDate.

(** ** email/search.js *)

Module Search.

Import JsString JsDate.

Definition dquote : string := String "034"%char EmptyString.
Definition newline : string := String "010"%char EmptyString.

(** [{ query, from, to, subject }], each a string ([''] when the
    caller left it out). *)
Record SearchTerms : Type := mkSearchTerms {
  query : string;
  from : string;
  to : string;
  subject : string
}.

(** [{ hasAttachments, unreadOnly, before, after }]; an absent flag or
    bound is [None]. *)
Record FilterTerms : Type := mkFilterTerms {
  hasAttachments : option bool;
  unreadOnly : option bool;
  before : option string;
  after : option string
}.

(** The query parameters object. *)
Record Params : Type := mkParams {
  p_top : Z;
  p_select : string;
  p_orderby : string;
  p_skip : option Z;
  p_search : option string;
  p_filter : option string
}.

Record Email : Type := mkEmail {
  email_id : string;
  email_subject : string
}.

(** What [callGraphAPIPaginated] resolves to: an object whose [value]
    may be missing. *)
Record ApiResponse : Type := mkApiResponse {
  api_value : option (list Email)
}.

Record SearchInfo : Type := mkSearchInfo {
  attemptsCount : nat;
  strategies : list string;
  originalTerms : SearchTerms;
  info_filterTerms : FilterTerms
}.

(** The object [progressiveSearch] returns: the response of the call
    that ended the cascade, with [_searchInfo] where it was added. *)
Record Response : Type := mkResponse {
  value : option (list Email);
  _searchInfo : option SearchInfo
}.

(** The environment of a search: the local time zone, the clock
    ([new Date()]) as read after a given number of remote calls have
    returned, the runtime's date parser ([new Date(s)], [None] for an
    invalid date), the configured field selection, and the remote
    service: what the [n]-th call of the search answers, given its
    query parameters and item budget. *)
Record Env : Type := mkEnv {
  timeZone : TimeZone;
  clock : nat -> Z;
  dateParse : string -> option Z;
  EMAIL_SELECT_FIELDS : string;
  callGraphAPIPaginated : nat -> Params -> Z -> Completion ApiResponse
}.

(** The relative-date pattern
    [/^(\d+)\s*(day|days|week|weeks|month|months)\s*ago$/]:
    the digits and the unit it captures. *)
Definition units : list string :=
  ["day"; "days"; "week"; "weeks"; "month"; "months"]%string.

Fixpoint matchUnit (alts : list string) (s : string) : option string :=
  match alts with
  | [] => None
  | u :: alts' =>
      match stripPrefix u s with
      | Some rest =>
          if String.eqb (trimStart rest) "ago" then Some u else matchUnit alts' s
      | None => matchUnit alts' s
      end
  end.

Definition relativeMatch (s : string) : option (Z * string) :=
  let '(amount, n, rest) := digits 0 0 s in
  match n with
  | O => None
  | S _ =>
      match matchUnit units (trimStart rest) with
      | Some u => Some (amount, u)
      | None => None
      end
  end.

(** [parseDate(dateStr)] with the clock reading [now]. *)
Definition parseDate (env : Env) (now : Z) (dateStr : option string)
  : Completion (option string) :=
  match dateStr with
  | None => Normal None
  | Some dateStr =>
      if String.eqb dateStr "" then Normal None
      else
        let str := trim (toLowerCase dateStr) in
        let d := TimeClip now in
        if String.eqb str "today" then
          bind (toISOString (setHoursZero (timeZone env) d)) (fun s => Normal (Some s))
        else if String.eqb str "yesterday" then
          let d := match d with
                   | Some t => setDate (timeZone env) d (getDate (timeZone env) t - 1)
                   | None => None
                   end in
          bind (toISOString (setHoursZero (timeZone env) d)) (fun s => Normal (Some s))
        else
          match relativeMatch str with
          | Some (amount, unit) =>
              let d :=
                match d with
                | None => None
                | Some t =>
                    if startsWith unit "day" then
                      setDate (timeZone env) d (getDate (timeZone env) t - amount)
                    else if startsWith unit "week" then
                      setDate (timeZone env) d (getDate (timeZone env) t - amount * 7)
                    else if startsWith unit "month" then
                      setMonth (timeZone env) d (getMonth (timeZone env) t - amount)
                    else d
                end in
              bind (toISOString (setHoursZero (timeZone env) d)) (fun s => Normal (Some s))
          | None =>
              match dateParse env dateStr with
              | Some t =>
                  match TimeClip t with
                  | Some t' => bind (toISOString (Some t')) (fun s => Normal (Some s))
                  | None => Normal None
                  end
              | None => Normal None
              end
          end
  end.

Definition set_filter (f : option string) (p : Params) : Params :=
  mkParams (p_top p) (p_select p) (p_orderby p) (p_skip p) (p_search p) f.

Definition set_search (s : option string) (p : Params) : Params :=
  mkParams (p_top p) (p_select p) (p_orderby p) (p_skip p) s (p_filter p).

(** The [filterConditions] array [addFilters] builds. *)
Definition filterConditions (env : Env) (now : Z) (filterTerms : FilterTerms)
  : Completion (list string) :=
  let c1 := match hasAttachments filterTerms with
            | Some true => ["hasAttachments eq true"%string]
            | _ => []
            end in
  let c2 := match unreadOnly filterTerms with
            | Some true => ["isRead eq false"%string]
            | _ => []
            end in
  bind (if truthyStr (before filterTerms)
        then bind (parseDate env now (before filterTerms))
               (fun beforeDate =>
                  Normal (if truthyStr beforeDate
                          then match beforeDate with
                               | Some b => ["receivedDateTime lt " +:+ b]
                               | None => []
                               end
                          else []))
        else Normal [])
    (fun c3 =>
  bind (if truthyStr (after filterTerms)
        then bind (parseDate env now (after filterTerms))
               (fun afterDate =>
                  Normal (if truthyStr afterDate
                          then match afterDate with
                               | Some a => ["receivedDateTime ge " +:+ a]
                               | None => []
                               end
                          else []))
        else Normal [])
    (fun c4 => Normal (c1 ++ c2 ++ c3 ++ c4))).

(** [addFilters(params, filterTerms)]: the parameters after the call. *)
Definition addFilters (env : Env) (now : Z) (params : Params) (filterTerms : FilterTerms)
  : Completion Params :=
  bind (filterConditions env now filterTerms)
    (fun conds =>
       Normal (match conds with
               | [] => params
               | _ => set_filter (Some (join " and " conds)) params
               end)).

(** The object literal with [$top], [$select], [$orderby], and [$skip]
    when [skip > 0]. *)
Definition baseParams (env : Env) (count : Z) (orderBy : string) (skip : Z) : Params :=
  mkParams count (EMAIL_SELECT_FIELDS env) orderBy
           (if 0 <? skip then Some skip else None) None None.

Definition buildSearchParams (env : Env) (now : Z) (searchTerms : SearchTerms)
           (filterTerms : FilterTerms) (count : Z) (orderBy : string) (skip : Z)
  : Completion Params :=
  let params := baseParams env count orderBy skip in
  let kqlTerms :=
    (if String.eqb (query searchTerms) "" then [] else [query searchTerms])
    ++ (if String.eqb (subject searchTerms) "" then []
        else ["subject:" +:+ dquote +:+ subject searchTerms +:+ dquote])
    ++ (if String.eqb (from searchTerms) "" then []
        else ["from:" +:+ dquote +:+ from searchTerms +:+ dquote])
    ++ (if String.eqb (to searchTerms) "" then []
        else ["to:" +:+ dquote +:+ to searchTerms +:+ dquote]) in
  let params := match kqlTerms with
                | [] => params
                | _ => set_search (Some (join " " kqlTerms)) params
                end in
  addFilters env now params filterTerms.

(** The keys of [searchPriority]. *)
Inductive Term : Type := Subject | From | To | Query.

Definition termName (t : Term) : string :=
  match t with
  | Subject => "subject"
  | From => "from"
  | To => "to"
  | Query => "query"
  end.

(** [searchTerms[term]]. *)
Definition getTerm (searchTerms : SearchTerms) (t : Term) : string :=
  match t with
  | Subject => subject searchTerms
  | From => from searchTerms
  | To => to searchTerms
  | Query => query searchTerms
  end.

Definition searchPriority : list Term := [Subject; From; To; Query].

Inductive Strategy : Type :=
| Combined
| SingleTerm (t : Term)
| FiltersOnly
| BasicListing.

(** The name pushed on [searchAttempts]. *)
Definition strategyName (s : Strategy) : string :=
  match s with
  | Combined => "combined-search"
  | SingleTerm t => "single-term-" +:+ termName t
  | FiltersOnly => "filters-only"
  | BasicListing => "basic-listing"
  end.

(** The run of a search so far: the [searchAttempts] array, the remote
    calls made (query parameters and budget), and, as bookkeeping for
    the properties below, each strategy entered with what its attempt
    came to: the response of its call, or the error raised while
    building its parameters or by its call. *)
Record Run : Type := mkRun {
  searchAttempts : list string;
  calls : list (Params * Z);
  attempts : list (Strategy * Completion ApiResponse)
}.

Definition push (name : string) (r : Run) : Run :=
  mkRun (searchAttempts r ++ [name]) (calls r) (attempts r).

(** One remote call: its answer, and the run after it. *)
Definition call (env : Env) (params : Params) (maxCount : Z) (r : Run)
  : Completion ApiResponse * Run :=
  (callGraphAPIPaginated env (length (calls r)) params maxCount,
   mkRun (searchAttempts r) (calls r ++ [(params, maxCount)]) (attempts r)).

Definition record (s : Strategy) (a : Completion ApiResponse) (r : Run) : Run :=
  mkRun (searchAttempts r) (calls r) (attempts r ++ [(s, a)]).

(** [response.value && response.value.length > 0]. *)
Definition hasItems (resp : ApiResponse) : bool :=
  match api_value resp with
  | Some (_ :: _) => true
  | _ => false
  end.

Definition now_of (env : Env) (r : Run) : Z := clock env (length (calls r)).

(** A step of the cascade either returns from the function or falls
    through to the code after it. *)
Inductive Flow : Type :=
| Return (resp : Response)
| Next.

(** 1. The combined search. *)
Definition combinedSearch (env : Env) (searchTerms : SearchTerms)
           (filterTerms : FilterTerms) (maxCount : Z) (orderBy : string) (skip : Z)
           (r : Run) : Flow * Run :=
  match buildSearchParams env (now_of env r) searchTerms filterTerms
                          (Z.min 50 maxCount) orderBy skip with
  | Throw m => (Next, record Combined (Throw m) r)
  | Normal params =>
      let r := push (strategyName Combined) r in
      let '(a, r) := call env params maxCount r in
      let r := record Combined a r in
      match a with
      | Normal response =>
          if hasItems response then (Return (mkResponse (api_value response) None), r)
          else (Next, r)
      | Throw _ => (Next, r)
      end
  end.

(** 2. The body of the loop over [searchPriority], for one term. *)
Definition singleTermSearch (env : Env) (searchTerms : SearchTerms)
           (filterTerms : FilterTerms) (maxCount : Z) (orderBy : string) (skip : Z)
           (term : Term) (r : Run) : Flow * Run :=
  if String.eqb (getTerm searchTerms term) "" then (Next, r)
  else
    let r := push (strategyName (SingleTerm term)) r in
    let simplifiedParams := baseParams env (Z.min 50 maxCount) orderBy skip in
    let simplifiedParams :=
      match term with
      | Query =>
          set_search (Some (dquote +:+ getTerm searchTerms term +:+ dquote))
                     simplifiedParams
      | _ =>
          set_search (Some (termName term +:+ ":" +:+ dquote
                            +:+ getTerm searchTerms term +:+ dquote))
                     simplifiedParams
      end in
    match addFilters env (now_of env r) simplifiedParams filterTerms with
    | Throw m => (Next, record (SingleTerm term) (Throw m) r)
    | Normal simplifiedParams =>
        let '(a, r) := call env simplifiedParams maxCount r in
        let r := record (SingleTerm term) a r in
        match a with
        | Normal response =>
            if hasItems response then (Return (mkResponse (api_value response) None), r)
            else (Next, r)
        | Throw _ => (Next, r)
        end
    end.

Fixpoint singleTermLoop (env : Env) (searchTerms : SearchTerms)
         (filterTerms : FilterTerms) (maxCount : Z) (orderBy : string) (skip : Z)
         (terms : list Term) (r : Run) : Flow * Run :=
  match terms with
  | [] => (Next, r)
  | term :: terms' =>
      match singleTermSearch env searchTerms filterTerms maxCount orderBy skip term r with
      | (Return resp, r') => (Return resp, r')
      | (Next, r') =>
          singleTermLoop env searchTerms filterTerms maxCount orderBy skip terms' r'
      end
  end.

(** 3. [hasFilters], and the search with only the filters. *)
Definition hasFilters (filterTerms : FilterTerms) : bool :=
  match hasAttachments filterTerms with
  | Some true => true
  | _ =>
      match unreadOnly filterTerms with
      | Some true => true
      | _ => truthyStr (before filterTerms) || truthyStr (after filterTerms)
      end
  end.

Definition filtersOnlySearch (env : Env) (filterTerms : FilterTerms)
           (maxCount : Z) (orderBy : string) (skip : Z) (r : Run) : Flow * Run :=
  if hasFilters filterTerms then
    let r := push (strategyName FiltersOnly) r in
    let filterOnlyParams := baseParams env (Z.min 50 maxCount) orderBy skip in
    match addFilters env (now_of env r) filterOnlyParams filterTerms with
    | Throw m => (Next, record FiltersOnly (Throw m) r)
    | Normal filterOnlyParams =>
        let '(a, r) := call env filterOnlyParams maxCount r in
        let r := record FiltersOnly a r in
        match a with
        | Normal response => (Return (mkResponse (api_value response) None), r)
        | Throw _ => (Next, r)
        end
    end
  else (Next, r).

(** 4. The basic listing: its error is not caught. *)
Definition basicListing (env : Env) (searchTerms : SearchTerms)
           (filterTerms : FilterTerms) (maxCount : Z) (orderBy : string) (skip : Z)
           (r : Run) : Completion Response * Run :=
  let r := push (strategyName BasicListing) r in
  let basicParams := baseParams env (Z.min 50 maxCount) orderBy skip in
  let '(a, r) := call env basicParams maxCount r in
  let r := record BasicListing a r in
  match a with
  | Throw m => (Throw m, r)
  | Normal response =>
      (Normal (mkResponse (api_value response)
                          (Some (mkSearchInfo (length (searchAttempts r))
                                              (searchAttempts r) searchTerms filterTerms))),
       r)
  end.

Definition progressiveSearch (env : Env) (searchTerms : SearchTerms)
           (filterTerms : FilterTerms) (maxCount : Z) (sortOrder : string) (skip : Z)
  : Completion Response * Run :=
  let r := mkRun [] [] [] in
  let orderBy := "receivedDateTime " +:+ sortOrder in
  match combinedSearch env searchTerms filterTerms maxCount orderBy skip r with
  | (Return resp, r) => (Normal resp, r)
  | (Next, r) =>
      match singleTermLoop env searchTerms filterTerms maxCount orderBy skip
                           searchPriority r with
      | (Return resp, r) => (Normal resp, r)
      | (Next, r) =>
          match filtersOnlySearch env filterTerms maxCount orderBy skip r with
          | (Return resp, r) => (Normal resp, r)
          | (Next, r) =>
              basicListing env searchTerms filterTerms maxCount orderBy skip r
          end
      end
  end.

(** The [additionalInfo] of [formatSearchResults]: the last entry of
    [_searchInfo.strategies], when the response has a [_searchInfo]. *)
Definition additionalInfo (response : Response) : string :=
  match _searchInfo response with
  | Some info =>
      newline +:+ "(Search used "
      +:+ match last (strategies info) with
          | Some s => s
          | None => "undefined"
          end
      +:+ " strategy)"
  | None => ""
  end.

(** [formatSearchResults(response, sortOrder, skip)]: the text of the
    response it builds.  [render] stands for the line written for one
    mail, given its display index (it depends on the locale's date
    format). *)
Definition formatSearchResults (render : Z -> Email -> string) (response : Response)
           (sortOrder : string) (skip : Z) : string :=
  match value response with
  | None | Some [] => "No emails found matching your search criteria."
  | Some l =>
      let emailList :=
        join newline (imap (fun index email => render (skip + Z.of_nat index + 1) email) l) in
      let sortInfo := if String.eqb sortOrder "asc" then "oldest first"
                      else "newest first" in
      let infoStr :=
        if 0 <? skip
        then " (showing " +:+ pretty (skip + 1) +:+ "-"
             +:+ pretty (skip + Z.of_nat (length l)) +:+ ", " +:+ sortInfo +:+ ")"
        else " (" +:+ sortInfo +:+ ")" in
      "Found " +:+ pretty (length l) +:+ " emails" +:+ infoStr +:+ ":"
      +:+ additionalInfo response +:+ newline +:+ newline +:+ emailList
  end.

(** [handleListEmails]: the query parameters and the budget it hands to
    [callGraphAPIPaginated]. *)
Definition listEmailsRequest (env : Env) (requestedCount : Z) : Params * Z :=
  (mkParams (Z.min 50 requestedCount) (EMAIL_SELECT_FIELDS env)
            "receivedDateTime desc" None None None,
   requestedCount).

End Search.

Import Search.

(** ** The paginated fetch *)

Module PaginatedFetch.

Definition inspect {A : Type} (a : A) : {b : A | a = b} := exist _ a eq_refl.

Section Fetch.

Context {Item : Type}.

(** A page request: the page size, the skip offset and the
    remaining-items budget it is made under. *)
Record PageRequest : Type := mkPageRequest {
  page_size : nat;
  skip_offset : nat;
  budget : nat
}.

(** What the remote call primitive comes back with: a failure, or a
    page of items and whether the server has further data. *)
Inductive PageReply : Type :=
| PageError (msg : string)
| Page (items : list Item) (more : bool).

(** The accumulated items in arrival order, the error indicator of a
    page that failed, and the page requests issued. *)
Record FetchResult : Type := mkFetchResult {
  fetched : list Item;
  failure : option string;
  page_requests : list PageRequest
}.

Definition serverPageCap : nat := 50.

(** The remote service: the reply to the [n]-th page request. *)
Variable remote : nat -> PageRequest -> PageReply.

Definition nextRequest (remaining skip : nat) : PageRequest :=
  mkPageRequest (Nat.min serverPageCap remaining) skip remaining.

(** A page shorter than requested, or the server's word that nothing
    follows, ends the fetch. *)
Definition exhausted (requested : nat) (items : list Item) (more : bool) : bool :=
  (length items <? requested)%nat || negb more.

(** Modelled from the spec: [callGraphAPIPaginated] ([utils/graph-api.js])
    is not among the sources.  Section 4.4: requests are issued
    repeatedly, each page sized to the minimum of the server page cap
    and the remaining budget, the returned items accumulated in arrival
    order, until the remaining budget reaches zero, a page returns
    fewer items than requested, or the server indicates no further
    data; a failing page ends the fetch and keeps the items gathered so
    far, with an error indicator.  No more than the remaining budget
    is kept of a page (section 8: from pages of 10 under a budget of
    25, exactly the first 25 items are returned). *)
Equations? fetchPages (remaining : nat) (skip : nat) (acc : list Item)
           (reqs : list PageRequest) : FetchResult by wf remaining lt :=
fetchPages 0 skip acc reqs := mkFetchResult acc None reqs;
fetchPages (S k) skip acc reqs
  with inspect (remote (length reqs) (nextRequest (S k) skip)) => {
  | exist _ (PageError m) _ =>
      mkFetchResult acc (Some m) (reqs ++ [nextRequest (S k) skip]);
  | exist _ (Page items more) _
      with inspect (exhausted (Nat.min serverPageCap (S k)) items more) => {
    | exist _ true _ =>
        mkFetchResult (acc ++ take (S k) items) None
                      (reqs ++ [nextRequest (S k) skip]);
    | exist _ false He =>
        fetchPages (S k - length (take (S k) items))
                   (skip + length (take (S k) items))
                   (acc ++ take (S k) items)
                   (reqs ++ [nextRequest (S k) skip]) } }.
Proof.
  unfold exhausted, serverPageCap in He. apply orb_false_elim in He as [He _].
  apply Nat.ltb_ge in He. rewrite length_take. lia.
Qed.

(** Modelled from the spec: [fetch(path, baseParams, maxItems)], with
    the caller's offset as the first skip offset. *)
Definition fetch (skip maxItems : nat) : FetchResult :=
  fetchPages maxItems skip [] [].

End Fetch.

End PaginatedFetch.

Import PaginatedFetch.

(** ** utils/mailbox-path.js and email/folder-utils.js *)

Module FolderUtils.

Import JsString.

(** The values a property read on a plain object can give: a string
    the code stored, or a function or object inherited from
    [Object.prototype]. *)
Inductive JsValue : Type :=
| VString (s : string)
| VFunction (name : string)
| VObject (name : string).

(** ToBoolean of a property read; [None] is [undefined]. *)
Definition truthy (v : option JsValue) : bool :=
  match v with
  | Some (VString s) => negb (String.eqb s "")
  | Some (VFunction _) => true
  | Some (VObject _) => true
  | None => false
  end.

(** The properties every plain object inherits. *)
Definition objectPrototype : gmap string JsValue :=
  list_to_map
    [("constructor"%string, VFunction "Object");
     ("__proto__"%string, VObject "Object.prototype");
     ("hasOwnProperty"%string, VFunction "hasOwnProperty");
     ("isPrototypeOf"%string, VFunction "isPrototypeOf");
     ("propertyIsEnumerable"%string, VFunction "propertyIsEnumerable");
     ("toLocaleString"%string, VFunction "toLocaleString");
     ("toString"%string, VFunction "toString");
     ("valueOf"%string, VFunction "valueOf");
     ("__defineGetter__"%string, VFunction "__defineGetter__");
     ("__defineSetter__"%string, VFunction "__defineSetter__");
     ("__lookupGetter__"%string, VFunction "__lookupGetter__");
     ("__lookupSetter__"%string, VFunction "__lookupSetter__")].

(** [obj[key]] on an object literal with string-valued own properties
    [own]: the own property, else the inherited one. *)
Definition getProperty (own : gmap string string) (key : string) : option JsValue :=
  match own !! key with
  | Some s => Some (VString s)
  | None => objectPrototype !! key
  end.

(** [getMailboxBasePath(mailbox)]; a null mailbox is [None]. *)
Definition getMailboxBasePath (mailbox : option string) : string :=
  match mailbox with
  | None => "me"
  | Some m =>
      if String.eqb m "" || String.eqb (trim m) "" then "me"
      else "users/" +:+ trim m
  end.

(** [getWellKnownFolders(mailbox)]: the own properties of the object
    literal it returns. *)
Definition getWellKnownFolders (mailbox : option string) : gmap string string :=
  let basePath := getMailboxBasePath mailbox in
  list_to_map
    [("inbox"%string, basePath +:+ "/mailFolders/inbox/messages");
     ("drafts"%string, basePath +:+ "/mailFolders/drafts/messages");
     ("sent"%string, basePath +:+ "/mailFolders/sentItems/messages");
     ("deleted"%string, basePath +:+ "/mailFolders/deletedItems/messages");
     ("junk"%string, basePath +:+ "/mailFolders/junkemail/messages");
     ("archive"%string, basePath +:+ "/mailFolders/archive/messages")].

(** A mail folder as the service lists it. *)
Record Folder : Type := mkFolder {
  folder_id : option string;
  displayName : option string
}.

Record FolderResponse : Type := mkFolderResponse {
  folders : option (list Folder)
}.

(** The two queries [getFolderIdByName] sends to [<basePath>/mailFolders]. *)
Inductive FolderQuery : Type :=
| FilterDisplayName (name : string)
| TopHundred.

(** The remote service, [callGraphAPI]: its answer to a query on a path. *)
Definition Graph : Type := string -> FolderQuery -> Completion FolderResponse.

(** [allFoldersResponse.value.find(...)]; reading [toLowerCase] of a
    missing display name is a TypeError. *)
Fixpoint findFolder (lowerFolderName : string) (l : list Folder)
  : Completion (option Folder) :=
  match l with
  | [] => Normal None
  | f :: l' =>
      match displayName f with
      | None => Throw "TypeError: Cannot read properties of undefined"
      | Some d =>
          if String.eqb (toLowerCase d) lowerFolderName then Normal (Some f)
          else findFolder lowerFolderName l'
      end
  end.

(** [getFolderIdByName]: the id, or [None] for null. Its whole body is
    in a [try]; the [catch] returns null. *)
Definition getFolderIdByName (graph : Graph) (folderName : string)
           (mailbox : option string) : option string :=
  let basePath := getMailboxBasePath mailbox in
  let body : Completion (option string) :=
    bind (graph (basePath +:+ "/mailFolders") (FilterDisplayName folderName))
      (fun response =>
         match folders response with
         | Some (f :: _) => Normal (folder_id f)
         | _ =>
             bind (graph (basePath +:+ "/mailFolders") TopHundred)
               (fun allFoldersResponse =>
                  match folders allFoldersResponse with
                  | Some l =>
                      bind (findFolder (toLowerCase folderName) l)
                        (fun matchingFolder =>
                           match matchingFolder with
                           | Some f => Normal (folder_id f)
                           | None => Normal None
                           end)
                  | None => Normal None
                  end)
         end) in
  match body with
  | Normal v => v
  | Throw _ => None
  end.

(** [wellKnownFolders['inbox']]. *)
Definition inboxOf (wellKnownFolders : gmap string string) : JsValue :=
  match getProperty wellKnownFolders "inbox" with
  | Some v => v
  | None => VString "undefined"
  end.

(** [resolveFolderPath(accessToken, folderName, mailbox)]: the value
    the returned promise resolves to. *)
Definition resolveFolderPath (graph : Graph) (folderName : option string)
           (mailbox : option string) : JsValue :=
  let wellKnownFolders := getWellKnownFolders mailbox in
  let basePath := getMailboxBasePath mailbox in
  match folderName with
  | None => inboxOf wellKnownFolders
  | Some name =>
      if String.eqb name "" then inboxOf wellKnownFolders
      else
        let lowerFolderName := toLowerCase name in
        if truthy (getProperty wellKnownFolders lowerFolderName) then
          match getProperty wellKnownFolders lowerFolderName with
          | Some v => v
          | None => VString "undefined"
          end
        else
          match getFolderIdByName graph name mailbox with
          | Some folderId =>
              if String.eqb folderId "" then inboxOf wellKnownFolders
              else VString (basePath +:+ "/mailFolders/" +:+ folderId +:+ "/messages")
          | None => inboxOf wellKnownFolders
          end
  end.

End FolderUtils.

Import FolderUtils.

(** ** More of the JavaScript runtime: substrings, splitting, templates *)

Module JsText.

Import JsString.

(** [s.includes(sub)]. *)
Fixpoint includes (s sub : string) : bool :=
  startsWith s sub ||
  match s with
  | EmptyString => false
  | String _ s' => includes s' sub
  end.

(** [s.slice(1)]. *)
Definition slice1 (s : string) : string :=
  match s with
  | EmptyString => EmptyString
  | String _ s' => s'
  end.

(** [s.split(sep)] for a separator of one character. *)
Fixpoint split (sep : ascii) (s : string) : list string :=
  match s with
  | EmptyString => [EmptyString]
  | String a s' =>
      if Ascii.eqb a sep then EmptyString :: split sep s'
      else
        match split sep s' with
        | piece :: rest => String a piece :: rest
        | [] => [String a EmptyString]
        end
  end.

(** A string property spliced into a template literal; a missing
    property reads [undefined]. *)
Definition show (v : option string) : string := default "undefined"%string v.

(** [v || fallback] where the fallback is a string. *)
Definition orString (v : option string) (fallback : string) : string :=
  match v with
  | Some s => if String.eqb s "" then fallback else s
  | None => fallback
  end.

(** [v || null]. *)
Definition orNull (v : option string) : option string :=
  if truthyStr v then v else None.

(** [a > b] on numbers: false as soon as one side is not a number. *)
Definition gtb (a : option Number) (b : Z) : bool :=
  match a with
  | Some (Finite x) => b <? x
  | _ => false
  end.

End JsText.

(** ** utils/mailbox-path.js: [buildMailboxPath] *)

Module MailboxPath.

Import JsString JsText.

Definition buildMailboxPath (mailbox : option string) (resourcePath : string) : string :=
  let basePath := getMailboxBasePath mailbox in
  let cleanResourcePath :=
    if startsWith resourcePath "/" then slice1 resourcePath else resourcePath in
  basePath +:+ "/" +:+ cleanResourcePath.

End MailboxPath.

(** ** email/folder-utils.js: the legacy folder table and [getAllFolders] *)

Module FolderTree.

Import JsString JsText.

Definition WELL_KNOWN_FOLDERS : gmap string string :=
  list_to_map
    [("inbox"%string, "me/mailFolders/inbox/messages"%string);
     ("drafts"%string, "me/mailFolders/drafts/messages"%string);
     ("sent"%string, "me/mailFolders/sentItems/messages"%string);
     ("deleted"%string, "me/mailFolders/deletedItems/messages"%string);
     ("junk"%string, "me/mailFolders/junkemail/messages"%string);
     ("archive"%string, "me/mailFolders/archive/messages"%string)].

(** A folder as the listing selects it. *)
Record MailFolder : Type := mkMailFolder {
  mf_id : option string;
  mf_displayName : option string;
  childFolderCount : option Number
}.

Record Listing : Type := mkListing {
  listing_value : option (list MailFolder)
}.

(** The two requests of [getAllFolders], by their path: the top-level
    folders ([$top: 100]) and the children of one folder. *)
Inductive Request : Type :=
| TopLevel (path : string)
| ChildFolders (path : string).

(** The remote service: the answer to the [n]-th call of a listing. *)
Definition Service : Type := nat -> Request -> Completion Listing.

(** The path of the request for the children of [folder]. *)
Definition childRequest (basePath : string) (folder : MailFolder) : Request :=
  ChildFolders (basePath +:+ "/mailFolders/" +:+ show (mf_id folder) +:+ "/childFolders").

(** The async function mapped over [foldersWithChildren]: its own
    [catch] turns an error into the empty array. *)
Definition childFoldersOf (service : Service) (n : nat) (req : Request)
  : list MailFolder :=
  match service n req with
  | Normal childResponse => default [] (listing_value childResponse)
  | Throw _ => []
  end.

(** [getAllFolders(accessToken, mailbox)]: the array the promise
    resolves to, and the requests made, in order. *)
Definition getAllFolders (service : Service) (mailbox : option string)
  : list MailFolder * list Request :=
  let basePath := getMailboxBasePath mailbox in
  let top := TopLevel (basePath +:+ "/mailFolders") in
  match service O top with
  | Throw _ => ([], [top])
  | Normal response =>
      match listing_value response with
      | None => ([], [top])
      | Some value =>
          let foldersWithChildren :=
            List.filter (fun f => gtb (childFolderCount f) 0) value in
          let requests := map (childRequest basePath) foldersWithChildren in
          let childFolders := imap (fun i req => childFoldersOf service (S i) req) requests in
          (value ++ concat childFolders, top :: requests)
      end
  end.

End FolderTree.

(** ** What the tool handlers share *)

Module Tool.

(** The answer of every handler's [catch] to the error
    'Authentication required'. *)
Definition pleaseAuthenticate : string :=
  "Authentication required. Please use the 'authenticate' tool first.".

(** [mailbox ? ` (shared mailbox: ${mailbox})` : '']. *)
Definition mailboxInfo (mailbox : option string) : string :=
  match mailbox with
  | Some m => if String.eqb m "" then "" else " (shared mailbox: " +:+ m +:+ ")"
  | None => ""
  end.

(** [args.count || 10] and the like, on numbers. *)
Definition orNumber (v : option Z) (fallback : Z) : Z :=
  match v with
  | Some z => if z =? 0 then fallback else z
  | None => fallback
  end.

End Tool.

(** ** categories/add.js and categories/remove.js *)

Module Categories.

Import Tool.

Import JsString JsText.

Record Args : Type := mkArgs {
  id : option string;
  category : option string;
  mailbox : option string
}.

(** The two calls of [callGraphAPI] the handlers make on a message:
    the GET selecting its categories, and the PATCH carrying the new
    list. *)
Inductive Request : Type :=
| Get (accessToken path : string)
| Patch (accessToken path : string) (categories : list string).

(** The message resource the GET answers with. *)
Record Message : Type := mkMessage {
  categories : option (list string)
}.

(** The environment of a handler: [ensureAuthenticated] and the remote
    service's answers. *)
Record Env : Type := mkEnv {
  ensureAuthenticated : Completion string;
  callGet : string -> string -> Completion Message;
  callPatch : string -> string -> list string -> Completion unit
}.

(** The [try] block of [handleRemoveCategory]: the text returned or
    the error raised, and the calls made. *)
Definition removeCategory (env : Env) (emailId category : string)
           (mailbox : option string) : Completion string * list Request :=
  match ensureAuthenticated env with
  | Throw m => (Throw m, [])
  | Normal accessToken =>
      let basePath := getMailboxBasePath mailbox in
      let path := basePath +:+ "/messages/" +:+ emailId in
      match callGet env accessToken path with
      | Throw m => (Throw m, [Get accessToken path])
      | Normal email =>
          let currentCategories := default [] (categories email) in
          if negb (bool_decide (category ∈ currentCategories)) then
            (Normal ("Email does not have the category " +:+ dquote +:+ category
                     +:+ dquote +:+ ". Current categories: "
                     +:+ match currentCategories with
                         | [] => "none"
                         | _ => join ", " currentCategories
                         end),
             [Get accessToken path])
          else
            let updatedCategories := filter (fun c => c ≠ category) currentCategories in
            let calls := [Get accessToken path; Patch accessToken path updatedCategories] in
            match callPatch env accessToken path updatedCategories with
            | Throw m => (Throw m, calls)
            | Normal _ =>
                let remainingText :=
                  match updatedCategories with
                  | [] => "Email has no more categories."
                  | _ => "Remaining categories: " +:+ join ", " updatedCategories
                  end in
                (Normal ("Category " +:+ dquote +:+ category +:+ dquote
                         +:+ " removed from email" +:+ mailboxInfo mailbox +:+ ". "
                         +:+ remainingText),
                 calls)
            end
      end
  end.

(** [handleRemoveCategory(args)]: the text of the response, and the
    calls made. *)
Definition handleRemoveCategory (env : Env) (args : Args) : string * list Request :=
  let emailId := orString (id args) "" in
  let category := orString (category args) "" in
  let mailbox := orNull (mailbox args) in
  if String.eqb emailId "" then
    ("Email ID is required. Please provide the ID of the email."%string, [])
  else if String.eqb category "" then
    ("Category name is required."%string, [])
  else
    match removeCategory env emailId category mailbox with
    | (Normal text, calls) => (text, calls)
    | (Throw message, calls) =>
        if String.eqb message "Authentication required" then (pleaseAuthenticate, calls)
        else ("Error removing category: " +:+ message, calls)
    end.

(** The [try] block of [handleAddCategory]. *)
Definition addCategory (env : Env) (emailId category : string)
           (mailbox : option string) : Completion string * list Request :=
  match ensureAuthenticated env with
  | Throw m => (Throw m, [])
  | Normal accessToken =>
      let basePath := getMailboxBasePath mailbox in
      let path := basePath +:+ "/messages/" +:+ emailId in
      match callGet env accessToken path with
      | Throw m => (Throw m, [Get accessToken path])
      | Normal email =>
          let currentCategories := default [] (categories email) in
          if bool_decide (category ∈ currentCategories) then
            (Normal ("Email already has the category " +:+ dquote +:+ category
                     +:+ dquote +:+ "."),
             [Get accessToken path])
          else
            let updatedCategories := currentCategories ++ [category] in
            let calls := [Get accessToken path; Patch accessToken path updatedCategories] in
            match callPatch env accessToken path updatedCategories with
            | Throw m => (Throw m, calls)
            | Normal _ =>
                (Normal ("Category " +:+ dquote +:+ category +:+ dquote
                         +:+ " added to email" +:+ mailboxInfo mailbox
                         +:+ ". Email now has categories: "
                         +:+ join ", " updatedCategories),
                 calls)
            end
      end
  end.

(** [handleAddCategory(args)]. *)
Definition handleAddCategory (env : Env) (args : Args) : string * list Request :=
  let emailId := orString (id args) "" in
  let category := orString (category args) "" in
  let mailbox := orNull (mailbox args) in
  if String.eqb emailId "" then
    ("Email ID is required. Please provide the ID of the email."%string, [])
  else if String.eqb category "" then
    ("Category name is required. Use 'list-categories' to see available categories."%string,
     [])
  else
    match addCategory env emailId category mailbox with
    | (Normal text, calls) => (text, calls)
    | (Throw message, calls) =>
        if String.eqb message "Authentication required" then (pleaseAuthenticate, calls)
        else if includes message "does not exist" then
          ("Category " +:+ dquote +:+ category +:+ dquote
           +:+ " does not exist. Use 'list-categories' to see available categories.",
           calls)
        else ("Error adding category: " +:+ message, calls)
    end.

End Categories.

(** ** email/delete.js *)

Module EmailDelete.

Import JsString JsText.

Record Args : Type := mkArgs {
  id : option string;
  mailbox : option string
}.

(** [ensureAuthenticated], and the service's answer to the DELETE of a
    path under an access token. *)
Record Env : Type := mkEnv {
  ensureAuthenticated : Completion string;
  callDelete : string -> string -> Completion unit
}.

(** The [try] block: the text returned or the error raised, and the
    DELETE calls made (access token and path). *)
Definition deleteEmail (env : Env) (emailId : string) (mailbox : option string)
  : Completion string * list (string * string) :=
  match ensureAuthenticated env with
  | Throw m => (Throw m, [])
  | Normal accessToken =>
      let basePath := getMailboxBasePath mailbox in
      let path := basePath +:+ "/messages/" +:+ emailId in
      match callDelete env accessToken path with
      | Throw m => (Throw m, [(accessToken, path)])
      | Normal _ =>
          (Normal ("Email deleted successfully" +:+ Tool.mailboxInfo mailbox
                   +:+ ". The email has been moved to Deleted Items."),
           [(accessToken, path)])
      end
  end.

(** [handleDeleteEmail(args)]. *)
Definition handleDeleteEmail (env : Env) (args : Args)
  : string * list (string * string) :=
  let emailId := orString (id args) "" in
  let mailbox := orNull (mailbox args) in
  if String.eqb emailId "" then
    ("Email ID is required. Please provide the ID of the email to delete."%string, [])
  else
    match deleteEmail env emailId mailbox with
    | (Normal text, calls) => (text, calls)
    | (Throw message, calls) =>
        if String.eqb message "Authentication required" then
          (Tool.pleaseAuthenticate, calls)
        else if includes message "404" || includes message "not found" then
          ("Email not found. The email with ID " +:+ dquote +:+ emailId +:+ dquote
           +:+ " may have already been deleted or does not exist.",
           calls)
        else ("Error deleting email: " +:+ message, calls)
    end.

End EmailDelete.
(** ** folder/create.js *)

Module FolderCreate.

Import JsString JsText.

Record Args : Type := mkArgs {
  name : option string;
  parentFolder : option string;
  mailbox : option string
}.

(** What the POST answers with: an object that may carry an [id]. *)
Record Created : Type := mkCreated {
  created_id : option string
}.

(** [ensureAuthenticated], the service as [getFolderIdByName] queries
    it, and its answer to the POST of a display name to an endpoint
    ([None] for a null answer). *)
Record Env : Type := mkEnv {
  ensureAuthenticated : Completion string;
  graph : Graph;
  callPost : string -> string -> string -> Completion (option Created)
}.

(** The object [createMailFolder] resolves to. *)
Record Result : Type := mkResult {
  success : bool;
  message : string;
  folderId : option string
}.

(** A POST made: access token, endpoint, display name. *)
Definition Post : Type := string * string * string.

(** [createMailFolder(accessToken, folderName, parentFolderName, mailbox)]:
    its [catch] rethrows. *)
Definition createMailFolder (env : Env) (accessToken folderName parentFolderName : string)
           (mailbox : option string) : Completion Result * list Post :=
  let basePath := getMailboxBasePath mailbox in
  let mailboxInfo := match mailbox with
                     | Some m => if String.eqb m "" then "" else " in shared mailbox " +:+ m
                     | None => ""
                     end in
  if truthyStr (getFolderIdByName (graph env) folderName mailbox) then
    (Normal (mkResult false
               ("A folder named " +:+ dquote +:+ folderName +:+ dquote
                +:+ " already exists" +:+ mailboxInfo +:+ ".")
               None),
     [])
  else
    let lookup :=
      if String.eqb parentFolderName "" then Some (basePath +:+ "/mailFolders")
      else
        match getFolderIdByName (graph env) parentFolderName mailbox with
        | Some parentId =>
            if String.eqb parentId "" then None
            else Some (basePath +:+ "/mailFolders/" +:+ parentId +:+ "/childFolders")
        | None => None
        end in
    match lookup with
    | None =>
        (Normal (mkResult false
                   ("Parent folder " +:+ dquote +:+ parentFolderName +:+ dquote
                    +:+ " not found" +:+ mailboxInfo
                    +:+ ". Please specify a valid parent folder or leave it blank to create at the root level.")
                   None),
         [])
    | Some endpoint =>
        let posts := [(accessToken, endpoint, folderName)] in
        match callPost env accessToken endpoint folderName with
        | Throw m => (Throw m, posts)
        | Normal response =>
            match response with
            | Some (mkCreated (Some i)) =>
                if String.eqb i "" then
                  (Normal (mkResult false
                             "Failed to create folder. The server didn't return a folder ID."
                             None),
                   posts)
                else
                  let locationInfo :=
                    if String.eqb parentFolderName "" then "at the root level"%string
                    else "inside " +:+ dquote +:+ parentFolderName +:+ dquote in
                  (Normal (mkResult true
                             ("Successfully created folder " +:+ dquote +:+ folderName
                              +:+ dquote +:+ " " +:+ locationInfo +:+ mailboxInfo +:+ ".")
                             (Some i)),
                   posts)
            | _ =>
                (Normal (mkResult false
                           "Failed to create folder. The server didn't return a folder ID."
                           None),
                 posts)
            end
        end
    end.

(** [handleCreateFolder(args)]: the text of the response, and the
    POSTs made. *)
Definition handleCreateFolder (env : Env) (args : Args) : string * list Post :=
  let parentFolder := orString (parentFolder args) "" in
  let mailbox := orNull (mailbox args) in
  match name args with
  | None => ("Folder name is required."%string, [])
  | Some folderName =>
      if String.eqb folderName "" then ("Folder name is required."%string, [])
      else
        match ensureAuthenticated env with
        | Throw m =>
            if String.eqb m "Authentication required"
            then (Tool.pleaseAuthenticate, [])
            else ("Error creating folder: " +:+ m, [])
        | Normal accessToken =>
            match createMailFolder env accessToken folderName parentFolder mailbox with
            | (Normal result, posts) => (message result, posts)
            | (Throw m, posts) =>
                if String.eqb m "Authentication required"
                then (Tool.pleaseAuthenticate, posts)
                else ("Error creating folder: " +:+ m, posts)
            end
        end
  end.

End FolderCreate.

(** ** utils/shared-mailboxes.js *)

Module SharedMailboxes.

Import JsString JsText.

Record User : Type := mkUser {
  user_displayName : option string;
  mail : option string;
  userPrincipalName : option string
}.

Record ScoredEmailAddress : Type := mkAddress {
  address : option string
}.

Record Person : Type := mkPerson {
  person_displayName : option string;
  scoredEmailAddresses : option (list ScoredEmailAddress)
}.

Record Group : Type := mkGroup {
  group_displayName : option string;
  group_mail : option string
}.

(** A collection answer: [None] for a null answer, and a [value] that
    may be missing. *)
Definition Collection (A : Type) : Type := option (option (list A)).

(** [ensureAuthenticated] and the answers of the three discovery
    calls: [me], [me/people] and [me/memberOf]. *)
Record Env : Type := mkEnv {
  ensureAuthenticated : Completion string;
  callMe : string -> Completion (option User);
  callPeople : string -> Completion (Collection Person);
  callMemberOf : string -> Completion (Collection Group)
}.

Inductive MailboxType : Type := primary | shared | group.

(** An entry pushed on [sharedMailboxes]. *)
Record Mailbox : Type := mkMailbox {
  type : MailboxType;
  displayName : option string;
  email : option string;
  note : string
}.

(** Method 1: the user's own mailbox. *)
Definition fromUser (answer : Completion (option User)) : list Mailbox :=
  match answer with
  | Normal (Some userResponse) =>
      if truthyStr (mail userResponse) then
        [mkMailbox primary
                   (Some (orString (user_displayName userResponse) "Primary Mailbox"))
                   (orElse (mail userResponse) (userPrincipalName userResponse))
                   "Your primary mailbox"]
      else []
  | _ => []
  end.

(** Method 2: the loop over [peopleResponse.value]. *)
Definition fromPerson (person : Person) : list Mailbox :=
  match scoredEmailAddresses person with
  | Some (first :: _) =>
      [mkMailbox shared (person_displayName person) (address first) "Shared mailbox"]
  | _ => []
  end.

Definition fromPeople (answer : Completion (Collection Person)) : list Mailbox :=
  match answer with
  | Normal (Some (Some value)) => concat (map fromPerson value)
  | _ => []
  end.

(** Method 3: the loop over [groupsResponse.value]; its [catch] also
    records an error. *)
Definition fromGroupEntry (g : Group) : list Mailbox :=
  if truthyStr (group_mail g) then
    [mkMailbox group (group_displayName g) (group_mail g) "Microsoft 365 Group mailbox"]
  else [].

Definition fromGroups (answer : Completion (Collection Group)) : list Mailbox * list string :=
  match answer with
  | Normal (Some (Some value)) => (concat (map fromGroupEntry value), [])
  | Normal _ => ([], [])
  | Throw _ => ([], ["Could not retrieve Microsoft 365 Group mailboxes"%string])
  end.

(** The mailboxes found and the errors recorded. *)
Definition discover (env : Env) (accessToken : string) : list Mailbox * list string :=
  let m1 := fromUser (callMe env accessToken) in
  let m2 := fromPeople (callPeople env accessToken) in
  let '(m3, errors) := fromGroups (callMemberOf env accessToken) in
  (m1 ++ m2 ++ m3, errors).

Definition nl : string := newline.

(** The line block of one mailbox in the list. *)
Definition formatMailbox (index : nat) (mb : Mailbox) : string :=
  pretty (index + 1)%nat +:+ ". " +:+ show (displayName mb) +:+ nl
  +:+ "   Email: " +:+ show (email mb) +:+ nl
  +:+ "   Type: " +:+ note mb.

(** [sharedMailboxes.find(m => m.type === 'shared')?.email
     || sharedMailboxes[0].email]. *)
Definition exampleAddress (sharedMailboxes : list Mailbox) : option string :=
  let found :=
    match List.find (fun m => match type m with shared => true | _ => false end)
                    sharedMailboxes with
    | Some m => email m
    | None => None
    end in
  if truthyStr found then found
  else match sharedMailboxes with
       | m :: _ => email m
       | [] => None
       end.

Definition nothingFound : string :=
  "No shared mailboxes found." +:+ nl +:+ nl
  +:+ "Note: Shared mailbox discovery depends on your organization's configuration. If you know the email address of a shared mailbox you have access to, you can use it directly with the 'mailbox' parameter in other tools (e.g., list-emails, send-email, list-events)."
  +:+ nl +:+ nl +:+ "Example: Use mailbox=" +:+ dquote +:+ "shared@company.com" +:+ dquote
  +:+ " to access that shared mailbox.".

Definition failureNote : string :=
  nl +:+ nl
  +:+ "Note: Some discovery methods failed. If you know of additional shared mailboxes, you can try accessing them directly.".

(** The text built from the mailboxes found and the errors recorded. *)
Definition formatDiscovery (sharedMailboxes : list Mailbox) (errors : list string)
  : string :=
  match sharedMailboxes with
  | [] => nothingFound
  | _ =>
      let mailboxList := join (nl +:+ nl) (imap formatMailbox sharedMailboxes) in
      let response :=
        "Found " +:+ pretty (length sharedMailboxes) +:+ " mailbox(es):" +:+ nl +:+ nl
        +:+ mailboxList in
      let response :=
        response +:+ nl +:+ nl +:+ "---" +:+ nl
        +:+ "To access a shared mailbox, use the 'mailbox' parameter with the email address."
        +:+ nl +:+ "Example: list-emails with mailbox=" +:+ dquote
        +:+ show (exampleAddress sharedMailboxes) +:+ dquote in
      match errors with
      | [] => response
      | _ => response +:+ failureNote
      end
  end.

(** [handleListSharedMailboxes(args)]: the text of the response. *)
Definition handleListSharedMailboxes (env : Env) : string :=
  match ensureAuthenticated env with
  | Throw m =>
      if String.eqb m "Authentication required" then Tool.pleaseAuthenticate
      else "Error discovering shared mailboxes: " +:+ m +:+ nl +:+ nl
           +:+ "Note: If you know the email address of a shared mailbox you have access to, you can use it directly with the 'mailbox' parameter in other tools."
  | Normal accessToken =>
      let '(sharedMailboxes, errors) := discover env accessToken in
      formatDiscovery sharedMailboxes errors
  end.

End SharedMailboxes.
(** ** auth/token-manager.js: [createTestTokens]; the authentication tools *)

Module AuthTools.

Import JsString JsText.

(** [createTestTokens()]: the clock is read three times. *)
Definition createTestTokens (now1 now2 now3 : Z) (writeOk : bool) (st : State)
  : Tokens * State :=
  let testTokens :=
    mkTokens (Some ("test_access_token_" +:+ pretty now1))
             (Some ("test_refresh_token_" +:+ pretty now2))
             None
             (Some (Finite (now3 + 3600 * 1000)))
             None in
  (testTokens, snd (saveTokenCache testTokens writeOk st)).

(** The configuration the tools read. *)
Record Config : Type := mkConfig {
  USE_TEST_MODE : bool;
  authServerUrl : string;
  clientId : string
}.

(** [handleAuthenticate(args)]. *)
Definition handleAuthenticate (config : Config) (now1 now2 now3 : Z) (writeOk : bool)
           (st : State) : string * State :=
  if USE_TEST_MODE config then
    ("Successfully authenticated with Microsoft Graph API (test mode)"%string,
     snd (createTestTokens now1 now2 now3 writeOk st))
  else
    ("Authentication required. Please visit the following URL to authenticate with Microsoft: "
     +:+ authServerUrl config +:+ "/auth?client_id=" +:+ clientId config
     +:+ newline +:+ newline
     +:+ "After authentication, you will be redirected back to this application.",
     st).

(** [tokens.expires_at && Date.now() > tokens.expires_at]. *)
Definition isExpired (now : Z) (tokens : Tokens) : bool :=
  truthyNum (expires_at tokens) &&
  match expires_at tokens with
  | Some (Finite e) => e <? now
  | _ => false
  end.

(** [tokens.scope ? tokens.scope.split(' ') : []]. *)
Definition grantedScopes (tokens : Tokens) : list string :=
  match scope tokens with
  | Some s => if String.eqb s "" then [] else split " " s
  | None => []
  end.

Definition hasSharedMailboxAccess (tokens : Tokens) : bool :=
  existsb (fun s => includes (toLowerCase s) ".shared") (grantedScopes tokens).

Definition notAuthenticated : string :=
  "Not authenticated. Please use the 'authenticate' tool to sign in.".

(** [handleCheckAuthStatus()] at clock reading [now]: the text, and
    the module state after [loadTokenCache]. *)
Definition handleCheckAuthStatus (now : Z) (st : State) : string * State :=
  let '(tokens, st) := loadTokenCache st in
  match tokens with
  | None => (notAuthenticated, st)
  | Some tokens =>
      if negb (truthyStr (access_token tokens)) then (notAuthenticated, st)
      else
        let statusMessage :=
          if isExpired now tokens
          then "Token expired. Please re-authenticate using the 'authenticate' tool."%string
          else "Authenticated and ready"%string in
        let statusMessage :=
          if negb (isExpired now tokens) && (0 <? length (grantedScopes tokens))%nat then
            let statusMessage :=
              statusMessage +:+ newline +:+ newline +:+ "Granted permissions:"
              +:+ newline +:+ "- Primary mailbox: Yes"
              +:+ newline +:+ "- Shared mailboxes: "
              +:+ (if hasSharedMailboxAccess tokens then "Yes"
                   else "No (re-authenticate to enable)") in
            if negb (hasSharedMailboxAccess tokens) then
              statusMessage +:+ newline +:+ newline
              +:+ "Note: To access shared mailboxes, please re-authenticate with 'authenticate' tool (force=true)."
              +:+ newline
              +:+ "The new authentication will request shared mailbox permissions."
            else statusMessage
          else statusMessage in
        (statusMessage, st)
  end.

End AuthTools.

(** ** email/search.js: [handleSearchEmails]; email/list.js *)

Module EmailHandlers.

Import JsString JsText Tool.

Record SearchArgs : Type := mkSearchArgs {
  folder : option string;
  count : option Z;
  query : option string;
  from : option string;
  to : option string;
  subject : option string;
  hasAttachments : option bool;
  unreadOnly : option bool;
  mailbox : option string;
  before : option string;
  after : option string;
  sortOrder : option string;
  skip : option Z
}.

(** [ensureAuthenticated], the service as the folder lookup queries
    it, and the environment of the paginated calls made under an access
    token on an endpoint. *)
Record Env : Type := mkEnv {
  ensureAuthenticated : Completion string;
  graph : Graph;
  searchOn : string -> JsValue -> Search.Env
}.

(** The [catch] of a handler whose errors are reported under [prefix]. *)
Definition report (prefix message : string) : string :=
  if String.eqb message "Authentication required" then pleaseAuthenticate
  else prefix +:+ message.

(** [handleSearchEmails(args)]: the text of the response and, once
    authenticated, the run of the search.  [render] writes the line of
    one mail. *)
Definition handleSearchEmails (env : Env) (render : Z -> Email -> string)
           (args : SearchArgs) : string * option Run :=
  let folder := orString (folder args) "inbox" in
  let requestedCount := orNumber (count args) 10 in
  let query := orString (query args) "" in
  let from := orString (from args) "" in
  let to := orString (to args) "" in
  let subject := orString (subject args) "" in
  let hasAttachments := hasAttachments args in
  let unreadOnly := unreadOnly args in
  let mailbox := orNull (mailbox args) in
  let before := orNull (before args) in
  let after := orNull (after args) in
  let sortOrder := orString (sortOrder args) "desc" in
  let skip := orNumber (skip args) 0 in
  match ensureAuthenticated env with
  | Throw m => (report "Error searching emails: " m, None)
  | Normal accessToken =>
      let endpoint := resolveFolderPath (graph env) (Some folder) mailbox in
      let '(response, run) :=
        progressiveSearch (searchOn env accessToken endpoint)
                          (mkSearchTerms query from to subject)
                          (mkFilterTerms hasAttachments unreadOnly before after)
                          requestedCount sortOrder skip in
      match response with
      | Normal response => (formatSearchResults render response sortOrder skip, Some run)
      | Throw m => (report "Error searching emails: " m, Some run)
      end
  end.

Record ListArgs : Type := mkListArgs {
  list_folder : option string;
  list_count : option Z;
  list_mailbox : option string
}.

(** [handleListEmails(args)]: the text of the response and the
    paginated call made, with the endpoint it went to. *)
Definition handleListEmails (env : Env) (render : Z -> Email -> string)
           (args : ListArgs) : string * list (JsValue * Params * Z) :=
  let folder := orString (list_folder args) "inbox" in
  let requestedCount := orNumber (list_count args) 10 in
  let mailbox := orNull (list_mailbox args) in
  match ensureAuthenticated env with
  | Throw m => (report "Error listing emails: " m, [])
  | Normal accessToken =>
      let endpoint := resolveFolderPath (graph env) (Some folder) mailbox in
      let env' := searchOn env accessToken endpoint in
      let '(queryParams, budget) := listEmailsRequest env' requestedCount in
      let calls := [(endpoint, queryParams, budget)] in
      match callGraphAPIPaginated env' O queryParams budget with
      | Throw m => (report "Error listing emails: " m, calls)
      | Normal response =>
          match api_value response with
          | None | Some [] =>
              ("No emails found in " +:+ folder +:+ mailboxInfo mailbox +:+ ".", calls)
          | Some l =>
              let emailList :=
                join newline (imap (fun index email => render (Z.of_nat index + 1) email) l) in
              ("Found " +:+ pretty (length l) +:+ " emails in " +:+ folder
               +:+ mailboxInfo mailbox +:+ ":" +:+ newline +:+ newline +:+ emailList,
               calls)
          end
      end
  end.

End EmailHandlers.
(** ** calendar/create.js, calendar/accept.js, calendar/delete.js *)

Module Calendar.

Import JsString JsText Tool.

(** A start or end time as the caller gives it: a string, or an object
    with its own [dateTime] and [timeZone]. *)
Inductive When : Type :=
| Text (s : string)
| Zoned (dateTime timeZone : option string).

(** ToBoolean of such an argument; [None] is [undefined]. *)
Definition given (w : option When) : bool :=
  match w with
  | Some (Text s) => negb (String.eqb s "")
  | Some (Zoned _ _) => true
  | None => false
  end.

(** [x.dateTime || x]: the [dateTime] of an object that has one, and
    otherwise the argument itself. *)
Inductive DateTime : Type :=
| DateTimeText (s : string)
| DateTimeArgument (w : When).

Definition dateTimeOf (w : When) : DateTime :=
  match w with
  | Text s => DateTimeText s
  | Zoned dateTime _ =>
      if truthyStr dateTime then DateTimeText (orString dateTime "")
      else DateTimeArgument w
  end.

(** [x.timeZone || DEFAULT_TIMEZONE]. *)
Definition timeZoneOf (DEFAULT_TIMEZONE : string) (w : When) : string :=
  match w with
  | Text _ => DEFAULT_TIMEZONE
  | Zoned _ timeZone => orString timeZone DEFAULT_TIMEZONE
  end.

Record EventTime : Type := mkEventTime {
  dateTime : DateTime;
  timeZone : string
}.

Record Attendee : Type := mkAttendee {
  address : string;
  type : string
}.

(** The request body of [handleCreateEvent]; the content type of the
    body is always HTML. *)
Record EventBody : Type := mkEventBody {
  body_subject : string;
  body_start : EventTime;
  body_end : EventTime;
  body_attendees : option (list Attendee);
  body_content : string
}.

Record CreateArgs : Type := mkCreateArgs {
  subject : option string;
  start : option When;
  end_ : option When;
  attendees : option (list string);
  body : option string;
  create_mailbox : option string
}.

Record EventArgs : Type := mkEventArgs {
  eventId : option string;
  comment : option string;
  mailbox : option string
}.

(** The calls of [callGraphAPI] the calendar handlers make. *)
Inductive Request : Type :=
| PostEvent (accessToken endpoint : string) (bodyContent : EventBody)
| PostAccept (accessToken endpoint comment : string)
| DeleteEvent (accessToken endpoint : string).

Record Env : Type := mkEnv {
  ensureAuthenticated : Completion string;
  DEFAULT_TIMEZONE : string;
  callGraphAPI : Request -> Completion unit
}.

(** The [catch] the three handlers share, with their own prefix. *)
Definition report (prefix message : string) : string :=
  if String.eqb message "Authentication required" then pleaseAuthenticate
  else prefix +:+ message.

(** [handleCreateEvent(args)]: the text of the response and the calls
    made. *)
Definition handleCreateEvent (env : Env) (args : CreateArgs) : string * list Request :=
  match subject args, start args, end_ args with
  | Some subject, Some start, Some end_ =>
      if negb (truthyStr (Some subject)) || negb (given (Some start))
         || negb (given (Some end_))
      then ("Subject, start, and end times are required to create an event."%string, [])
      else
        match ensureAuthenticated env with
        | Throw m => (report "Error creating event: " m, [])
        | Normal accessToken =>
            let basePath := getMailboxBasePath (create_mailbox args) in
            let endpoint := basePath +:+ "/events" in
            let bodyContent :=
              mkEventBody
                subject
                (mkEventTime (dateTimeOf start) (timeZoneOf (DEFAULT_TIMEZONE env) start))
                (mkEventTime (dateTimeOf end_) (timeZoneOf (DEFAULT_TIMEZONE env) end_))
                (map (fun email => mkAttendee email "required") <$> attendees args)
                (orString (body args) "") in
            let calls := [PostEvent accessToken endpoint bodyContent] in
            match callGraphAPI env (PostEvent accessToken endpoint bodyContent) with
            | Throw m => (report "Error creating event: " m, calls)
            | Normal _ =>
                let mailboxInfo :=
                  match create_mailbox args with
                  | Some m => if String.eqb m "" then "" else " in shared mailbox " +:+ m
                  | None => ""
                  end in
                ("Event '" +:+ subject +:+ "' has been successfully created"
                 +:+ mailboxInfo +:+ ".",
                 calls)
            end
        end
  | _, _, _ =>
      ("Subject, start, and end times are required to create an event."%string, [])
  end.

(** [handleAcceptEvent(args)]. *)
Definition handleAcceptEvent (env : Env) (args : EventArgs) : string * list Request :=
  match eventId args with
  | None => ("Event ID is required to accept an event."%string, [])
  | Some eventId =>
      if String.eqb eventId "" then ("Event ID is required to accept an event."%string, [])
      else
        match ensureAuthenticated env with
        | Throw m => (report "Error accepting event: " m, [])
        | Normal accessToken =>
            let basePath := getMailboxBasePath (mailbox args) in
            let endpoint := basePath +:+ "/events/" +:+ eventId +:+ "/accept" in
            let request :=
              PostAccept accessToken endpoint (orString (comment args) "Accepted via API") in
            match callGraphAPI env request with
            | Throw m => (report "Error accepting event: " m, [request])
            | Normal _ =>
                ("Event with ID " +:+ eventId +:+ " has been successfully accepted"
                 +:+ mailboxInfo (mailbox args) +:+ ".",
                 [request])
            end
        end
  end.

(** [handleDeleteEvent(args)]. *)
Definition handleDeleteEvent (env : Env) (args : EventArgs) : string * list Request :=
  match eventId args with
  | None => ("Event ID is required to delete an event."%string, [])
  | Some eventId =>
      if String.eqb eventId "" then ("Event ID is required to delete an event."%string, [])
      else
        match ensureAuthenticated env with
        | Throw m => (report "Error deleting event: " m, [])
        | Normal accessToken =>
            let basePath := getMailboxBasePath (mailbox args) in
            let endpoint := basePath +:+ "/events/" +:+ eventId in
            let request := DeleteEvent accessToken endpoint in
            match callGraphAPI env request with
            | Throw m => (report "Error deleting event: " m, [request])
            | Normal _ =>
                ("Event with ID " +:+ eventId +:+ " has been successfully deleted"
                 +:+ mailboxInfo (mailbox args) +:+ ".",
                 [request])
            end
        end
  end.

End Calendar.

(** * Part II: its properties *)

(** ** Properties of the token manager *)

Section TokenManagerFacts.

(** States the module can be in: those the environment can drive it
    to from a fresh load. *)
Definition reachable (st : State) : Prop :=
  exists f es, run es (init f) = Some st.

(** The request whose outcome an event delivers. *)
Definition outcome (e : Event) : option nat :=
  match e with
  | ResponseEnd p _ _ _ _ => Some p
  | RequestError p => Some p
  | _ => None
  end.

Definition outcomes (es : list Event) : list nat := omap outcome es.

(** The environment has delivered one outcome per request at most:
    the end of its response or its error, once. *)
Definition delivered_once (es : list Event) : Prop := NoDup (outcomes es).

(** Single flight: the requests awaiting their outcome are the one
    whose promise is in the slot, or none, and every suspended call
    waits on the promise in the slot. *)
Definition single_flight (st : State) : Prop :=
  pending st = match refreshPromise st with
               | Some p => [p]
               | None => []
               end /\
  forall c q, (c, q) ∈ waiters st -> refreshPromise st = Some q.

(** The expiry instant a record carries, if it carries one. *)
Definition expiry_instant (t : Tokens) : option Z :=
  match expires_at t with
  | Some (Finite e) => Some e
  | _ => None
  end.

(** The single-flight invariant: the slot names exactly the request
    in flight, every suspended call waits on it, and a record is
    cached as long as an attempt is in flight. *)
Record Inv (st : State) : Prop := mkInv {
  inv_slot : pending st = match refreshPromise st with
                          | Some p => [p]
                          | None => []
                          end;
  inv_waiters : forall c q, (c, q) ∈ waiters st -> refreshPromise st = Some q;
  inv_cached : refreshPromise st <> None -> cachedTokens st <> None;
  inv_completed : forall c r, (c, r) ∈ completed st -> exists v, r = Normal v
}.

Lemma Inv_init f : Inv (init f).
Proof.
  split; simpl; try done.
  - intros c q H. by apply elem_of_nil in H.
  - intros c r H. by apply elem_of_nil in H.
Qed.

Lemma wake_all p s ws st :
  (forall c q, (c, q) ∈ ws -> q = p) ->
  wake p s ws st = ([], map (fun w => (w.1, resume s st)) ws).
Proof.
  induction ws as [|[c q] ws IH]; intros H; simpl; [done|].
  rewrite IH.
  - assert (q = p) as -> by (apply (H c); left).
    by rewrite Nat.eqb_refl.
  - intros c' q' Hin. apply (H c'). by right.
Qed.

Lemma wake_none p s ws st :
  (forall c q, (c, q) ∈ ws -> q <> p) ->
  wake p s ws st = (ws, []).
Proof.
  induction ws as [|[c q] ws IH]; intros H; simpl; [done|].
  rewrite IH.
  - destruct (Nat.eqb_spec q p) as [->|]; [|done].
    exfalso. apply (H c p); [left|done].
  - intros c' q' Hin. apply (H c'). by right.
Qed.

Lemma settle_in_flight p s st :
  pending st = [p] ->
  (forall c q, (c, q) ∈ waiters st -> q = p) ->
  settle p s st =
    mkState (cachedTokens st) (refreshPromise st) (tokenFile st) (requests st)
            [] [] (completed st ++ map (fun w => (w.1, resume s st)) (waiters st)).
Proof.
  intros Hp Hw. unfold settle. rewrite (wake_all _ _ _ _ Hw), Hp.
  rewrite filter_cons, decide_False by (intros H; by apply H).
  by rewrite filter_nil.
Qed.

Lemma Inv_pending st p :
  Inv st -> p ∈ pending st -> refreshPromise st = Some p /\ pending st = [p].
Proof.
  intros [Hs _ _ _] Hin. rewrite Hs in Hin |- *.
  destruct (refreshPromise st) as [q|].
  - apply list_elem_of_singleton in Hin. by subst.
  - by apply elem_of_nil in Hin.
Qed.

(** The state a settling handler starts from: the slot has just been
    cleared, the request is still counted as in flight. *)
Record Settling (p : nat) (st : State) : Prop := mkSettling {
  stl_slot : refreshPromise st = None;
  stl_pending : pending st = [p];
  stl_waiters : forall c q, (c, q) ∈ waiters st -> q = p;
  stl_completed : forall c r, (c, r) ∈ completed st -> exists v, r = Normal v
}.

Lemma Settling_clear st p :
  Inv st -> p ∈ pending st -> Settling p (set_refreshPromise None st).
Proof.
  intros HI Hin. destruct (Inv_pending _ _ HI Hin) as [Hr Hp].
  destruct HI as [_ Hw _ Hc]. split; simpl; try done.
  intros c q Hq. apply Hw in Hq. congruence.
Qed.

Lemma Inv_settle p s st :
  Settling p st ->
  (s = Fulfilled -> cachedTokens st <> None) ->
  Inv (settle p s st).
Proof.
  intros [Hr Hp Hw Hc] Hs. rewrite (settle_in_flight _ _ _ Hp Hw).
  split; simpl.
  - by rewrite Hr.
  - intros c q H. by apply elem_of_nil in H.
  - by rewrite Hr.
  - intros c r [H|H]%elem_of_app; [by eapply Hc|].
    apply list_elem_of_fmap in H as [w [[= _ ->] _]].
    destruct s as [|m]; simpl; [|by eexists].
    unfold read_access_token. destruct (cachedTokens st); [by eexists|].
    by destruct Hs.
Qed.

Lemma Inv_on_end p code body now ok st :
  Inv st -> p ∈ pending st -> Inv (on_end p code body now ok st).
Proof.
  intros HI Hin. pose proof (Settling_clear _ _ HI Hin) as HS.
  unfold on_end. destruct body as [| |r]; try (apply Inv_settle; done).
  destruct (_ && _); [|apply Inv_settle; done].
  destruct (cachedTokens (set_refreshPromise None st)) as [t|] eqn:Ht;
    [|apply Inv_settle; done].
  apply Inv_settle.
  - destruct HS as [Hr Hp Hw Hc]. destruct ok; split; simpl in *; done.
  - intros _. destruct ok; simpl; done.
Qed.

Lemma Inv_on_error p st :
  Inv st -> p ∈ pending st -> Inv (on_error p st).
Proof.
  intros HI Hin. apply Inv_settle; [by apply Settling_clear|done].
Qed.

Lemma Inv_set_cachedTokens t st :
  Inv st -> Inv (set_cachedTokens (Some t) st).
Proof. intros [H1 H2 H3 H4]. split; simpl; done. Qed.

Lemma Inv_loadTokenCache st : Inv st -> Inv (snd (loadTokenCache st)).
Proof.
  intros HI. unfold loadTokenCache.
  destruct (tokenFile st) as [| |t]; try done.
  destruct (negb _); [done|]. by apply Inv_set_cachedTokens.
Qed.

Lemma Inv_saveTokenCache t ok st : Inv st -> Inv (snd (saveTokenCache t ok st)).
Proof.
  intros [H1 H2 H3 H4]. unfold saveTokenCache. destruct ok; split; simpl; done.
Qed.

Lemma Inv_complete c v st : Inv st -> Inv (complete c (Normal v) st).
Proof.
  intros [H1 H2 H3 H4]. split; simpl; try done.
  intros c' r [H|H]%elem_of_app; [by eapply H4|].
  apply list_elem_of_singleton in H as [= _ ->]. by eexists.
Qed.

Lemma Inv_refreshAccessToken st :
  Inv st ->
  Inv (snd (refreshAccessToken st)) /\
  forall p, fst (refreshAccessToken st) = Normal p ->
            refreshPromise (snd (refreshAccessToken st)) = Some p.
Proof.
  intros HI. unfold refreshAccessToken.
  destruct (cachedTokens st) as [t|] eqn:Ht; [|done].
  destruct (negb _); [done|].
  destruct (refreshPromise st) as [q|] eqn:Hq; simpl.
  - split; [done|]. by intros p [= ->].
  - split; [|by intros p [= ->]].
    destruct HI as [H1 H2 H3 H4]. rewrite Hq in H1.
    split; simpl; try done; try (by rewrite ?H1, ?Ht).
    intros c q' Hin. apply H2 in Hin. congruence.
Qed.

Lemma Inv_suspend c p st :
  Inv st -> refreshPromise st = Some p -> Inv (suspend c p st).
Proof.
  intros [H1 H2 H3 H4] Hp. split; simpl; try done.
  intros c' q [H|H]%elem_of_app; [by eapply H2|].
  apply list_elem_of_singleton in H as [= _ ->]. done.
Qed.

Lemma Inv_getAccessToken c now st : Inv st -> Inv (getAccessToken c now st).
Proof.
  intros HI. unfold getAccessToken.
  set (st1 := match cachedTokens st with
              | None => snd (loadTokenCache st)
              | Some _ => st
              end).
  assert (Inv st1) as HI1.
  { subst st1. destruct (cachedTokens st); [done|]. by apply Inv_loadTokenCache. }
  clearbody st1.
  destruct (cachedTokens st1) as [t|] eqn:Ht; [|by apply Inv_complete].
  destruct (negb _); [by apply Inv_complete|].
  destruct (needsRefresh now st1).
  - destruct (truthyStr (refresh_token t)); [|by apply Inv_complete].
    destruct (Inv_refreshAccessToken _ HI1) as [HI2 Hp].
    destruct (refreshAccessToken st1) as [[p|m] st2]; simpl in *.
    + apply Inv_suspend; [done|]. by apply Hp.
    + by apply Inv_complete.
  - unfold read_access_token. rewrite Ht. by apply Inv_complete.
Qed.

(** *** What holds after every sequence of events *)

(** Settling a promise hands its value to the calls suspended on it
    and leaves the others suspended. *)
Lemma wake_spec p s ws st :
  wake p s ws st
  = (filter (fun w => w.2 ≠ p) ws,
     map (fun w => (w.1, resume s st)) (filter (fun w => w.2 = p) ws)).
Proof.
  induction ws as [|[c q] ws IH]; simpl; [done|].
  rewrite IH, !filter_cons. simpl.
  destruct (Nat.eqb_spec q p) as [->|Hne].
  - rewrite decide_False by (intros H; by apply H). by rewrite decide_True.
  - rewrite decide_True by done. by rewrite decide_False.
Qed.

Lemma settle_spec p s st :
  settle p s st
  = mkState (cachedTokens st) (refreshPromise st) (tokenFile st) (requests st)
            (filter (fun q => q ≠ p) (pending st))
            (filter (fun w => w.2 ≠ p) (waiters st))
            (completed st
               ++ map (fun w => (w.1, resume s st))
                      (filter (fun w => w.2 = p) (waiters st))).
Proof. unfold settle. by rewrite wake_spec. Qed.














(** *** The requests awaiting their outcome *)

(** After the outcomes [ds] have been delivered, the requests awaiting
    theirs are the created ones that are not among [ds]. *)
Definition awaiting (ds : list nat) (st : State) : Prop :=
  (forall p, p ∈ ds -> (p < length (requests st))%nat) /\
  (forall p, p ∈ pending st <-> (p < length (requests st))%nat /\ p ∉ ds).

Lemma awaiting_init f : awaiting [] (init f).
Proof.
  split; simpl.
  - intros p H. by apply elem_of_nil in H.
  - intros p. split; [intros H; by apply elem_of_nil in H|lia].
Qed.

Lemma awaiting_same ds st st' :
  requests st' = requests st -> pending st' = pending st ->
  awaiting ds st -> awaiting ds st'.
Proof. intros Hr Hp [H1 H2]. split; intros p; rewrite Hr, ?Hp; [apply H1|apply H2]. Qed.

Lemma getAccessToken_grows c now st :
  (requests (getAccessToken c now st) = requests st /\
   pending (getAccessToken c now st) = pending st) \/
  (exists r, requests (getAccessToken c now st) = requests st ++ [r] /\
             pending (getAccessToken c now st) = length (requests st) :: pending st).
Proof.
  unfold getAccessToken.
  set (st1 := match cachedTokens st with
              | None => snd (loadTokenCache st)
              | Some _ => st
              end).
  assert (requests st1 = requests st /\ pending st1 = pending st) as [Hr Hp].
  { subst st1. destruct (cachedTokens st); [done|]. unfold loadTokenCache.
    destruct (tokenFile st) as [| |t]; try done. by destruct (negb _). }
  rewrite <- Hr, <- Hp. clearbody st1.
  destruct (cachedTokens st1) as [t|] eqn:Ht; [|by left].
  destruct (negb _); [by left|].
  destruct (needsRefresh now st1); [|by left].
  destruct (truthyStr (refresh_token t)) eqn:Hrt; [|by left].
  unfold refreshAccessToken. rewrite Ht, Hrt. simpl.
  destruct (refreshPromise st1); simpl; [by left|].
  right. by eexists.
Qed.

Lemma on_end_pending p code body now ok st :
  pending (on_end p code body now ok st) = filter (fun q => q ≠ p) (pending st).
Proof.
  unfold on_end. cbv zeta.
  destruct body as [| |r]; [by rewrite settle_spec..|].
  destruct (_ && _); [|by rewrite settle_spec].
  destruct (cachedTokens (set_refreshPromise None st)); rewrite settle_spec; [|done].
  by destruct ok.
Qed.

Lemma settle_keeps p s st :
  cachedTokens (settle p s st) = cachedTokens st /\
  tokenFile (settle p s st) = tokenFile st /\
  requests (settle p s st) = requests st /\
  refreshPromise (settle p s st) = refreshPromise st.
Proof. unfold settle. by destruct (wake p s (waiters st) st). Qed.

(** Whether a status code is in the 2xx range, as the handler tests it. *)
Definition is_2xx (code : Z) : bool := (200 <=? code) && (code <? 300).

(** The events that end the attempt of promise [p]. *)
Definition attempt_end (p : nat) (e : Event) : Prop :=
  match e with
  | ResponseEnd q _ _ _ _ => q = p
  | RequestError q => q = p
  | _ => False
  end.


(** What a waiter of the attempt is handed when [e] ends it. *)
Definition renewed_token (e : Event) : option string :=
  match e with
  | ResponseEnd _ code (ParsedObject r) _ _ =>
      if is_2xx code then body_access_token r else None
  | _ => None
  end.

Lemma on_end_failure p code body now ok st :
  body = ParseError \/ body = ParsedNull \/ is_2xx code = false ->
  exists m, on_end p code body now ok st
            = settle p (Rejected m) (set_refreshPromise None st).
Proof.
  unfold on_end, is_2xx. intros [->|[->|H]]; [by eexists|by eexists|].
  destruct body; try by eexists. rewrite H. by eexists.
Qed.

Lemma on_end_success p code r now ok st t :
  is_2xx code = true -> cachedTokens st = Some t ->
  on_end p code (ParsedObject r) now ok st
  = settle p Fulfilled
      (snd (saveTokenCache (merge now r t) ok
              (set_cachedTokens (Some (merge now r t)) (set_refreshPromise None st)))).
Proof. unfold on_end, is_2xx. intros -> Ht. simpl. by rewrite Ht. Qed.

Lemma getAccessToken_attach c now st t p :
  cachedTokens st = Some t ->
  truthyStr (access_token t) = true ->
  truthyStr (refresh_token t) = true ->
  needsRefresh now st = true ->
  refreshPromise st = Some p ->
  getAccessToken c now st = suspend c p st.
Proof.
  intros Ht Ha Hr Hn Hp. unfold getAccessToken, refreshAccessToken.
  rewrite Ht. cbv zeta. rewrite Ht, Ha, Hn, Hr, Hp. done.
Qed.

Lemma getAccessToken_first c now st t :
  cachedTokens st = Some t ->
  truthyStr (access_token t) = true ->
  truthyStr (refresh_token t) = true ->
  needsRefresh now st = true ->
  refreshPromise st = None ->
  getAccessToken c now st =
    suspend c (length (requests st))
      (mkState (cachedTokens st) (Some (length (requests st))) (tokenFile st)
               (requests st ++ [mkRequest (length (requests st)) (refresh_token t)])
               (length (requests st) :: pending st) (waiters st) (completed st)).
Proof.
  intros Ht Ha Hr Hn Hp. unfold getAccessToken, refreshAccessToken.
  rewrite Ht. cbv zeta. rewrite Ht, Ha, Hn, Hr, Hp. done.
Qed.

Lemma needsRefresh_cached now st st' :
  cachedTokens st' = cachedTokens st -> needsRefresh now st' = needsRefresh now st.
Proof. unfold needsRefresh. by intros ->. Qed.

(** Calls arriving while promise [p] is in the slot all attach to it. *)
Lemma run_calls_attach (calls : list (nat * Z)) : forall st t p,
  cachedTokens st = Some t ->
  truthyStr (access_token t) = true ->
  truthyStr (refresh_token t) = true ->
  refreshPromise st = Some p ->
  (forall c now, (c, now) ∈ calls -> needsRefresh now st = true) ->
  run (map (fun cn => Call cn.1 cn.2) calls) st =
    Some (mkState (cachedTokens st) (refreshPromise st) (tokenFile st) (requests st)
                  (pending st) (waiters st ++ map (fun cn => (cn.1, p)) calls)
                  (completed st)).
Proof.
  induction calls as [|[c now] calls IH]; intros st t p Ht Ha Hr Hp Hn; simpl.
  - rewrite app_nil_r. by destruct st.
  - rewrite (getAccessToken_attach c now st t p) by (try done; apply (Hn c); left).
    rewrite (IH (suspend c p st) t p); try done.
    + simpl. by rewrite <- app_assoc.
    + intros c' now' Hin. rewrite <- (Hn c' now') by (by right). done.
Qed.

(** C8. [needsRefresh] answers true exactly when no record is cached,
    the record carries no expiry instant, or the clock is at or past
    the expiry instant minus 300 seconds; a record expiring 4 minutes
    from now needs refresh, one expiring 10 minutes from now does
    not.  The clock reads a time since the epoch. *)
Theorem needsRefresh_classification :
  forall (now : Z) (st : State),
    0 <= now ->
    (needsRefresh now st = true <->
       cachedTokens st = None \/
       exists t, cachedTokens st = Some t /\
                 match expiry_instant t with
                 | None => True
                 | Some e => e - 300 * 1000 <= now
                 end) /\
    (forall t, cachedTokens st = Some t ->
               expires_at t = Some (Finite (now + 4 * 60 * 1000)) ->
               needsRefresh now st = true) /\
    (forall t, cachedTokens st = Some t ->
               expires_at t = Some (Finite (now + 10 * 60 * 1000)) ->
               needsRefresh now st = false).
Proof.
  intros now st Hnow. unfold needsRefresh, expiry_instant, REFRESH_BUFFER_MS.
  repeat split.
  - destruct (cachedTokens st) as [t|]; [|by left].
    intros H. right. exists t. split; [done|].
    destruct (expires_at t) as [[e|]|]; simpl in *; try done.
    destruct (Z.eqb_spec e 0); simpl in H; [lia|].
    apply Z.leb_le in H. lia.
  - intros [->|(t & -> & H)]; [done|].
    destruct (expires_at t) as [[e|]|]; simpl in *; try done.
    destruct (Z.eqb_spec e 0); simpl; [done|].
    apply Z.leb_le. lia.
  - intros t -> ->. simpl.
    destruct (Z.eqb_spec (now + 4 * 60 * 1000) 0); simpl; [done|].
    apply Z.leb_le. lia.
  - intros t -> ->. simpl.
    destruct (Z.eqb_spec (now + 10 * 60 * 1000) 0); simpl; [lia|].
    apply Z.leb_gt. lia.
Qed.

(** C4. A renewal that succeeds replaces the access token, sets the
    expiry to the clock plus the reported lifetime in seconds, takes
    the refresh token and the scope from the response only where it
    supplies them, and writes the merged record to the token file; a
    renewal that fails (request error, body that does not parse to an
    object, status outside 2xx) leaves the cached record as it was. *)
Theorem renewal_merges_or_discards :
  forall (p : nat) (code : Z) (body : Parsed) (now : Z) (ok : bool)
         (st : State) (t : Tokens),
    cachedTokens st = Some t ->
    (forall r, body = ParsedObject r -> is_2xx code = true ->
       exists t',
         cachedTokens (on_end p code body now ok st) = Some t' /\
         access_token t' = body_access_token r /\
         (forall lifetime, body_expires_in r = Some (Finite lifetime) ->
            expires_at t' = Some (Finite (now + lifetime * 1000))) /\
         refresh_token t' = (if truthyStr (body_refresh_token r)
                             then body_refresh_token r else refresh_token t) /\
         scope t' = (if truthyStr (body_scope r)
                     then body_scope r else scope t) /\
         (ok = true -> tokenFile (on_end p code body now ok st) = Stored t')) /\
    (body = ParseError \/ body = ParsedNull \/ is_2xx code = false ->
       cachedTokens (on_end p code body now ok st) = Some t /\
       tokenFile (on_end p code body now ok st) = tokenFile st) /\
    cachedTokens (on_error p st) = Some t /\
    tokenFile (on_error p st) = tokenFile st.
Proof.
  intros p code body now ok st t Ht. repeat split.
  - intros r -> H2. exists (merge now r t).
    rewrite (on_end_success _ _ _ _ _ _ _ H2 Ht).
    destruct (settle_keeps p Fulfilled
                (snd (saveTokenCache (merge now r t) ok
                   (set_cachedTokens (Some (merge now r t))
                                     (set_refreshPromise None st)))))
      as (-> & -> & _).
    repeat split; try (by destruct ok).
    intros lifetime Hl. simpl. by rewrite Hl.
  - destruct (on_end_failure p code body now ok st H) as [m ->].
    destruct (settle_keeps p (Rejected m) (set_refreshPromise None st)) as (-> & _).
    done.
  - destruct (on_end_failure p code body now ok st H) as [m ->].
    destruct (settle_keeps p (Rejected m) (set_refreshPromise None st)) as (_ & -> & _).
    done.
  - unfold on_error.
    destruct (settle_keeps p (Rejected "request error") (set_refreshPromise None st))
      as (-> & _). done.
  - unfold on_error.
    destruct (settle_keeps p (Rejected "request error") (set_refreshPromise None st))
      as (_ & -> & _). done.
Qed.

Lemma step_attempt_end p e st :
  attempt_end p e -> (p < length (requests st))%nat -> pending st = [p] ->
  (forall c q, (c, q) ∈ waiters st -> q = p) ->
  cachedTokens st <> None ->
  exists st', step e st = Some st' /\
    refreshPromise st' = None /\ pending st' = [] /\ waiters st' = [] /\
    requests st' = requests st /\
    completed st' = completed st
                    ++ map (fun w => (w.1, Normal (renewed_token e))) (waiters st).
Proof.
  intros He Hlt Hp Hw Hc.
  destruct e as [c now|q code body now ok|q| |t ok|f]; simpl in He; try done; subst q;
    simpl; rewrite bool_decide_true by done; eexists; (split; [done|]).
  - destruct (cachedTokens st) as [t|] eqn:Ht; [clear Hc|done].
    destruct body as [| |r]; simpl; try (rewrite settle_in_flight by done; done).
    fold (is_2xx code). destruct (is_2xx code) eqn:H2.
    + rewrite Ht. destruct ok; simpl; rewrite settle_in_flight by done; done.
    + rewrite settle_in_flight by done. done.
  - unfold on_error. rewrite settle_in_flight by done. done.
Qed.

Lemma attempt_end_delivers (calls : list (nat * Z)) st p e :
  cachedTokens st <> None -> (p < length (requests st))%nat -> pending st = [p] ->
  (forall c q, (c, q) ∈ waiters st -> q = p) ->
  (forall c now, (c, now) ∈ calls -> (c, p) ∈ waiters st) ->
  attempt_end p e ->
  exists st2, step e st = Some st2 /\ refreshPromise st2 = None /\
    pending st2 = [] /\ requests st2 = requests st /\
    forall c now, (c, now) ∈ calls ->
                  (c, Normal (renewed_token e)) ∈ completed st2.
Proof.
  intros Hc Hlt Hp Hw Hin He.
  destruct (step_attempt_end p e st He Hlt Hp Hw Hc) as (st2 & Hs & H1 & H2 & _ & H3 & H4).
  exists st2. split_and!; try done.
  intros c now Hcn. rewrite H4. apply elem_of_app. right.
  apply list_elem_of_fmap. exists (c, p). split; [done|]. by eapply Hin.
Qed.

Lemma on_end_requests p code body now ok st :
  requests (on_end p code body now ok st) = requests st.
Proof.
  unfold on_end.
  destruct body as [| |r];
    try (by destruct (settle_keeps p (Rejected "SyntaxError") (set_refreshPromise None st))
           as (_ & _ & -> & _));
    try (by destruct (settle_keeps p (Rejected "TypeError") (set_refreshPromise None st))
           as (_ & _ & -> & _)).
  destruct (_ && _).
  - destruct (cachedTokens (set_refreshPromise None st)) as [t|].
    + match goal with
      | |- requests (settle p Fulfilled ?x) = _ =>
          destruct (settle_keeps p Fulfilled x) as (_ & _ & -> & _)
      end.
      by destruct ok.
    + by destruct (settle_keeps p (Rejected "TypeError") (set_refreshPromise None st))
        as (_ & _ & -> & _).
  - by destruct (settle_keeps p (Rejected (failure_message r))
                   (set_refreshPromise None st)) as (_ & _ & -> & _).
Qed.

(** While the slot is taken no event creates a request. *)
Lemma step_keeps_requests e st st' :
  refreshPromise st <> None -> step e st = Some st' -> requests st' = requests st.
Proof.
  intros Hslot. destruct e as [c now|p code body now ok|p| |t ok|f]; simpl.
  - intros [= <-]. unfold getAccessToken.
    set (st1 := match cachedTokens st with
                | None => snd (loadTokenCache st)
                | Some _ => st
                end).
    assert (requests st1 = requests st /\ refreshPromise st1 = refreshPromise st)
      as [Hr Hp].
    { subst st1. destruct (cachedTokens st); [done|]. unfold loadTokenCache.
      destruct (tokenFile st) as [| |t]; try done. by destruct (negb _). }
    rewrite <- Hr. rewrite <- Hp in Hslot. clearbody st1.
    destruct (cachedTokens st1) as [t|] eqn:Ht; [|done].
    destruct (negb _); [done|].
    destruct (needsRefresh now st1); [|done].
    destruct (truthyStr (refresh_token t)) eqn:Hrt; [|done].
    unfold refreshAccessToken. rewrite Ht, Hrt. simpl.
    by destruct (refreshPromise st1).
  - case_bool_decide; [|done]. intros [= <-]. apply on_end_requests.
  - case_bool_decide; [|done]. intros [= <-]. unfold on_error.
    by destruct (settle_keeps p (Rejected "request error") (set_refreshPromise None st))
      as (_ & _ & -> & _).
  - intros [= <-]. unfold loadTokenCache.
    destruct (tokenFile st) as [| |t]; try done. by destruct (negb _).
  - intros [= <-]. by destruct ok.
  - by intros [= <-].
Qed.

Lemma step_requests e st st' :
  step e st = Some st' ->
  requests st' = requests st \/ exists r, requests st' = requests st ++ [r].
Proof.
  destruct e as [c now|p code body now ok|p| |t ok|f]; simpl.
  - intros [= <-]. destruct (getAccessToken_grows c now st) as [[H _]|(r & H & _)];
      [by left|right; by exists r].
  - case_bool_decide; [|done]. intros [= <-]. left. apply on_end_requests.
  - case_bool_decide; [|done]. intros [= <-]. left. unfold on_error.
    by rewrite settle_spec.
  - intros [= <-]. left. unfold loadTokenCache.
    destruct (tokenFile st) as [| |t]; try done. by destruct (negb _).
  - intros [= <-]. left. by destruct ok.
  - intros [= <-]. by left.
Qed.

(** An outcome takes its request off the requests awaiting one; a
    call may add the request it creates; nothing else changes them. *)
Lemma step_awaiting e st st' ds :
  awaiting ds st -> step e st = Some st' ->
  awaiting (match outcome e with
            | Some p => p :: ds
            | None => ds
            end) st'.
Proof.
  intros [Hd Hp]. destruct e as [c now|p code body now ok|p| |t ok|f]; simpl.
  - intros [= <-].
    destruct (getAccessToken_grows c now st) as [[H1 H2]|(r & H1 & H2)].
    + by apply (awaiting_same ds st).
    + split; intros p; rewrite H1, ?H2, length_app; simpl.
      * intros H. apply Hd in H. lia.
      * rewrite elem_of_cons, Hp. split.
        -- intros [->|[H3 H4]]; [|split; [lia|done]].
           split; [lia|]. intros H. apply Hd in H. lia.
        -- intros [H3 H4].
           destruct (decide (p = length (requests st))) as [->|Hne]; [by left|].
           right. split; [lia|done].
  - case_bool_decide as Hlt; [|done]. intros [= <-].
    split; intros q; rewrite on_end_requests, ?on_end_pending.
    + intros [->|H]%elem_of_cons; [done|by apply Hd].
    + rewrite list_elem_of_filter, Hp, elem_of_cons. tauto.
  - case_bool_decide as Hlt; [|done]. intros [= <-].
    unfold on_error. rewrite settle_spec. split; intros q; simpl.
    + intros [->|H]%elem_of_cons; [done|by apply Hd].
    + rewrite list_elem_of_filter, Hp, elem_of_cons. tauto.
  - intros [= <-]. apply (awaiting_same ds st); [| |done]; unfold loadTokenCache;
      destruct (tokenFile st) as [| |t]; try done; by destruct (negb _).
  - intros [= <-]. apply (awaiting_same ds st); [| |done]; by destruct ok.
  - intros [= <-]. by apply (awaiting_same ds st).
Qed.



(** *** Single flight, when every outcome is delivered once *)

Lemma Inv_step e st st' :
  Inv st -> (forall p, outcome e = Some p -> p ∈ pending st) ->
  step e st = Some st' -> Inv st'.
Proof.
  intros HI Ho. destruct e as [c now|p code body now ok|p| |t ok|f]; simpl.
  - intros [= <-]. by apply Inv_getAccessToken.
  - case_bool_decide; [|done]. intros [= <-]. apply Inv_on_end; [done|]. by apply Ho.
  - case_bool_decide; [|done]. intros [= <-]. apply Inv_on_error; [done|]. by apply Ho.
  - intros [= <-]. by apply Inv_loadTokenCache.
  - intros [= <-]. by apply Inv_saveTokenCache.
  - intros [= <-]. destruct HI as [H1 H2 H3 H4]. by split.
Qed.

Lemma Inv_run es : forall st st' ds,
  Inv st -> awaiting ds st ->
  NoDup (outcomes es) -> (forall p, p ∈ outcomes es -> p ∉ ds) ->
  run es st = Some st' -> Inv st' /\ exists ds', awaiting ds' st'.
Proof.
  induction es as [|e es IH]; simpl; intros st st' ds HI Ha Hnd Hnew.
  - intros [= <-]. split; [done|by exists ds].
  - destruct (step e st) as [st1|] eqn:He; [|done].
    pose proof (step_awaiting e st st1 ds Ha He) as Ha1.
    unfold outcomes in Hnd, Hnew. simpl in Hnd, Hnew.
    destruct (outcome e) as [p|] eqn:Ho.
    + apply NoDup_cons in Hnd as [Hp Hnd].
      assert (p ∈ pending st) as Hin.
      { destruct Ha as [_ Hpend]. apply Hpend. split.
        - destruct e; simpl in Ho, He; try done; injection Ho as ->;
            by case_bool_decide.
        - apply Hnew. by left. }
      apply (IH st1 st' (p :: ds)); try done.
      * eapply Inv_step; [done| |done]. intros q Hq. congruence.
      * intros q Hq [->|Hd]%elem_of_cons; [done|].
        by apply (Hnew q); [right|].
    + apply (IH st1 st' ds); try done.
      eapply Inv_step; [done| |done]. intros q Hq. congruence.
Qed.

Lemma delivered_once_Inv f es st :
  delivered_once es -> run es (init f) = Some st ->
  Inv st /\ forall p, p ∈ pending st -> (p < length (requests st))%nat.
Proof.
  intros Hnd Hrun.
  destruct (Inv_run es (init f) st [] (Inv_init f) (awaiting_init f) Hnd) as [HI Ha];
    [intros p _ H; by apply elem_of_nil in H|done|].
  split; [done|]. intros p Hin. destruct Ha as (ds & Hd & Hp).
  apply Hp in Hin. by destruct Hin.
Qed.

(** Single flight.  As long as the environment has delivered the
    outcome of every renewal request at most once (the end of its
    response or its error), the module is in single flight: at most one renewal
    request awaits its outcome, the one whose promise is in the slot,
    every suspended call waits on that promise, and no event creates a
    request while the slot is taken.  Calls of [getAccessToken] that
    arrive while the cached record needs refresh and holds a refresh
    token create at most one renewal request between them: the first
    creates it unless one is already in flight, every other one
    attaches to the promise in the slot.  The outcome of the attempt
    clears the slot, creates no request, and hands every one of these
    callers the same value: the renewed access token on success, null
    on failure. *)
Theorem single_flight_refresh :
  forall (f : TokenFile) (es : list Event) (st0 : State),
    delivered_once es ->
    run es (init f) = Some st0 ->
    single_flight st0 /\
    (forall e st', refreshPromise st0 <> None -> step e st0 = Some st' ->
                   requests st' = requests st0) /\
    forall (t : Tokens) (calls : list (nat * Z)),
      cachedTokens st0 = Some t ->
      truthyStr (access_token t) = true ->
      truthyStr (refresh_token t) = true ->
      calls <> [] ->
      (forall c now, (c, now) ∈ calls -> needsRefresh now st0 = true) ->
      exists p st1,
        run (map (fun cn => Call cn.1 cn.2) calls) st0 = Some st1 /\
        (refreshPromise st0 = None ->
           requests st1 = requests st0 ++ [mkRequest p (refresh_token t)]) /\
        (forall q, refreshPromise st0 = Some q ->
           requests st1 = requests st0 /\ p = q) /\
        (length (requests st1) <= length (requests st0) + 1)%nat /\
        refreshPromise st1 = Some p /\
        pending st1 = [p] /\
        (forall c now, (c, now) ∈ calls -> (c, p) ∈ waiters st1) /\
        forall e, attempt_end p e ->
          exists st2,
            step e st1 = Some st2 /\
            refreshPromise st2 = None /\
            pending st2 = [] /\
            requests st2 = requests st1 /\
            forall c now, (c, now) ∈ calls ->
                          (c, Normal (renewed_token e)) ∈ completed st2.
Proof.
  intros f es st0 Honce Hrun.
  destruct (delivered_once_Inv f es st0 Honce Hrun) as [[Hslot Hwait _ _] Hcreated].
  split; [by split|].
  split; [intros e st' Hs He; by apply (step_keeps_requests e)|].
  intros t calls Ht Ha Hr Hne Hn.
  destruct (refreshPromise st0) as [q|] eqn:Hq.
  - exists q. eexists. split.
    { apply (run_calls_attach calls st0 t q); done. }
    assert (forall c now, (c, now) ∈ calls ->
              (c, q) ∈ waiters st0 ++ map (fun cn : nat * Z => (cn.1, q)) calls) as Hall.
    { intros c now Hin. apply elem_of_app. right.
      apply list_elem_of_fmap. by exists (c, now). }
    split_and!; try done.
    + by intros q' [= ->].
    + simpl. lia.
    + intros e He.
      apply (attempt_end_delivers calls _ q e); simpl; try done.
      * by rewrite Ht.
      * apply Hcreated. rewrite Hslot. by left.
      * intros c q' [H|H]%elem_of_app.
        -- apply Hwait in H. congruence.
        -- by apply list_elem_of_fmap in H as [w [[= _ ->] _]].
  - destruct calls as [|[c0 now0] calls]; [done|].
    set (p := length (requests st0)).
    exists p. eexists. split.
    { simpl. rewrite (getAccessToken_first c0 now0 st0 t) by (try done; apply (Hn c0); left).
      apply (run_calls_attach calls _ t p); simpl; try done.
      intros c now Hin. rewrite <- (Hn c now) by (by right).
      by apply needsRefresh_cached. }
    simpl. rewrite Hslot. fold p.
    assert (forall c now, (c, now) ∈ (c0, now0) :: calls ->
              (c, p) ∈ (waiters st0 ++ [(c0, p)])
                       ++ map (fun cn : nat * Z => (cn.1, p)) calls) as Hall.
    { intros c now [[= -> ->]|Hin]%elem_of_cons.
      - apply elem_of_app. left. apply elem_of_app. right. by left.
      - apply elem_of_app. right. apply list_elem_of_fmap. by exists (c, now). }
    split_and!; try done.
    + rewrite length_app. simpl. lia.
    + intros e He.
      apply (attempt_end_delivers ((c0, now0) :: calls)
               (mkState (cachedTokens st0) (Some p) (tokenFile st0)
                  (requests st0 ++ [mkRequest p (refresh_token t)]) [p]
                  ((waiters st0 ++ [(c0, p)])
                     ++ map (fun cn : nat * Z => (cn.1, p)) calls)
                  (completed st0)) p e); simpl; try done.
      * by rewrite Ht.
      * rewrite length_app. simpl. lia.
      * intros c q [[H|H]%elem_of_app|H]%elem_of_app.
        -- apply Hwait in H. congruence.
        -- by apply list_elem_of_singleton in H as [= _ ->].
        -- by apply list_elem_of_fmap in H as [w [[= _ ->] _]].
Qed.


End TokenManagerFacts.

(** *** Concrete runs of the token manager *)

Definition sample_tokens : Tokens :=
  mkTokens (Some "old-access") (Some "refresh-1") None (Some (Finite 1000000)) None.

Definition sample_state : State :=
  mkState (Some sample_tokens) None (Stored sample_tokens) [] [] [] [].

Lemma sample_state_reachable : reachable sample_state.
Proof. exists (Stored sample_tokens), [LoadTokenCache]. reflexivity. Qed.

Definition sample_calls : list (nat * Z) := [(1%nat, 900000); (2%nat, 900001); (3%nat, 900002)].

Lemma needsRefresh_classification_witness :
  needsRefresh 900000 sample_state = true.
Proof.
  apply (needsRefresh_classification 900000 sample_state); [lia|].
  right. exists sample_tokens. split; [reflexivity|]. simpl. lia.
Defined.

(** A token endpoint answer without a new refresh token. *)
Definition sample_renewal : ResponseBody :=
  mkBody (Some "new-access") None (Some (Finite 3600)) None None.

Lemma renewal_merges_or_discards_witness :
  exists t',
    cachedTokens (on_end 0 200 (ParsedObject sample_renewal) 900000 true sample_state)
    = Some t' /\
    access_token t' = Some "new-access"%string /\
    expires_at t' = Some (Finite (900000 + 3600 * 1000)) /\
    refresh_token t' = Some "refresh-1"%string /\
    tokenFile (on_end 0 200 (ParsedObject sample_renewal) 900000 true sample_state)
    = Stored t'.
Proof.
  destruct (renewal_merges_or_discards 0 200 (ParsedObject sample_renewal) 900000 true
              sample_state sample_tokens eq_refl)
    as (Hok & _).
  destruct (Hok sample_renewal eq_refl eq_refl) as (t' & Hc & Ha & He & Hr & _ & Hf).
  exists t'. split; [exact Hc|]. split; [exact Ha|].
  split; [exact (He 3600 eq_refl)|]. split; [exact Hr|]. exact (Hf eq_refl).
Defined.

(** The token endpoint refuses the refresh token. *)
Definition refused : Parsed :=
  ParsedObject (mkBody None None None None (Some "AADSTS70000: invalid_grant")).

(** An attempt that has failed: call 9 asked for the token at 899000,
    request 0 was sent and answered with status 400. *)
Definition after_refusal : list Event :=
  [Call 9 899000; ResponseEnd 0 400 refused 899500 true].

Definition sample_after_refusal : State :=
  mkState (Some sample_tokens) None (Stored sample_tokens)
          [mkRequest 0 (Some "refresh-1")] [] [] [(9%nat, Normal None)].

Lemma single_flight_refresh_witness :
  exists p st1,
    run (map (fun cn => Call cn.1 cn.2) sample_calls) sample_after_refusal = Some st1 /\
    requests st1 = [mkRequest 0 (Some "refresh-1"); mkRequest p (Some "refresh-1")] /\
    refreshPromise st1 = Some p.
Proof.
  destruct (single_flight_refresh (Stored sample_tokens) after_refusal sample_after_refusal)
    as (_ & _ & H).
  - unfold delivered_once. simpl. apply NoDup_singleton.
  - reflexivity.
  - destruct (H sample_tokens sample_calls)
      as (p & st1 & Hrun & Hreq & _ & _ & Hslot & _).
    + reflexivity.
    + reflexivity.
    + reflexivity.
    + discriminate.
    + intros c now Hin. unfold sample_calls in Hin.
      repeat (apply elem_of_cons in Hin as [[= -> ->]|Hin]; [reflexivity|]).
      by apply elem_of_nil in Hin.
    + exists p, st1. split; [exact Hrun|]. split; [|exact Hslot].
      exact (Hreq eq_refl).
Defined.

(** The error event of request 0 arrives after the end of its
    response, when call 2 has started the next attempt. *)
Definition late_error : list Event :=
  [Call 1 900000; ResponseEnd 0 400 refused 900100 true;
   Call 2 900200; RequestError 0; Call 3 900300].

Definition two_in_flight : State :=
  mkState (Some sample_tokens) (Some 2%nat) (Stored sample_tokens)
          [mkRequest 0 (Some "refresh-1"); mkRequest 1 (Some "refresh-1");
           mkRequest 2 (Some "refresh-1")]
          [2%nat; 1%nat] [(2%nat, 1%nat); (3%nat, 2%nat)] [(1%nat, Normal None)].

(** The events after which calls 2 and 3 have settled: request 1 is
    answered with a new access token, request 2 fails. *)
Definition late_error_settled : list Event :=
  late_error ++ [ResponseEnd 1 200 (ParsedObject sample_renewal) 900400 true;
                 RequestError 2].

(** C1. Calls 2 and 3 both arrive while the record needs refresh and
    holds a refresh token, and call 2 is still waiting when call 3
    arrives.  The error event of request 0, delivered after the end of
    its response, has emptied the slot in between (neither handler
    looks at which attempt it belongs to), so call 3 creates a request
    of its own: two renewal requests await their outcome, the two
    calls wait on different promises, and they are handed different
    values.  The events are outside [delivered_once], under which the
    module stays in single flight. *)
Lemma late_outcome_breaks_single_flight :
  run late_error (init (Stored sample_tokens)) = Some two_in_flight /\
  needsRefresh 900200 two_in_flight = true /\
  needsRefresh 900300 two_in_flight = true /\
  pending two_in_flight = [2%nat; 1%nat] /\
  waiters two_in_flight = [(2%nat, 1%nat); (3%nat, 2%nat)] /\
  (completed <$> run late_error_settled (init (Stored sample_tokens)))
  = Some [(1%nat, Normal None); (2%nat, Normal (Some "new-access"%string));
          (3%nat, Normal None)] /\
  ~ delivered_once late_error /\
  ~ single_flight two_in_flight.
Proof.
  split_and!; try reflexivity.
  - unfold delivered_once. simpl. intros H. apply NoDup_cons in H as [H _].
    apply H. left.
  - intros [H _]. discriminate H.
Qed.




(** ** Properties of the date runtime *)

Example toISOString_epoch :
  JsDate.toISOString (Some 0) = Normal "1970-01-01T00:00:00.000Z"%string.
Proof. reflexivity. Qed.

Example toISOString_2024_leap_day :
  JsDate.toISOString (Some 1709210096789) = Normal "2024-02-29T12:34:56.789Z"%string.
Proof. reflexivity. Qed.

Example toISOString_before_epoch :
  JsDate.toISOString (Some (-1)) = Normal "1969-12-31T23:59:59.999Z"%string.
Proof. reflexivity. Qed.

Example setMonth_overflows_into_next_month :
  JsDate.toISOString (JsDate.setMonth (JsDate.fixedOffset 0) (Some 1711886400000) 1)
  = Normal "2024-03-02T12:00:00.000Z"%string.
Proof. reflexivity. Qed.

(** [YearFromDay] is the year the runtime's [YearFromTime] is defined
    to be: the one whose days include day [d]. *)
Lemma YearFromDay_spec (d : Z) :
  JsDate.DayFromYear (JsDate.YearFromDay d) <= d
  < JsDate.DayFromYear (JsDate.YearFromDay d + 1).
Proof.
  unfold JsDate.YearFromDay.
  set (y := 1970 + d * 400 / 146097).
  assert (y = 1970 + d * 400 / 146097) as Hy by done. clearbody y.
  destruct (Z.ltb_spec d (JsDate.DayFromYear y)) as [Hlt|Hge].
  - unfold JsDate.DayFromYear in *. Z.to_euclidean_division_equations. lia.
  - destruct (Z.leb_spec (JsDate.DayFromYear (y + 1)) d) as [Hle|Hgt].
    + unfold JsDate.DayFromYear in *. Z.to_euclidean_division_equations. lia.
    + lia.
Qed.

(** ** Properties of the progressive search *)

Section SearchFacts.

(** The strategies in the order the function visits them. *)
Definition strategyOrder : list Strategy :=
  [Combined] ++ map SingleTerm searchPriority ++ [FiltersOnly] ++ [BasicListing].

(** A strategy's required inputs are present. *)
Definition ready (searchTerms : SearchTerms) (filterTerms : FilterTerms)
           (s : Strategy) : bool :=
  match s with
  | Combined => true
  | SingleTerm t => negb (String.eqb (getTerm searchTerms t) "")
  | FiltersOnly => hasFilters filterTerms
  | BasicListing => true
  end.

Definition plan (searchTerms : SearchTerms) (filterTerms : FilterTerms)
  : list Strategy :=
  List.filter (ready searchTerms filterTerms) strategyOrder.

(** The stopping rule the specification states: an attempt ends the
    cascade when its result holds an item; the basic listing is last. *)
Definition stopsAsSpecified (s : Strategy) (a : Completion ApiResponse) : bool :=
  match s, a with
  | BasicListing, _ => true
  | _, Normal resp => hasItems resp
  | _, Throw _ => false
  end.

(** The stopping rule of the code: as above, except that the
    filters-only attempt ends the cascade whenever its call returns. *)
Definition stopsAt (s : Strategy) (a : Completion ApiResponse) : bool :=
  match s, a with
  | BasicListing, _ => true
  | FiltersOnly, Normal _ => true
  | _, Normal resp => hasItems resp
  | _, Throw _ => false
  end.

(** A cascade over the plan under a stopping rule: the attempts made
    are the plan up to the first attempt that stops, and that attempt
    decides the outcome; only the basic listing's error is raised. *)
Definition cascade (stop : Strategy -> Completion ApiResponse -> bool)
           (env : Env) (searchTerms : SearchTerms) (filterTerms : FilterTerms)
           (maxCount : Z) (sortOrder : string) (skip : Z) : Prop :=
  let out := progressiveSearch env searchTerms filterTerms maxCount sortOrder skip in
  exists init s a rest,
    attempts out.2 = init ++ [(s, a)] /\
    plan searchTerms filterTerms = map fst init ++ s :: rest /\
    (forall s' a', (s', a') ∈ init -> stop s' a' = false) /\
    stop s a = true /\
    match out.1, a with
    | Normal resp, Normal x => value resp = api_value x
    | Throw m, Throw m' => s = BasicListing /\ m = m'
    | _, _ => False
    end.

Variable env : Env.
Variable searchTerms : SearchTerms.
Variable filterTerms : FilterTerms.
Variable maxCount : Z.
Variable orderBy : string.
Variable skip : Z.

Local Abbreviation readyb := (ready searchTerms filterTerms).

(** What a part of the function that visits the strategies [seg] does
    to the run: it falls through after an attempt of each ready one,
    none of which stops, or it returns at the first that stops. *)
Definition SegSpec (seg : list Strategy) (r : Run) (out : Flow * Run) : Prop :=
  exists l, attempts out.2 = attempts r ++ l /\
    match out.1 with
    | Next =>
        map fst l = List.filter readyb seg /\
        (forall s a, (s, a) ∈ l -> stopsAt s a = false)
    | Return resp =>
        exists init s x rest,
          l = init ++ [(s, Normal x)] /\
          List.filter readyb seg = map fst init ++ s :: rest /\
          (forall s' a', (s', a') ∈ init -> stopsAt s' a' = false) /\
          stopsAt s (Normal x) = true /\
          resp = mkResponse (api_value x) None
    end.

Lemma SegSpec_seq seg1 seg2 r out1 out2 :
  SegSpec seg1 r out1 ->
  (out1.1 = Next -> SegSpec seg2 out1.2 out2) ->
  SegSpec (seg1 ++ seg2) r
          (match out1.1 with
           | Return _ => out1
           | Next => out2
           end).
Proof.
  intros (l1 & H1 & Hf1) H2. unfold SegSpec. rewrite List.filter_app.
  destruct out1 as [[resp|] r1]; simpl in *.
  - destruct Hf1 as (init & s & x & rest & -> & Hp & Hi & Hs & ->).
    exists (init ++ [(s, Normal x)]). split; [done|].
    exists init, s, x, (rest ++ List.filter readyb seg2).
    split_and!; try done. rewrite Hp. by rewrite <- app_assoc.
  - destruct Hf1 as [Hm1 Hn1].
    destruct (H2 eq_refl) as (l2 & H3 & Hf2).
    exists (l1 ++ l2). split; [by rewrite H3, H1, app_assoc|].
    destruct out2 as [[resp|] r2]; simpl in *.
    + destruct Hf2 as (init & s & x & rest & -> & Hp & Hi & Hs & ->).
      exists (l1 ++ init), s, x, rest.
      split_and!; try done.
      * by rewrite app_assoc.
      * rewrite map_app, <- Hm1, Hp. by rewrite <- app_assoc.
      * intros s' a' [H|H]%elem_of_app; [by apply Hn1|by apply Hi].
    + destruct Hf2 as [Hm2 Hn2]. split.
      * by rewrite map_app, Hm1, Hm2.
      * intros s a [H|H]%elem_of_app; [by apply Hn1|by apply Hn2].
Qed.

(** An attempt of one ready strategy [s] that came to [a]. *)
Lemma SegSpec_attempt s a r r' :
  readyb s = true -> s <> BasicListing ->
  attempts r' = attempts r ++ [(s, a)] ->
  SegSpec [s] r (match a with
                 | Normal x =>
                     if stopsAt s a then Return (mkResponse (api_value x) None) else Next
                 | Throw _ => Next
                 end, r').
Proof.
  intros Hr Hs Ha. exists [(s, a)]. split; [done|]. simpl. rewrite Hr.
  destruct a as [x|m].
  - destruct (stopsAt s (Normal x)) eqn:Hstop; simpl.
    + exists [], s, x, []. split_and!; try done.
      intros s' a' H. by apply elem_of_nil in H.
    + split; [done|]. intros s' a' H.
      by apply list_elem_of_singleton in H as [= -> ->].
  - simpl. split; [done|]. intros s' a' H.
    apply list_elem_of_singleton in H as [= -> ->]. by destruct s.
Qed.

Lemma SegSpec_skip s r :
  readyb s = false -> SegSpec [s] r (Next, r).
Proof.
  intros Hr. exists []. split; [by rewrite app_nil_r|]. simpl. rewrite Hr.
  split; [done|]. intros s' a' H. by apply elem_of_nil in H.
Qed.

Lemma combinedSearch_spec r :
  SegSpec [Combined] r
          (combinedSearch env searchTerms filterTerms maxCount orderBy skip r).
Proof.
  unfold combinedSearch, call.
  destruct (buildSearchParams _ _ _ _ _ _ _) as [params|m]; simpl.
  - destruct (callGraphAPIPaginated env (length (calls r)) params maxCount)
      as [x|m] eqn:Ha.
    + destruct (hasItems x) eqn:Hi.
      * pose proof (SegSpec_attempt Combined (Normal x) r) as H. simpl in H.
        rewrite Hi in H. by apply H.
      * pose proof (SegSpec_attempt Combined (Normal x) r) as H. simpl in H.
        rewrite Hi in H. by apply H.
    + by apply (SegSpec_attempt Combined (Throw m)).
  - by apply (SegSpec_attempt Combined (Throw m)).
Qed.

Lemma singleTermSearch_spec term r :
  SegSpec [SingleTerm term] r
          (singleTermSearch env searchTerms filterTerms maxCount orderBy skip term r).
Proof.
  unfold singleTermSearch, call.
  destruct (String.eqb (getTerm searchTerms term) "") eqn:Ht.
  - apply SegSpec_skip. simpl. by rewrite Ht.
  - assert (readyb (SingleTerm term) = true) as Hr by (simpl; by rewrite Ht).
    destruct (addFilters _ _ _ _) as [params|m]; simpl.
    + destruct (callGraphAPIPaginated env (length (calls r)) params maxCount)
        as [x|m] eqn:Ha.
      * destruct (hasItems x) eqn:Hi.
        -- pose proof (SegSpec_attempt (SingleTerm term) (Normal x) r) as H. simpl in H.
           rewrite Hi in H. by apply H.
        -- pose proof (SegSpec_attempt (SingleTerm term) (Normal x) r) as H. simpl in H.
           rewrite Hi in H. by apply H.
      * by apply (SegSpec_attempt (SingleTerm term) (Throw m)).
    + by apply (SegSpec_attempt (SingleTerm term) (Throw m)).
Qed.

Lemma singleTermLoop_spec terms : forall r,
  SegSpec (map SingleTerm terms) r
          (singleTermLoop env searchTerms filterTerms maxCount orderBy skip terms r).
Proof.
  induction terms as [|term terms IH]; intros r; simpl.
  - exists []. split; [by rewrite app_nil_r|]. simpl. split; [done|].
    intros s a H. by apply elem_of_nil in H.
  - pose proof (singleTermSearch_spec term r) as H1.
    pose proof (SegSpec_seq [SingleTerm term] (map SingleTerm terms) r _
                  (singleTermLoop env searchTerms filterTerms maxCount orderBy skip terms
                     (singleTermSearch env searchTerms filterTerms maxCount orderBy skip
                        term r).2)
                  H1 (fun _ => IH _)) as H2.
    simpl in H2.
    by destruct (singleTermSearch env searchTerms filterTerms maxCount orderBy skip term r)
      as [[resp|] r1].
Qed.

Lemma filtersOnlySearch_spec r :
  SegSpec [FiltersOnly] r
          (filtersOnlySearch env filterTerms maxCount orderBy skip r).
Proof.
  unfold filtersOnlySearch, call.
  destruct (hasFilters filterTerms) eqn:Hf; [|by apply SegSpec_skip].
  destruct (addFilters _ _ _ _) as [params|m]; simpl.
  - destruct (callGraphAPIPaginated env (length (calls r)) params maxCount)
      as [x|m] eqn:Ha.
    + by apply (SegSpec_attempt FiltersOnly (Normal x)).
    + by apply (SegSpec_attempt FiltersOnly (Throw m)).
  - by apply (SegSpec_attempt FiltersOnly (Throw m)).
Qed.

End SearchFacts.

(** *** Concrete searches *)

Definition invoice_mail : Email := mkEmail "AAMk-1" "Invoice 2024-17".

Definition no_items : ApiResponse := mkApiResponse (Some []).

(** A service scripted by call number: the [n]-th call of a search gets
    the [n]-th answer, any later call an empty page. *)
Definition scripted (answers : list (Completion ApiResponse)) : Env :=
  mkEnv (JsDate.fixedOffset 0) (fun _ => 1709210096789) (fun _ => None)
        "id,subject,receivedDateTime"
        (fun n _ _ => default (Normal no_items) (answers !! n)).

Definition only_subject : SearchTerms := mkSearchTerms "" "" "" "invoice".
Definition no_terms : SearchTerms := mkSearchTerms "" "" "" "".
Definition no_filters : FilterTerms := mkFilterTerms None None None None.
Definition unread_only : FilterTerms := mkFilterTerms None (Some true) None None.

(** The combined search finds nothing, the subject search one mail. *)
Definition subject_after_combined : Env :=
  scripted [Normal no_items; Normal (mkApiResponse (Some [invoice_mail]))].

(** Nothing is unread: every call but the basic listing comes back empty. *)
Definition nothing_unread : Env :=
  scripted [Normal no_items; Normal no_items;
            Normal (mkApiResponse (Some [invoice_mail]))].

(** The same service, except that the filters-only call fails. *)
Definition filters_call_fails : Env :=
  scripted [Normal no_items; Throw "503 Service Unavailable";
            Normal (mkApiResponse (Some [invoice_mail]))].

(** The environment with another remote service. *)
Definition with_remote (api : nat -> Params -> Z -> Completion ApiResponse)
           (env : Env) : Env :=
  mkEnv (timeZone env) (clock env) (dateParse env) (EMAIL_SELECT_FIELDS env) api.

(** Two outcomes of a step that the rest of the function cannot tell
    apart: same control flow, same [searchAttempts], same calls. *)
Definition same_step (o o' : Flow * Run) : Prop :=
  o.1 = o'.1 /\ searchAttempts o.2 = searchAttempts o'.2 /\ calls o.2 = calls o'.2.

(** The function is its first three parts, then the basic listing. *)
Lemma progressiveSearch_decomposed env st ft maxCount sortOrder skip :
  exists o : Flow * Run,
    SegSpec st ft (([Combined] ++ map SingleTerm searchPriority) ++ [FiltersOnly])
            (mkRun [] [] []) o /\
    progressiveSearch env st ft maxCount sortOrder skip
    = match o with
      | (Return resp, r) => (Normal resp, r)
      | (Next, r) =>
          basicListing env st ft maxCount ("receivedDateTime " +:+ sortOrder) skip r
      end.
Proof.
  unfold progressiveSearch.
  set (orderBy := "receivedDateTime " +:+ sortOrder).
  set (r0 := mkRun [] [] []).
  pose proof (combinedSearch_spec env st ft maxCount orderBy skip r0) as H1.
  set (o1 := combinedSearch env st ft maxCount orderBy skip r0) in *.
  pose proof (singleTermLoop_spec env st ft maxCount orderBy skip searchPriority o1.2) as H2.
  set (o2 := singleTermLoop env st ft maxCount orderBy skip searchPriority o1.2) in *.
  pose proof (SegSpec_seq st ft _ _ r0 o1 o2 H1 (fun _ => H2)) as H12.
  set (o12 := match o1.1 with Return _ => o1 | Next => o2 end) in *.
  pose proof (filtersOnlySearch_spec env st ft maxCount orderBy skip o12.2) as H3.
  set (o3 := filtersOnlySearch env ft maxCount orderBy skip o12.2) in *.
  pose proof (SegSpec_seq st ft _ _ r0 o12 o3 H12 (fun _ => H3)) as H123.
  set (o123 := match o12.1 with Return _ => o12 | Next => o3 end) in *.
  exists o123. split; [exact H123|].
  subst o123 o12 o3 o2. destruct o1 as [[resp1|] r1]; cbn [fst snd]; [done|].
  destruct (singleTermLoop env st ft maxCount orderBy skip searchPriority r1)
    as [[resp2|] r2]; cbn [fst snd]; [done|].
  by destruct (filtersOnlySearch env ft maxCount orderBy skip r2) as [[resp3|] r3].
Qed.

Lemma plan_split st ft :
  plan st ft
  = List.filter (ready st ft)
      (([Combined] ++ map SingleTerm searchPriority) ++ [FiltersOnly])
    ++ [BasicListing].
Proof.
  unfold plan, strategyOrder. rewrite !List.filter_app. simpl.
  by rewrite <- !app_assoc.
Qed.

Lemma cascade_of_progressiveSearch :
  forall (env : Env) (searchTerms : SearchTerms) (filterTerms : FilterTerms)
         (maxCount : Z) (sortOrder : string) (skip : Z),
    cascade stopsAt env searchTerms filterTerms maxCount sortOrder skip.
Proof.
  intros env st ft maxCount sortOrder skip. unfold cascade.
  destruct (progressiveSearch_decomposed env st ft maxCount sortOrder skip)
    as (o & (l & Hl & Hf) & ->).
  rewrite plan_split. destruct o as [[resp|] r]; cbn [fst snd] in *.
  - destruct Hf as (init & s & x & rest & -> & Hp & Hi & Hs & ->).
    exists init, s, (Normal x), (rest ++ [BasicListing]).
    split_and!; try done. rewrite Hp. by rewrite <- app_assoc.
  - destruct Hf as [Hm Hn]. rewrite <- Hm.
    unfold basicListing, call. cbv beta iota zeta.
    destruct (callGraphAPIPaginated env
                (length (calls (push (strategyName BasicListing) r)))
                (baseParams env (Z.min 50 maxCount) ("receivedDateTime " +:+ sortOrder)
                            skip) maxCount)
      as [x|m] eqn:Ha; simpl; rewrite Hl; simpl.
    + by exists l, BasicListing, (Normal x), [].
    + by exists l, BasicListing, (Throw m), [].
Qed.

(** Where [_searchInfo] comes from: a response returned by the first
    three parts has none; the basic listing attaches the names pushed
    so far, its own being the last. *)
Lemma searchInfo_only_from_basic_listing env st ft maxCount sortOrder skip resp :
  (progressiveSearch env st ft maxCount sortOrder skip).1 = Normal resp ->
  match _searchInfo resp with
  | None =>
      exists s x,
        last (attempts (progressiveSearch env st ft maxCount sortOrder skip).2)
        = Some (s, Normal x) /\ s <> BasicListing
  | Some info =>
      strategies info
      = searchAttempts (progressiveSearch env st ft maxCount sortOrder skip).2 /\
      last (strategies info) = Some (strategyName BasicListing) /\
      exists x,
        last (attempts (progressiveSearch env st ft maxCount sortOrder skip).2)
        = Some (BasicListing, Normal x)
  end.
Proof.
  destruct (progressiveSearch_decomposed env st ft maxCount sortOrder skip)
    as (o & (l & Hl & Hf) & ->).
  destruct o as [[resp'|] r]; cbn [fst snd] in *.
  - intros [= <-].
    destruct Hf as (init & s & x & rest & -> & Hp & Hi & Hs & ->). simpl.
    exists s, x. split; [by rewrite Hl, app_assoc, last_snoc|].
    intros ->.
    assert (BasicListing ∈ List.filter (ready st ft)
              (([Combined] ++ map SingleTerm searchPriority) ++ [FiltersOnly])) as Hin.
    { rewrite Hp. apply elem_of_app. right. left. }
    apply list_elem_of_In, List.filter_In in Hin as [Hin _]. simpl in Hin.
    by repeat destruct Hin as [Hin|Hin].
  - unfold basicListing, call. cbv beta iota zeta.
    destruct (callGraphAPIPaginated env
                (length (calls (push (strategyName BasicListing) r)))
                (baseParams env (Z.min 50 maxCount) ("receivedDateTime " +:+ sortOrder)
                            skip) maxCount)
      as [x|m] eqn:Ha; simpl; [|done].
    intros [= <-]. simpl. split_and!; [done|by rewrite last_snoc|].
    exists x. by rewrite last_snoc.
Qed.

(** C2. [progressiveSearch] visits the strategies in the order combined,
    single-term subject, from, to, query, filters-only, basic-listing,
    attempting exactly the ready ones up to the attempt that ends the
    cascade: a combined or single-term attempt ends it when its result
    holds an item, the filters-only attempt whenever its call returns,
    the basic listing always.  That attempt decides the outcome. *)
Theorem progressiveSearch_cascade :
  forall (env : Env) (searchTerms : SearchTerms) (filterTerms : FilterTerms)
         (maxCount : Z) (sortOrder : string) (skip : Z),
    cascade stopsAt env searchTerms filterTerms maxCount sortOrder skip /\
    strategyOrder = [Combined; SingleTerm Subject; SingleTerm From; SingleTerm To;
                     SingleTerm Query; FiltersOnly; BasicListing] /\
    (forall s, s ∈ plan searchTerms filterTerms ->
               ready searchTerms filterTerms s = true).
Proof.
  intros env st ft maxCount sortOrder skip. split_and!.
  - apply cascade_of_progressiveSearch.
  - reflexivity.
  - intros s Hs. unfold plan in Hs. apply list_elem_of_In, List.filter_In in Hs.
    tauto.
Qed.

(** The specified stopping rule fails where the filters-only call
    returns no item: the function returns that empty result and never
    lists the folder, although the listing would have found a mail. *)
Lemma filters_only_ends_cascade_without_items :
  progressiveSearch nothing_unread no_terms unread_only 10 "desc" 0
  = (Normal (mkResponse (Some []) None),
     mkRun ["combined-search"; "filters-only"]%string
           [(mkParams 10 "id,subject,receivedDateTime" "receivedDateTime desc"
                      None None (Some "isRead eq false"%string), 10);
            (mkParams 10 "id,subject,receivedDateTime" "receivedDateTime desc"
                      None None (Some "isRead eq false"%string), 10)]
           [(Combined, Normal no_items); (FiltersOnly, Normal no_items)]) /\
  plan no_terms unread_only = [Combined; FiltersOnly; BasicListing] /\
  ~ cascade stopsAsSpecified nothing_unread no_terms unread_only 10 "desc" 0.
Proof.
  split_and!; [reflexivity|reflexivity|].
  intros (init & s & a & rest & Ha & _ & _ & Hs & _).
  change (attempts (progressiveSearch nothing_unread no_terms unread_only 10 "desc" 0).2)
    with ([(Combined, Normal no_items)] ++ [(FiltersOnly, Normal no_items)]) in Ha.
  apply app_inj_tail in Ha as [_ [= <- <-]]. done.
Qed.

(** Where no filter is involved the specified rule does describe the
    function: the subject search ends the cascade with its mail. *)
Example cascade_as_specified_on_subject_search :
  cascade stopsAsSpecified subject_after_combined only_subject no_filters 10 "desc" 0.
Proof.
  exists [(Combined, Normal no_items)], (SingleTerm Subject),
         (Normal (mkApiResponse (Some [invoice_mail]))), [BasicListing].
  split_and!; try reflexivity.
  intros s' a' H. by apply list_elem_of_singleton in H as [= -> ->].
Qed.

(** C3. The result of [progressiveSearch] carries the strategy names only
    when the basic listing ended the cascade, and then the last name,
    which is the one the formatter prints, is the basic listing's.  When
    the combined search finds nothing and the subject search finds a
    mail, the function returns the subject search's response as it
    came: the names it collected are not attached, and the formatter
    adds no strategy line. *)
Theorem strategy_lost_on_early_return :
  (forall env searchTerms filterTerms maxCount sortOrder skip resp info,
     (progressiveSearch env searchTerms filterTerms maxCount sortOrder skip).1
     = Normal resp ->
     _searchInfo resp = Some info ->
     last (strategies info) = Some "basic-listing"%string /\
     exists x,
       last (attempts (progressiveSearch env searchTerms filterTerms maxCount
                                         sortOrder skip).2)
       = Some (BasicListing, Normal x)) /\
  (progressiveSearch subject_after_combined only_subject no_filters 10 "desc" 0).1
  = Normal (mkResponse (Some [invoice_mail]) None) /\
  searchAttempts
    (progressiveSearch subject_after_combined only_subject no_filters 10 "desc" 0).2
  = ["combined-search"; "single-term-subject"]%string /\
  attempts
    (progressiveSearch subject_after_combined only_subject no_filters 10 "desc" 0).2
  = [(Combined, Normal no_items);
     (SingleTerm Subject, Normal (mkApiResponse (Some [invoice_mail])))] /\
  additionalInfo (mkResponse (Some [invoice_mail]) None) = ""%string /\
  (forall render,
     formatSearchResults render (mkResponse (Some [invoice_mail]) None) "desc" 0
     = "Found 1 emails (newest first):" +:+ newline +:+ newline
       +:+ render 1 invoice_mail).
Proof.
  split_and!; try reflexivity.
  intros env st ft maxCount sortOrder skip resp info Hr Hi.
  pose proof (searchInfo_only_from_basic_listing env st ft maxCount sortOrder skip
                resp Hr) as H.
  rewrite Hi in H. destruct H as (_ & Hl & Hx). done.
Qed.

Lemma cascade_last_attempt env st ft maxCount sortOrder skip :
  let out := progressiveSearch env st ft maxCount sortOrder skip in
  exists init s a rest,
    attempts out.2 = init ++ [(s, a)] /\
    plan st ft = map fst (attempts out.2) ++ rest /\
    (forall s' a', (s', a') ∈ init -> stopsAt s' a' = false) /\
    (forall m, out.1 = Throw m <-> (s, a) = (BasicListing, Throw m)).
Proof.
  destruct (cascade_of_progressiveSearch env st ft maxCount sortOrder skip)
    as (init & s & a & rest & Ha & Hp & Hi & Hs & Hr).
  exists init, s, a, rest. split_and!; try done.
  - rewrite Ha, map_app, Hp. by rewrite <- app_assoc.
  - intros m.
    destruct (progressiveSearch env st ft maxCount sortOrder skip).1 as [resp|m'];
      destruct a as [x|m'']; try done.
    destruct Hr as [-> ->]. split; [by intros [= ->]|by intros [= ->]].
Qed.

Lemma buildSearchParams_with_remote api' env now st ft count orderBy skip :
  buildSearchParams (with_remote api' env) now st ft count orderBy skip
  = buildSearchParams env now st ft count orderBy skip.
Proof. reflexivity. Qed.

Lemma addFilters_with_remote api' env now params ft :
  addFilters (with_remote api' env) now params ft = addFilters env now params ft.
Proof. reflexivity. Qed.

(** C5. An error raised by an attempt other than the basic listing is
    caught and the next ready strategy is attempted; the function raises
    exactly when the basic listing's call raises.  For the combined and
    the single-term attempts a call that raises leaves the function
    where a call that finds nothing leaves it. *)
Theorem search_errors_absorbed :
  forall (env : Env) (searchTerms : SearchTerms) (filterTerms : FilterTerms)
         (maxCount : Z) (sortOrder : string) (skip : Z),
    let out := progressiveSearch env searchTerms filterTerms maxCount sortOrder skip in
    (forall i s m,
       attempts out.2 !! i = Some (s, Throw m) -> s <> BasicListing ->
       exists s' a', attempts out.2 !! S i = Some (s', a') /\
                     plan searchTerms filterTerms !! S i = Some s') /\
    (forall m, out.1 = Throw m <->
               last (attempts out.2) = Some (BasicListing, Throw m)) /\
    (forall api' orderBy r,
       (forall p k, exists m,
           callGraphAPIPaginated env (length (calls r)) p k = Throw m) ->
       (forall p k, exists x,
           api' (length (calls r)) p k = Normal x /\ hasItems x = false) ->
       same_step (combinedSearch env searchTerms filterTerms maxCount orderBy skip r)
                 (combinedSearch (with_remote api' env) searchTerms filterTerms
                                 maxCount orderBy skip r) /\
       forall term,
         same_step (singleTermSearch env searchTerms filterTerms maxCount orderBy skip
                                     term r)
                   (singleTermSearch (with_remote api' env) searchTerms filterTerms
                                     maxCount orderBy skip term r)).
Proof.
  intros env st ft maxCount sortOrder skip out.
  destruct (cascade_last_attempt env st ft maxCount sortOrder skip)
    as (init & s0 & a0 & rest & Ha & Hp & Hi & Hr).
  fold out in Ha, Hp, Hr. split_and!.
  - intros i s m Hi' Hs.
    assert (i < length init)%nat as Hlt.
    { rewrite Ha in Hi'. destruct (decide (i < length init)%nat) as [|Hge]; [done|].
      exfalso. rewrite lookup_app_r in Hi' by lia.
      destruct (i - length init)%nat; simpl in Hi'; [|done].
      injection Hi' as -> ->.
      assert (forall m', stopsAt s (Throw m') = false) as Hf by (by destruct s).
      destruct (cascade_of_progressiveSearch env st ft maxCount sortOrder skip)
        as (init' & s' & a' & rest' & Ha' & _ & _ & Hs' & _).
      fold out in Ha'. rewrite Ha in Ha'.
      apply app_inj_tail in Ha' as [_ [= <- <-]]. by rewrite Hf in Hs'. }
    assert (S i < length (attempts out.2))%nat as Hlt'.
    { rewrite Ha, length_app. simpl. lia. }
    destruct (lookup_lt_is_Some_2 _ _ Hlt') as [[s' a'] Hsa].
    exists s', a'. split; [done|].
    rewrite Hp, lookup_app_l by (by rewrite length_map).
    by rewrite list_lookup_fmap, Hsa.
  - intros m. rewrite Hr, Ha, last_snoc. split; [by intros ->|by intros [= -> ->]].
  - intros api' orderBy r Hthrow Hempty. split.
    + unfold combinedSearch, call. rewrite buildSearchParams_with_remote.
      destruct (buildSearchParams _ _ _ _ _ _ _) as [params|m]; [|done]. simpl.
      destruct (Hthrow params maxCount) as [m ->].
      destruct (Hempty params maxCount) as (x & -> & ->). done.
    + intros term. unfold singleTermSearch, call.
      destruct (String.eqb _ _); [done|]. rewrite addFilters_with_remote.
      destruct (addFilters _ _ _ _) as [params|m]; [|done]. simpl.
      destruct (Hthrow params maxCount) as [m ->].
      destruct (Hempty params maxCount) as (x & -> & ->). done.
Qed.

(** The run after the combined search of the unread-only example. *)
Definition after_combined : Run :=
  mkRun ["combined-search"%string]
        [(mkParams 10 "id,subject,receivedDateTime" "receivedDateTime desc"
                   None None (Some "isRead eq false"%string), 10)]
        [(Combined, Normal no_items)].

(** For the filters-only attempt an error is not the same as an empty
    result: the call that raises sends the function on to the basic
    listing, the call that finds nothing makes it return. *)
Lemma filters_only_error_is_not_an_empty_result :
  (combinedSearch nothing_unread no_terms unread_only 10 "receivedDateTime desc" 0
                  (mkRun [] [] [])).2 = after_combined /\
  (filtersOnlySearch filters_call_fails unread_only 10 "receivedDateTime desc" 0
                     after_combined).1 = Next /\
  (filtersOnlySearch nothing_unread unread_only 10 "receivedDateTime desc" 0
                     after_combined).1 = Return (mkResponse (Some []) None) /\
  ~ same_step
      (filtersOnlySearch filters_call_fails unread_only 10 "receivedDateTime desc" 0
                         after_combined)
      (filtersOnlySearch nothing_unread unread_only 10 "receivedDateTime desc" 0
                         after_combined) /\
  (exists info,
     (progressiveSearch filters_call_fails no_terms unread_only 10 "desc" 0).1
     = Normal (mkResponse (Some [invoice_mail]) (Some info))) /\
  (progressiveSearch nothing_unread no_terms unread_only 10 "desc" 0).1
  = Normal (mkResponse (Some []) None).
Proof.
  split_and!; try reflexivity.
  - intros [H _]. discriminate H.
  - eexists. reflexivity.
Qed.

(** *** The requests handed to the paginated fetch *)

Section CallSites.

Variable env : Env.
Variable searchTerms : SearchTerms.
Variable filterTerms : FilterTerms.
Variable maxCount : Z.
Variable orderBy : string.
Variable skip : Z.

(** A call asks for pages of [min(50, maxCount)] and carries
    [maxCount] as its budget. *)
Definition sized (c : Params * Z) : Prop :=
  p_top c.1 = Z.min 50 maxCount /\ c.2 = maxCount.

Lemma addFilters_top now params params' :
  addFilters env now params filterTerms = Normal params' ->
  p_top params' = p_top params.
Proof.
  unfold addFilters. destruct (filterConditions env now filterTerms) as [conds|m];
    simpl; [|done].
  intros [= <-]. by destruct conds.
Qed.

Lemma buildSearchParams_top now count params :
  buildSearchParams env now searchTerms filterTerms count orderBy skip = Normal params ->
  p_top params = count.
Proof.
  unfold buildSearchParams. intros H. apply addFilters_top in H. rewrite H.
  by destruct (_ ++ _).
Qed.

Lemma sized_snoc (cs : list (Params * Z)) params :
  Forall sized cs -> p_top params = Z.min 50 maxCount ->
  Forall sized (cs ++ [(params, maxCount)]).
Proof.
  intros Hcs Hp. apply Forall_app. split; [done|]. by apply Forall_singleton.
Qed.

Lemma combinedSearch_calls r :
  Forall sized (calls r) ->
  Forall sized (calls (combinedSearch env searchTerms filterTerms maxCount orderBy
                                      skip r).2).
Proof.
  intros Hr. unfold combinedSearch, call.
  destruct (buildSearchParams _ _ _ _ _ _ _) as [params|m] eqn:Hb; [|done].
  apply buildSearchParams_top in Hb. simpl.
  destruct (callGraphAPIPaginated env (length (calls r)) params maxCount) as [x|m];
    [destruct (hasItems x)|]; simpl; by apply sized_snoc.
Qed.

Lemma singleTermSearch_calls term r :
  Forall sized (calls r) ->
  Forall sized (calls (singleTermSearch env searchTerms filterTerms maxCount orderBy
                                        skip term r).2).
Proof.
  intros Hr. unfold singleTermSearch, call.
  destruct (String.eqb _ _); [done|].
  destruct (addFilters _ _ _ _) as [params|m] eqn:Hb; [|done].
  apply addFilters_top in Hb. simpl.
  assert (p_top params = Z.min 50 maxCount) as Hp by (rewrite Hb; by destruct term).
  destruct (callGraphAPIPaginated env (length (calls r)) params maxCount) as [x|m];
    [destruct (hasItems x)|]; simpl; by apply sized_snoc.
Qed.

Lemma singleTermLoop_calls terms : forall r,
  Forall sized (calls r) ->
  Forall sized (calls (singleTermLoop env searchTerms filterTerms maxCount orderBy
                                      skip terms r).2).
Proof.
  induction terms as [|term terms IH]; intros r Hr; simpl; [done|].
  pose proof (singleTermSearch_calls term r Hr) as H.
  destruct (singleTermSearch env searchTerms filterTerms maxCount orderBy skip term r)
    as [[resp|] r1]; simpl in *; [done|]. by apply IH.
Qed.

Lemma filtersOnlySearch_calls r :
  Forall sized (calls r) ->
  Forall sized (calls (filtersOnlySearch env filterTerms maxCount orderBy skip r).2).
Proof.
  intros Hr. unfold filtersOnlySearch, call.
  destruct (hasFilters filterTerms); [|done].
  destruct (addFilters _ _ _ _) as [params|m] eqn:Hb; [|done].
  apply addFilters_top in Hb. simpl.
  destruct (callGraphAPIPaginated env (length (calls r)) params maxCount) as [x|m];
    simpl; by apply sized_snoc.
Qed.

Lemma basicListing_calls r :
  Forall sized (calls r) ->
  Forall sized (calls (basicListing env searchTerms filterTerms maxCount orderBy
                                    skip r).2).
Proof.
  intros Hr. unfold basicListing, call. simpl.
  destruct (callGraphAPIPaginated env (length (calls r))
              (baseParams env (Z.min 50 maxCount) orderBy skip) maxCount) as [x|m];
    simpl; by apply sized_snoc.
Qed.

End CallSites.

Lemma progressiveSearch_calls env searchTerms filterTerms maxCount sortOrder skip :
  Forall (sized maxCount)
         (calls (progressiveSearch env searchTerms filterTerms maxCount sortOrder skip).2).
Proof.
  unfold progressiveSearch.
  set (orderBy := "receivedDateTime " +:+ sortOrder).
  pose proof (combinedSearch_calls env searchTerms filterTerms maxCount orderBy skip
                (mkRun [] [] []) (Forall_nil_2 _)) as H1.
  destruct (combinedSearch env searchTerms filterTerms maxCount orderBy skip
              (mkRun [] [] [])) as [[resp|] r1]; cbn [fst snd] in *; [done|].
  pose proof (singleTermLoop_calls env searchTerms filterTerms maxCount orderBy skip
                searchPriority r1 H1) as H2.
  destruct (singleTermLoop env searchTerms filterTerms maxCount orderBy skip
              searchPriority r1) as [[resp|] r2]; cbn [fst snd] in *; [done|].
  pose proof (filtersOnlySearch_calls env filterTerms maxCount orderBy skip r2 H2) as H3.
  destruct (filtersOnlySearch env filterTerms maxCount orderBy skip r2)
    as [[resp|] r3]; cbn [fst snd] in *; [done|].
  by apply basicListing_calls.
Qed.

(** ** Properties of the paginated fetch *)

(** A request made under a positive remaining budget, sized to the
    minimum of the page cap and that budget; [first] is the skip offset
    the fetch started with, [total] that offset plus its budget. *)
Definition well_sized (first total : nat) (req : PageRequest) : Prop :=
  page_size req = Nat.min serverPageCap (budget req) /\
  (0 < budget req)%nat /\
  (first <= skip_offset req)%nat /\
  (skip_offset req + budget req = total)%nat.

Lemma fetchPages_bounded {Item : Type} (remote : nat -> PageRequest -> @PageReply Item)
      remaining skip acc reqs :
  (length (fetched (fetchPages remote remaining skip acc reqs))
   <= length acc + remaining)%nat /\
  exists new,
    page_requests (fetchPages remote remaining skip acc reqs) = reqs ++ new /\
    Forall (well_sized skip (skip + remaining)) new.
Proof.
  funelim (fetchPages remote remaining skip acc reqs); simp fetchPages.
  - simpl. split; [lia|]. exists []. by rewrite app_nil_r.
  - simpl. split; [lia|]. eexists. split; [done|].
    apply Forall_singleton. unfold well_sized, nextRequest. simpl. lia.
  - simpl. split.
    + rewrite length_app, length_take. lia.
    + eexists. split; [done|]. apply Forall_singleton.
      unfold well_sized, nextRequest. simpl. lia.
  - destruct H as [Hlen (new & Hreq & Hnew)].
    pose proof He as Hge. unfold exhausted, serverPageCap in Hge.
    apply orb_false_elim in Hge as [Hge _]. apply Nat.ltb_ge in Hge. split.
    + rewrite length_app in Hlen. rewrite length_take in *. lia.
    + exists (nextRequest (S k) skip :: new). split.
      * rewrite Hreq. by rewrite <- app_assoc.
      * apply Forall_cons. split.
        -- unfold well_sized, nextRequest. simpl. lia.
        -- eapply Forall_impl; [exact Hnew|]. intros req (Hs & Hb & Hf & Ht).
           rewrite length_take in Ht. unfold well_sized. split_and!; try done; lia.
Qed.

(** C7. The paginated fetch never returns more items than the requested
    maximum; each of its page requests is made while budget remains and
    is sized to the minimum of the page cap (50) and the remaining
    budget, the budget being the maximum less the items already taken.
    Every call site in the sources asks for a first page of
    [min(50, count)] and passes [count] as the budget. *)
Theorem paginated_fetch_within_budget :
  forall (Item : Type) (remote : nat -> PageRequest -> @PageReply Item)
         (skip maxItems : nat),
    (length (fetched (fetch remote skip maxItems)) <= maxItems)%nat /\
    (forall req, req ∈ page_requests (fetch remote skip maxItems) ->
       page_size req = Nat.min 50 (budget req) /\
       (0 < budget req)%nat /\
       (budget req = maxItems - (skip_offset req - skip))%nat /\
       (skip <= skip_offset req)%nat) /\
    (forall env searchTerms filterTerms maxCount sortOrder skip' params k,
       (params, k) ∈ calls (progressiveSearch env searchTerms filterTerms maxCount
                                              sortOrder skip').2 ->
       p_top params = Z.min 50 maxCount /\ k = maxCount) /\
    (forall env requestedCount,
       p_top (listEmailsRequest env requestedCount).1 = Z.min 50 requestedCount /\
       (listEmailsRequest env requestedCount).2 = requestedCount).
Proof.
  intros Item remote skip maxItems.
  destruct (fetchPages_bounded remote maxItems skip [] []) as [Hlen (new & Hreq & Hnew)].
  split_and!.
  - exact Hlen.
  - intros req Hin. unfold fetch in Hin. rewrite Hreq in Hin. simpl in Hin.
    rewrite Forall_forall in Hnew. destruct (Hnew req Hin) as (Hs & Hb & Hf & Ht).
    unfold serverPageCap in Hs. split_and!; try done; lia.
  - intros env st ft maxCount sortOrder skip' params k Hin.
    pose proof (progressiveSearch_calls env st ft maxCount sortOrder skip') as H.
    rewrite Forall_forall in H. exact (H _ Hin).
  - done.
Qed.

(** ** Properties of [parseDate] and [addFilters] *)

Section DateFacts.

Import JsString JsDate.

(** The instant at which the local day of the local time value [lt]
    begins. *)
Definition localMidnight (zone : TimeZone) (lt : Z) : Z := UTC zone (Day lt * msPerDay).

(** The instant at which the zone shows the local time of day of
    instant [t], [k] days before [t]'s local day. *)
Definition daysBack (zone : TimeZone) (t k : Z) : Z :=
  UTC zone (LocalTime zone t - k * msPerDay).

Lemma monthOfYearDay_range leap d : 0 <= monthOfYearDay leap d <= 11.
Proof.
  unfold monthOfYearDay.
  repeat (match goal with |- context [if ?c then _ else _] => destruct c end); lia.
Qed.

Lemma MakeDay_same_month t k :
  MakeDay (YearFromTime t) (MonthFromTime t) (DateFromTime t - k) = Day t - k.
Proof.
  unfold MakeDay, DateFromTime, DayWithinYear.
  pose proof (monthOfYearDay_range (isLeapYear (YearFromTime t))
                (Day t - DayFromYear (YearFromTime t))) as Hm.
  fold (DayWithinYear t) in Hm. fold (MonthFromTime t) in Hm.
  rewrite (Z.div_small (MonthFromTime t) 12), (Z.mod_small (MonthFromTime t) 12) by lia.
  rewrite Z.add_0_r. fold (DayWithinYear t). unfold DayWithinYear. lia.
Qed.

(** [d.setDate(d.getDate() - k)] moves a valid date [k] local days
    back, keeping the local time of day. *)
Lemma setDate_back zone t k :
  setDate zone (Some t) (getDate zone t - k) = TimeClip (daysBack zone t k).
Proof.
  unfold setDate, getDate, daysBack, MakeDate. rewrite MakeDay_same_month.
  do 2 f_equal. unfold Day, TimeWithinDay.
  pose proof (Z.div_mod (LocalTime zone t) msPerDay ltac:(done)). lia.
Qed.

Lemma setHoursZero_valid zone t :
  setHoursZero zone (Some t) = TimeClip (localMidnight zone (LocalTime zone t)).
Proof.
  unfold setHoursZero, localMidnight, MakeDate. do 2 f_equal. lia.
Qed.

Lemma Day_back lt k : Day (lt - k * msPerDay) = Day lt - k.
Proof.
  unfold Day. replace (lt - k * msPerDay) with (lt + (- k) * msPerDay) by lia.
  rewrite Z.div_add by done. lia.
Qed.

Lemma relativeMatch_not_a_word s n u :
  Search.relativeMatch s = Some (n, u) ->
  String.eqb s "today" = false /\ String.eqb s "yesterday" = false.
Proof.
  intros H. split.
  - destruct (String.eqb_spec s "today") as [->|]; [discriminate H|done].
  - destruct (String.eqb_spec s "yesterday") as [->|]; [discriminate H|done].
Qed.

(** The relative forms on a valid clock reading: "today" gives the
    instant at which the local day of the clock begins; "yesterday"
    and every match of the pattern with a unit of days or weeks move
    the date that many local days back and give the instant at which
    the local day the runtime then reads begins, as long as the dates
    on the way are representable ([TimeClip]). *)
Lemma parseDate_relative (env : Env) (now : Z) (dateStr : string) :
  dateStr <> ""%string ->
  TimeClip now = Some now ->
  let str := trim (toLowerCase dateStr) in
  let zone := timeZone env in
  (str = "today"%string ->
   parseDate env now (Some dateStr)
   = bind (toISOString (TimeClip (localMidnight zone (LocalTime zone now))))
          (fun s => Normal (Some s))) /\
  (str = "yesterday"%string ->
   TimeClip (daysBack zone now 1) = Some (daysBack zone now 1) ->
   parseDate env now (Some dateStr)
   = bind (toISOString
             (TimeClip (localMidnight zone (LocalTime zone (daysBack zone now 1)))))
          (fun s => Normal (Some s))) /\
  (forall n unit,
     Search.relativeMatch str = Some (n, unit) ->
     unit = "day"%string \/ unit = "days"%string \/ unit = "week"%string
     \/ unit = "weeks"%string ->
     let days := if startsWith unit "day" then n else n * 7 in
     TimeClip (daysBack zone now days) = Some (daysBack zone now days) ->
     parseDate env now (Some dateStr)
     = bind (toISOString
               (TimeClip (localMidnight zone (LocalTime zone (daysBack zone now days)))))
            (fun s => Normal (Some s))).
Proof.
  intros Hne Hnow str zone. unfold parseDate.
  destruct (String.eqb_spec dateStr "") as [|_]; [done|].
  fold str. fold zone. rewrite Hnow. split_and!.
  - intros ->. rewrite String.eqb_refl. by rewrite setHoursZero_valid.
  - intros -> Hy. simpl String.eqb. cbv iota.
    rewrite setDate_back, Hy.
    by rewrite setHoursZero_valid.
  - intros n unit Hm Hu Hd.
    set (days := if startsWith unit "day" then n else n * 7) in *.
    destruct (relativeMatch_not_a_word _ _ _ Hm) as [-> ->]. rewrite Hm.
    assert ((if startsWith unit "day"
             then setDate zone (Some now) (getDate zone now - n)
             else if startsWith unit "week"
                  then setDate zone (Some now) (getDate zone now - n * 7)
                  else if startsWith unit "month"
                       then setMonth zone (Some now) (getMonth zone now - n)
                       else Some now)
            = Some (daysBack zone now days)) as ->.
    { subst days. destruct Hu as [-> | [-> | [-> | ->]]];
        repeat match goal with
          | |- context [startsWith ?a ?b] =>
              let v := eval vm_compute in (startsWith a b) in
              change (startsWith a b) with v
          | H : context [startsWith ?a ?b] |- _ =>
              let v := eval vm_compute in (startsWith a b) in
              change (startsWith a b) with v in H
          end;
        cbv iota in *; by rewrite setDate_back, Hd. }
    by rewrite setHoursZero_valid.
Qed.

(** X10. A bound in ASCII text that is neither a relative form nor a date
    the runtime can parse makes [parseDate] return null, and
    [addFilters] leaves the bound out of the filter. *)
Lemma unparseable_bound_dropped (env : Env) (now : Z) (dateStr : string)
      (hasAtt unread : option bool) (params : Params) :
  let str := trim (toLowerCase dateStr) in
  asciiText dateStr = true ->
  String.eqb str "today" = false ->
  String.eqb str "yesterday" = false ->
  Search.relativeMatch str = None ->
  dateParse env dateStr = None ->
  parseDate env now (Some dateStr) = Normal None /\
  addFilters env now params (mkFilterTerms hasAtt unread (Some dateStr) None)
  = addFilters env now params (mkFilterTerms hasAtt unread None None) /\
  addFilters env now params (mkFilterTerms hasAtt unread None (Some dateStr))
  = addFilters env now params (mkFilterTerms hasAtt unread None None).
Proof.
  intros str _ Ht Hy Hm Hp.
  assert (parseDate env now (Some dateStr) = Normal None) as Hnull.
  { unfold parseDate. destruct (String.eqb dateStr ""); [done|].
    fold str. by rewrite Ht, Hy, Hm, Hp. }
  split_and!; [done| |]; unfold addFilters, filterConditions;
    cbn [before after hasAttachments unreadOnly truthyStr];
    destruct (String.eqb dateStr ""); cbn [negb]; try done;
    rewrite Hnull; reflexivity.
Qed.

End DateFacts.

(** *** The relative forms, for every number *)

Section RelativeForms.

Import JsString JsDate.

(** Strings of decimal digits and the number they denote. *)
Fixpoint allDigits (s : string) : bool :=
  match s with
  | EmptyString => true
  | String a s' => isDigit a && allDigits s'
  end.

Fixpoint decimalValue (acc : Z) (s : string) : Z :=
  match s with
  | EmptyString => acc
  | String a s' => decimalValue (10 * acc + Z.of_nat (nat_of_ascii a - 48)) s'
  end.

Lemma digits_then_space ds : forall acc n rest,
  allDigits ds = true ->
  digits acc n (ds +:+ String " "%char rest)
  = (decimalValue acc ds, (n + String.length ds)%nat, String " "%char rest).
Proof.
  induction ds as [|a ds IH]; intros acc n rest Hd; simpl in *.
  - by rewrite Nat.add_0_r.
  - apply andb_prop in Hd as [Ha Hds]. rewrite Ha, IH by done.
    by rewrite Nat.add_succ_r.
Qed.

Lemma toLowerCase_app a b :
  toLowerCase (a +:+ b) = toLowerCase a +:+ toLowerCase b.
Proof. induction a as [|c a IH]; simpl; [done|]. by rewrite IH. Qed.

Lemma isDigit_lower a : isDigit a = true -> lowerAscii a = a.
Proof.
  unfold isDigit, lowerAscii. intros [H1 H2]%andb_prop.
  apply Nat.leb_le in H1, H2.
  assert ((65 <=? nat_of_ascii a)%nat = false) as -> by (apply Nat.leb_gt; lia).
  done.
Qed.

Lemma isDigit_not_space a : isDigit a = true -> isSpace a = false.
Proof.
  unfold isDigit, isSpace. intros [H1 H2]%andb_prop.
  apply Nat.leb_le in H1, H2.
  assert ((nat_of_ascii a <=? 13)%nat = false) as -> by (apply Nat.leb_gt; lia).
  assert ((nat_of_ascii a =? 32)%nat = false) as -> by (apply Nat.eqb_neq; lia).
  by rewrite andb_false_r.
Qed.

Lemma toLowerCase_digits ds : allDigits ds = true -> toLowerCase ds = ds.
Proof.
  induction ds as [|a ds IH]; simpl; [done|].
  intros [Ha Hds]%andb_prop. by rewrite isDigit_lower, IH.
Qed.

Lemma trimEnd_app a b :
  trimEnd b <> EmptyString -> trimEnd (a +:+ b) = a +:+ trimEnd b.
Proof.
  intros Hb. induction a as [|c a IH]; simpl; [done|].
  rewrite IH. change (String c a +:+ trimEnd b) with (String c (a +:+ trimEnd b)).
  destruct (a +:+ trimEnd b) eqn:E; [|done].
  destruct a; simpl in E; [done|discriminate].
Qed.

Lemma trim_digits_then ds rest :
  allDigits ds = true -> ds <> EmptyString ->
  trimEnd rest = rest -> rest <> EmptyString ->
  trim (ds +:+ rest) = ds +:+ rest.
Proof.
  intros Hd Hne Hr Hrne. unfold trim.
  destruct ds as [|a ds]; [done|]. simpl in Hd. apply andb_prop in Hd as [Ha _].
  simpl trimStart. rewrite (isDigit_not_space _ Ha).
  change (String a (ds +:+ rest)) with (String a ds +:+ rest).
  rewrite trimEnd_app by (by rewrite Hr). by rewrite Hr.
Qed.

Lemma relativeMatch_digits ds u :
  allDigits ds = true -> ds <> EmptyString ->
  u = "day"%string \/ u = "days"%string \/ u = "week"%string \/ u = "weeks"%string ->
  trim (toLowerCase (ds +:+ " " +:+ u +:+ " ago")) = ds +:+ " " +:+ u +:+ " ago" /\
  Search.relativeMatch (ds +:+ " " +:+ u +:+ " ago") = Some (decimalValue 0 ds, u).
Proof.
  intros Hd Hne Hu. split.
  - rewrite toLowerCase_app, toLowerCase_digits by done.
    destruct Hu as [-> | [-> | [-> | ->]]]; by apply trim_digits_then.
  - unfold Search.relativeMatch.
    change (ds +:+ " " +:+ u +:+ " ago")
      with (ds +:+ String " "%char (u +:+ " ago")).
    rewrite digits_then_space by done.
    destruct ds as [|a ds]; [done|]. simpl Nat.add.
    destruct Hu as [-> | [-> | [-> | ->]]]; reflexivity.
Qed.

(** X8. For every number written in decimal digits, "n day(s) ago" and
    "n week(s) ago" give the instant at which, in the local time zone,
    the day n (or 7n) days before the local day of the clock begins.
    The zone may change its clocks over the year; the local time of
    day of the clock, taken that many days back, is read back by the
    runtime on the day it was set to (it does not fall into a clock
    change that moves it across midnight), and the dates on the way
    are representable. *)
Lemma parseDate_n_units_ago (env : Env) (now : Z) (ds u : string) :
  allDigits ds = true -> ds <> EmptyString ->
  u = "day"%string \/ u = "days"%string \/ u = "week"%string \/ u = "weeks"%string ->
  TimeClip now = Some now ->
  let zone := timeZone env in
  let days := if startsWith u "day" then decimalValue 0 ds else decimalValue 0 ds * 7 in
  let back := daysBack zone now days in
  TimeClip back = Some back ->
  Day (LocalTime zone back) = Day (LocalTime zone now - days * msPerDay) ->
  parseDate env now (Some (ds +:+ " " +:+ u +:+ " ago"))
  = bind (toISOString
            (TimeClip (UTC zone ((Day (LocalTime zone now) - days) * msPerDay))))
         (fun s => Normal (Some s)).
Proof.
  intros Hd Hne Hu Hnow zone days back Hback Hday.
  destruct (relativeMatch_digits ds u Hd Hne Hu) as [Htrim Hm].
  assert (ds +:+ " " +:+ u +:+ " ago" <> ""%string) as Hstr.
  { destruct ds; [done|]. discriminate. }
  destruct (parseDate_relative env now _ Hstr Hnow) as (_ & _ & H).
  rewrite Htrim in H. rewrite (H _ _ Hm Hu Hback).
  unfold localMidnight. fold zone. fold days. fold back.
  by rewrite Hday, Day_back.
Qed.

End RelativeForms.

(** *** Concrete dates *)

(** Clock 2024-02-29T12:34:56.789Z, local time two hours ahead of UTC
    all year. *)
Definition leap_day_noon : Env :=
  mkEnv (JsDate.fixedOffset 7200000) (fun _ => 1709210096789) (fun _ => None) "id,subject"
        (fun _ _ _ => Normal no_items).

Example parseDate_two_weeks_ago :
  parseDate leap_day_noon 1709210096789 (Some "2 weeks ago"%string)
  = Normal (Some "2024-02-14T22:00:00.000Z"%string) /\
  JsDate.toISOString
    (Some (localMidnight (JsDate.fixedOffset 7200000)
             (1709210096789 + 7200000 - 14 * JsDate.msPerDay)))
  = Normal "2024-02-14T22:00:00.000Z"%string.
Proof. split; reflexivity. Qed.

(** Local time in New York in 2024: four hours behind UTC from 10 March
    07:00Z to 3 November 06:00Z, five hours behind otherwise.  A local
    time the clocks skip is read with the offset before the change, a
    local time they show twice with the earlier one. *)
Definition new_york_2024 : JsDate.TimeZone :=
  JsDate.mkTimeZone
    (fun t => if (1710054000000 <=? t) && (t <? 1730613600000)
              then -14400000 else -18000000)
    (fun lt => if (1710039600000 <=? lt) && (lt <? 1730599200000)
               then -14400000 else -18000000).

(** Local time in Berlin in 2024: two hours ahead of UTC from 31 March
    01:00Z to 27 October 01:00Z, one hour ahead otherwise. *)
Definition berlin_2024 : JsDate.TimeZone :=
  JsDate.mkTimeZone
    (fun t => if (1711846800000 <=? t) && (t <? 1729990800000)
              then 7200000 else 3600000)
    (fun lt => if (1711854000000 <=? lt) && (lt <? 1729998000000)
               then 7200000 else 3600000).

Definition in_zone (zone : JsDate.TimeZone) (now : Z) : Env :=
  mkEnv zone (fun _ => now) (fun _ => None) "id,subject"
        (fun _ _ _ => Normal no_items).

(** Three days after the clocks went forward in New York, a week ago is
    a day of winter time: its midnight is 05:00Z, not 04:00Z. *)
Example parseDate_week_ago_across_clock_change :
  parseDate (in_zone new_york_2024 1710345600000) 1710345600000
            (Some "1 week ago"%string)
  = Normal (Some "2024-03-06T05:00:00.000Z"%string) /\
  parseDate (in_zone new_york_2024 1710345600000) 1710345600000
            (Some "today"%string)
  = Normal (Some "2024-03-13T04:00:00.000Z"%string).
Proof. split; reflexivity. Qed.

Example parseDate_yesterday :
  parseDate leap_day_noon 1709210096789 (Some "Yesterday"%string)
  = Normal (Some "2024-02-27T22:00:00.000Z"%string).
Proof. reflexivity. Qed.

Example parseDate_garbage :
  parseDate leap_day_noon 1709210096789 (Some "next tuesday"%string) = Normal None.
Proof. reflexivity. Qed.

Definition before_distant_past : FilterTerms :=
  mkFilterTerms None None (Some "200000000 days ago"%string) None.

(** C9. On the bound "200000000 days ago" at the clock reading
    2024-02-29T12:34:56.789Z, [setDate] leaves the invalid date and
    [toISOString] raises a RangeError: [parseDate] neither returns the
    shifted midnight nor null, [addFilters] raises with it, and a search
    for the subject "invoice" under that bound abandons the combined,
    subject and filters-only strategies without a call and lists the
    folder unfiltered. *)
Theorem parseDate_raises_on_unrepresentable_date :
  parseDate leap_day_noon 1709210096789 (Some "200000000 days ago"%string)
  = Throw "RangeError: Invalid time value" /\
  addFilters leap_day_noon 1709210096789
             (baseParams leap_day_noon 10 "receivedDateTime desc" 0)
             before_distant_past
  = Throw "RangeError: Invalid time value" /\
  calls (progressiveSearch leap_day_noon only_subject before_distant_past 10 "desc" 0).2
  = [(baseParams leap_day_noon 10 "receivedDateTime desc" 0, 10)] /\
  map fst (attempts (progressiveSearch leap_day_noon only_subject before_distant_past
                                       10 "desc" 0).2)
  = [Combined; SingleTerm Subject; FiltersOnly; BasicListing].
Proof. split_and!; reflexivity. Qed.

(** ** Properties of the folder resolver *)

(** The inbox endpoint of a mailbox. *)
Definition inboxPath (mailbox : option string) : string :=
  getMailboxBasePath mailbox +:+ "/mailFolders/inbox/messages".

Lemma inboxOf_wellKnown mailbox :
  inboxOf (getWellKnownFolders mailbox) = VString (inboxPath mailbox).
Proof. reflexivity. Qed.

(** The display names in a listing are ASCII text. *)
Definition asciiFolders (l : list Folder) : bool :=
  forallb (fun f => from_option JsString.asciiText true (displayName f)) l.

(** The folder name, the mailbox address and the display names the
    service lists for the mailbox are ASCII text. *)
Definition asciiLookup (graph : Graph) (name : string) (mailbox : option string) : Prop :=
  JsString.asciiText name = true /\
  from_option JsString.asciiText true mailbox = true /\
  forall l, graph (getMailboxBasePath mailbox +:+ "/mailFolders") TopHundred
            = Normal (mkFolderResponse (Some l)) ->
            asciiFolders l = true.

(** X4. The fallback of [resolveFolderPath], on ASCII text: a name whose
    lower-case form is neither a well-known folder nor a property
    inherited from [Object.prototype], and for which the lookup finds
    no id (it returns null also when a remote call raises), resolves to
    the inbox endpoint of the mailbox. *)
Lemma resolveFolderPath_falls_back_to_inbox
      (graph : Graph) (name : string) (mailbox : option string) :
  asciiLookup graph name mailbox ->
  getWellKnownFolders mailbox !! JsString.toLowerCase name = None ->
  objectPrototype !! JsString.toLowerCase name = None ->
  getFolderIdByName graph name mailbox = None ->
  resolveFolderPath graph (Some name) mailbox = VString (inboxPath mailbox).
Proof.
  intros _ Hw Hp Hid. unfold resolveFolderPath.
  destruct (String.eqb name ""); [apply inboxOf_wellKnown|].
  unfold getProperty. rewrite Hw, Hp. cbn [truthy]. rewrite Hid.
  apply inboxOf_wellKnown.
Qed.

Lemma getFolderIdByName_absorbs_errors (graph : Graph) name mailbox m :
  graph (getMailboxBasePath mailbox +:+ "/mailFolders") (FilterDisplayName name)
  = Throw m ->
  getFolderIdByName graph name mailbox = None.
Proof. intros H. unfold getFolderIdByName. by rewrite H. Qed.

(** *** Concrete lookups *)

(** A mailbox whose folders are Inbox and Projects. *)
Definition two_folders : Graph :=
  fun _ q =>
    match q with
    | FilterDisplayName name =>
        Normal (mkFolderResponse
                  (Some (if String.eqb name "Projects"
                         then [mkFolder (Some "AQMkAD-17"%string) (Some "Projects"%string)]
                         else [])))
    | TopHundred =>
        Normal (mkFolderResponse
                  (Some [mkFolder (Some "AQMkAD-01"%string) (Some "Inbox"%string);
                         mkFolder (Some "AQMkAD-17"%string) (Some "Projects"%string)]))
    end.

(** A service that fails every call. *)
Definition unreachable : Graph := fun _ _ => Throw "ECONNRESET".

Example resolve_projects :
  resolveFolderPath two_folders (Some "projects"%string) None
  = VString "me/mailFolders/AQMkAD-17/messages".
Proof. vm_compute. reflexivity. Qed.

Example resolve_unknown_folder :
  resolveFolderPath two_folders (Some "Receipts"%string) (Some "team@example.com"%string)
  = VString "users/team@example.com/mailFolders/inbox/messages".
Proof. vm_compute. reflexivity. Qed.

Example resolve_when_unreachable :
  resolveFolderPath unreachable (Some "Receipts"%string) None
  = VString "me/mailFolders/inbox/messages".
Proof. vm_compute. reflexivity. Qed.

(** C10. The folder name "constructor" is not one of the six well-known
    names and the lookup finds no folder of that name, yet
    [resolveFolderPath] does not return the inbox path: the well-known
    table is read with [wellKnownFolders[name]], which finds the
    [constructor] function every object inherits, and that function is
    what the caller gets.  The same holds when the lookup would fail. *)
Theorem resolveFolderPath_returns_inherited_property :
  getWellKnownFolders None !! "constructor"%string = None /\
  getFolderIdByName two_folders "constructor" None = None /\
  resolveFolderPath two_folders (Some "constructor"%string) None
  = VFunction "Object" /\
  resolveFolderPath unreachable (Some "constructor"%string) None
  = VFunction "Object" /\
  inboxPath None = "me/mailFolders/inbox/messages"%string.
Proof. split_and!; vm_compute; reflexivity. Qed.

(** ** Properties of the mailbox paths *)

Section MailboxPathFacts.

Import JsString JsText.

Lemma trimStart_idem s : trimStart (trimStart s) = trimStart s.
Proof.
  induction s as [|a s IH]; [done|]. simpl.
  destruct (isSpace a) eqn:Ha; [done|]. simpl. by rewrite Ha.
Qed.

Lemma trimEnd_idem s : trimEnd (trimEnd s) = trimEnd s.
Proof.
  induction s as [|a s IH]; [done|]. simpl.
  destruct (trimEnd s) as [|b t] eqn:Ht.
  - destruct (isSpace a) eqn:Ha; [done|]. simpl. by rewrite Ha.
  - change (trimEnd (String a (String b t))) with
      (match trimEnd (String b t) with
       | EmptyString => if isSpace a then EmptyString else String a EmptyString
       | x => String a x
       end).
    by rewrite IH.
Qed.

(** A string that does not start with white space keeps its first
    character under [trimEnd]. *)
Lemma trimStart_trimEnd s : trimStart s = s -> trimStart (trimEnd s) = trimEnd s.
Proof.
  destruct s as [|a s]; [done|]. simpl.
  destruct (isSpace a) eqn:Ha.
  - intros H. exfalso.
    assert (String.length (trimStart s) <= String.length s)%nat as Hle.
    { clear. induction s as [|b s IH]; simpl; [lia|].
      destruct (isSpace b); simpl; lia. }
    rewrite H in Hle. simpl in Hle. lia.
  - intros _. destruct (trimEnd s); simpl; by rewrite Ha.
Qed.

Lemma trim_idem s : trim (trim s) = trim s.
Proof.
  unfold trim. rewrite trimStart_trimEnd by apply trimStart_idem.
  apply trimEnd_idem.
Qed.

(** Strings of white space. *)
Fixpoint allSpace (s : string) : bool :=
  match s with
  | EmptyString => true
  | String a s' => isSpace a && allSpace s'
  end.

Lemma trimStart_pad pad s : allSpace pad = true -> trimStart (pad +:+ s) = trimStart s.
Proof.
  induction pad as [|a pad IH]; simpl; [done|].
  intros [-> Hp]%andb_prop. by apply IH.
Qed.

Lemma trimStart_allSpace pad : allSpace pad = true -> trimStart pad = EmptyString.
Proof.
  induction pad as [|a pad IH]; simpl; [done|].
  intros [-> Hp]%andb_prop. by apply IH.
Qed.

Lemma trimEnd_allSpace pad : allSpace pad = true -> trimEnd pad = EmptyString.
Proof.
  induction pad as [|a pad IH]; simpl; [done|].
  intros [-> Hp]%andb_prop. by rewrite IH.
Qed.

Lemma trimEnd_pad pad s : allSpace pad = true -> trimEnd (s +:+ pad) = trimEnd s.
Proof.
  intros Hp. induction s as [|a s IH]; simpl.
  - by apply trimEnd_allSpace.
  - change (String a s +:+ pad) with (String a (s +:+ pad)). simpl. by rewrite IH.
Qed.

Lemma trim_pad pad1 pad2 s :
  allSpace pad1 = true -> allSpace pad2 = true ->
  trim (pad1 +:+ s +:+ pad2) = trim s.
Proof.
  intros H1 H2. unfold trim. rewrite trimStart_pad by done.
  induction s as [|a s IH]; simpl.
  - change (EmptyString +:+ pad2) with pad2. by rewrite trimStart_allSpace.
  - change (String a s +:+ pad2) with (String a (s +:+ pad2)). simpl.
    destruct (isSpace a); [done|].
    change (String a (s +:+ pad2)) with (String a s +:+ pad2).
    by rewrite trimEnd_pad.
Qed.

Lemma trim_allSpace s : allSpace s = true -> trim s = EmptyString.
Proof. intros H. unfold trim. by rewrite trimStart_allSpace. Qed.

(** The base path is a function of the trimmed address. *)
Lemma getMailboxBasePath_trim m :
  getMailboxBasePath (Some m)
  = (if String.eqb (trim m) "" then "me" else "users/" +:+ trim m)%string.
Proof.
  unfold getMailboxBasePath.
  destruct (String.eqb m "") eqn:Hm; [|done].
  apply String.eqb_eq in Hm as ->. done.
Qed.

End MailboxPathFacts.

(** X1. White space around a mailbox address is not seen by any path
    built from it: the padded address, the address and its trimmed
    form give the same base path and the same table of well-known
    folders, and an address of white space alone is the primary
    mailbox.  [buildMailboxPath] joins the base path and the resource
    path with one slash, whether or not the resource path brings a
    leading slash. *)
Theorem mailbox_paths_normalised :
  forall (pad1 pad2 m resourcePath : string),
    allSpace pad1 = true -> allSpace pad2 = true ->
    JsString.startsWith resourcePath "/" = false ->
    let padded := Some (pad1 +:+ m +:+ pad2) in
    getMailboxBasePath padded = getMailboxBasePath (Some m) /\
    getMailboxBasePath (Some (JsString.trim m)) = getMailboxBasePath (Some m) /\
    (allSpace m = true -> getMailboxBasePath padded = getMailboxBasePath None) /\
    MailboxPath.buildMailboxPath padded ("/" +:+ resourcePath)
    = MailboxPath.buildMailboxPath (Some m) resourcePath /\
    getWellKnownFolders padded = getWellKnownFolders (Some m).
Proof.
  intros pad1 pad2 m r H1 H2 Hr padded.
  assert (getMailboxBasePath padded = getMailboxBasePath (Some m)) as Hbase.
  { subst padded. by rewrite !getMailboxBasePath_trim, trim_pad. }
  split_and!.
  - done.
  - by rewrite !getMailboxBasePath_trim, trim_idem.
  - intros Hm. by rewrite Hbase, getMailboxBasePath_trim, (trim_allSpace m Hm).
  - unfold MailboxPath.buildMailboxPath. rewrite Hbase, Hr. done.
  - unfold getWellKnownFolders. by rewrite Hbase.
Qed.

Lemma mailbox_paths_normalised_witness :
  MailboxPath.buildMailboxPath (Some ("  " +:+ "team@example.com" +:+ " ")) "/messages"
  = MailboxPath.buildMailboxPath (Some "team@example.com"%string) "messages".
Proof.
  apply (mailbox_paths_normalised "  " " " "team@example.com" "messages");
    reflexivity.
Defined.

(** The names of the well-known folders and the segment each stands
    for. *)
Definition wellKnownSegments : list (string * string) :=
  [("inbox", "inbox"); ("drafts", "drafts"); ("sent", "sentItems");
   ("deleted", "deletedItems"); ("junk", "junkemail"); ("archive", "archive")]%string.

Lemma getWellKnownFolders_lookup mailbox k :
  getWellKnownFolders mailbox !! k
  = (fun seg => getMailboxBasePath mailbox +:+ "/mailFolders/" +:+ seg +:+ "/messages")
      <$> (list_to_map wellKnownSegments : gmap string string) !! k.
Proof.
  unfold getWellKnownFolders, wellKnownSegments.
  cbn [list_to_map foldr uncurry fst snd].
  rewrite !lookup_insert, !lookup_empty. by repeat case_decide.
Qed.

(** X2. The table of well-known folders has the same six names for
    every mailbox, each standing for the path [buildMailboxPath] builds
    for the folder's messages; the legacy table [WELL_KNOWN_FOLDERS] is
    the table of the primary mailbox. *)
Theorem getWellKnownFolders_table :
  forall (mailbox : option string) (k : string),
    getWellKnownFolders mailbox !! k
    = (fun seg => MailboxPath.buildMailboxPath mailbox
                    ("mailFolders/" +:+ seg +:+ "/messages"))
        <$> (list_to_map wellKnownSegments : gmap string string) !! k /\
    (is_Some (getWellKnownFolders mailbox !! k) <->
     k ∈ ["inbox"; "drafts"; "sent"; "deleted"; "junk"; "archive"]%string) /\
    FolderTree.WELL_KNOWN_FOLDERS = getWellKnownFolders None.
Proof.
  intros mailbox k. split_and!.
  - rewrite getWellKnownFolders_lookup. done.
  - rewrite getWellKnownFolders_lookup, fmap_is_Some.
    unfold wellKnownSegments. cbn [list_to_map foldr uncurry fst snd].
    rewrite !lookup_insert_is_Some', lookup_empty, !elem_of_cons, elem_of_nil.
    split.
    + intros H. repeat (destruct H as [H|H]; [subst; tauto|]).
      by destruct H.
    + intros H. repeat (destruct H as [H|H]; [subst; tauto|]). done.
  - done.
Qed.
(** ** More properties of the folder resolver *)

Lemma getMailboxBasePath_nonempty mailbox rest :
  String.eqb (getMailboxBasePath mailbox +:+ rest) "" = false.
Proof.
  unfold getMailboxBasePath. destruct mailbox as [m|]; [|done].
  by destruct (String.eqb m "" || String.eqb (JsString.trim m) "").
Qed.

(** X3. A folder name that is a well-known name in any letter case
    resolves to that folder's path in the mailbox, whatever the remote
    service would answer. *)
Theorem resolveFolderPath_well_known_any_case :
  forall (graph : Graph) (name : string) (mailbox : option string) (p : string),
    getWellKnownFolders mailbox !! JsString.toLowerCase name = Some p ->
    resolveFolderPath graph (Some name) mailbox = VString p.
Proof.
  intros graph name mailbox p Hp. unfold resolveFolderPath.
  destruct (String.eqb name "") eqn:Hn.
  { apply String.eqb_eq in Hn as ->. simpl in Hp.
    rewrite getWellKnownFolders_lookup in Hp. by vm_compute in Hp. }
  unfold getProperty. rewrite Hp. cbn [truthy].
  rewrite getWellKnownFolders_lookup in Hp.
  destruct (_ !! _) as [seg|]; [|done]. injection Hp as <-.
  by rewrite getMailboxBasePath_nonempty.
Qed.

Lemma resolveFolderPath_well_known_any_case_witness :
  resolveFolderPath unreachable (Some "InBox"%string) (Some " team@example.com"%string)
  = VString "users/team@example.com/mailFolders/inbox/messages".
Proof.
  apply (resolveFolderPath_well_known_any_case
           unreachable "InBox" (Some " team@example.com"%string)).
  vm_compute. reflexivity.
Defined.

Lemma resolveFolderPath_falls_back_to_inbox_witness :
  resolveFolderPath two_folders (Some "Receipts"%string) None
  = VString (inboxPath None).
Proof.
  apply (resolveFolderPath_falls_back_to_inbox two_folders "Receipts" None);
    [|reflexivity..].
  split_and!; [reflexivity..|]. intros l [= <-]. reflexivity.
Defined.

Lemma findFolder_found lower l f :
  findFolder lower l = Normal (Some f) ->
  f ∈ l /\ exists d, displayName f = Some d /\ JsString.toLowerCase d = lower.
Proof.
  induction l as [|g l IH]; simpl; [done|].
  destruct (displayName g) as [d|] eqn:Hd; [|done].
  destruct (String.eqb (JsString.toLowerCase d) lower) eqn:He.
  - intros [= <-]. split; [left|]. exists d. split; [done|]. by apply String.eqb_eq.
  - intros H. destruct (IH H) as [Hin Hx]. split; [by right|done].
Qed.

(** X5. An id that [getFolderIdByName] returns is the id of the first
    folder the service lists for the exact display name, or, when that
    query answers without a folder, the id of a folder among the first
    hundred whose display name equals the requested one up to letter
    case. *)
Theorem getFolderIdByName_found :
  forall (graph : Graph) (name : string) (mailbox : option string) (i : string),
    getFolderIdByName graph name mailbox = Some i ->
    let path := getMailboxBasePath mailbox +:+ "/mailFolders" in
    (exists f rest,
        graph path (FilterDisplayName name)
        = Normal (mkFolderResponse (Some (f :: rest))) /\
        folder_id f = Some i) \/
    (exists r l f d,
        graph path (FilterDisplayName name) = Normal r /\
        (folders r = None \/ folders r = Some []) /\
        graph path TopHundred = Normal (mkFolderResponse (Some l)) /\
        f ∈ l /\ folder_id f = Some i /\
        displayName f = Some d /\
        JsString.toLowerCase d = JsString.toLowerCase name).
Proof.
  intros graph name mailbox i. unfold getFolderIdByName. cbv zeta.
  destruct (graph _ (FilterDisplayName name)) as [[[[|f rest]|]]|m] eqn:H1;
    cbn [bind folders]; try done.
  - destruct (graph _ TopHundred) as [[[l|]]|m] eqn:H2; cbn [bind folders]; try done.
    destruct (findFolder _ l) as [[f|]|m] eqn:Hf; cbn [bind]; try done.
    intros Hi. right. apply findFolder_found in Hf as (Hin & d & Hd & Hl).
    exists (mkFolderResponse (Some [])), l, f, d. split_and!; try done. by right.
  - intros Hi. left. by exists f, rest.
  - destruct (graph _ TopHundred) as [[[l|]]|m] eqn:H2; cbn [bind folders]; try done.
    destruct (findFolder _ l) as [[f|]|m] eqn:Hf; cbn [bind]; try done.
    intros Hi. right. apply findFolder_found in Hf as (Hin & d & Hd & Hl).
    exists (mkFolderResponse None), l, f, d. split_and!; try done. by left.
Qed.

Lemma getFolderIdByName_found_witness :
  exists l f d,
    two_folders "me/mailFolders" TopHundred = Normal (mkFolderResponse (Some l)) /\
    f ∈ l /\ folder_id f = Some "AQMkAD-17"%string /\
    displayName f = Some d /\
    JsString.toLowerCase d = "projects"%string.
Proof.
  destruct (getFolderIdByName_found two_folders "projects" None "AQMkAD-17" eq_refl)
    as [(f & rest & H & _)|(r & l & f & d & _ & _ & H)]; [discriminate H|].
  by exists l, f, d.
Defined.

(** X6. [getFolderIdByName] answers null when a call of the service
    fails: the exact-match query, or the listing it falls back to when
    that query finds nothing. *)
Theorem getFolderIdByName_null_on_error :
  forall (graph : Graph) (name : string) (mailbox : option string) (m : string),
    let path := getMailboxBasePath mailbox +:+ "/mailFolders" in
    graph path (FilterDisplayName name) = Throw m \/
    (exists r,
        graph path (FilterDisplayName name) = Normal r /\
        (folders r = None \/ folders r = Some []) /\
        graph path TopHundred = Throw m) ->
    getFolderIdByName graph name mailbox = None.
Proof.
  intros graph name mailbox m path [H|(r & H1 & Hr & H2)]; unfold getFolderIdByName;
    fold path.
  - by rewrite H.
  - rewrite H1. cbn [bind]. by destruct Hr as [-> | ->]; rewrite H2.
Qed.

(** A service that answers the exact-match query with no folder and
    fails the listing. *)
Definition listing_fails : Graph :=
  fun _ q =>
    match q with
    | FilterDisplayName _ => Normal (mkFolderResponse (Some []))
    | TopHundred => Throw "504 Gateway Timeout"
    end.

Lemma getFolderIdByName_null_on_error_witness :
  getFolderIdByName listing_fails "Projects" (Some "team@example.com"%string) = None.
Proof.
  apply (getFolderIdByName_null_on_error listing_fails "Projects"
           (Some "team@example.com"%string) "504 Gateway Timeout").
  right. exists (mkFolderResponse (Some [])). split; [reflexivity|].
  split; [right; reflexivity|reflexivity].
Defined.

(** ** Properties of [getAllFolders] *)

(** A service whose failed child listings are answered with an empty
    list instead. *)
Definition quietChildren (service : FolderTree.Service) : FolderTree.Service :=
  fun n req =>
    match n, service n req with
    | S _, Throw _ => Normal (FolderTree.mkListing (Some []))
    | _, answer => answer
    end.

(** X7. [getAllFolders] lists one level of children: it asks for the
    top-level folders, then once for the children of each top-level
    folder that counts children, in order; its result is the top-level
    folders followed by the child listings, one per request and in the
    order of the requests, where the listing of a request that fails
    or answers without [value] is empty.  When the first call fails or
    carries no [value], the result is empty and no other call is made.
    A child listing that fails is to it what a child listing without
    folders is: same result, same requests. *)
Theorem getAllFolders_one_level :
  forall (service : FolderTree.Service) (mailbox : option string),
    let basePath := getMailboxBasePath mailbox in
    let top := FolderTree.TopLevel (basePath +:+ "/mailFolders") in
    let out := FolderTree.getAllFolders service mailbox in
    match service O top with
    | Normal (FolderTree.mkListing (Some value)) =>
        let parents :=
          List.filter (fun f => JsText.gtb (FolderTree.childFolderCount f) 0) value in
        out.2 = top :: map (FolderTree.childRequest basePath) parents /\
        exists listings,
          out.1 = value ++ concat listings /\
          length listings = length parents /\
          forall i f, parents !! i = Some f ->
            listings !! i
            = Some match service (S i) (FolderTree.childRequest basePath f) with
                   | Normal answer => default [] (FolderTree.listing_value answer)
                   | Throw _ => []
                   end
    | _ => out = ([], [top])
    end /\
    FolderTree.getAllFolders (quietChildren service) mailbox = out.
Proof.
  intros service mailbox basePath top out. subst out. split.
  - unfold FolderTree.getAllFolders. fold basePath. fold top.
    destruct (service O top) as [[[value|]]|m]; cbn [FolderTree.listing_value]; try done.
    cbn [fst snd]. split; [done|].
    eexists. split; [done|]. split.
    + by rewrite length_imap, length_map.
    + intros i f Hf. rewrite list_lookup_imap, list_lookup_fmap, Hf. done.
  - unfold FolderTree.getAllFolders.
    change (quietChildren service O ?r) with (service O r).
    destruct (service O _) as [[[value|]]|m]; cbn [FolderTree.listing_value]; try done.
    f_equal. f_equal. f_equal. apply imap_ext. intros i req _.
    unfold FolderTree.childFoldersOf, quietChildren.
    by destruct (service (S i) req).
Qed.

(** ** More properties of [parseDate] *)

Lemma parseDate_n_units_ago_witness :
  parseDate (in_zone new_york_2024 1710345600000) 1710345600000
            (Some ("1" +:+ " " +:+ "week" +:+ " ago"))
  = Normal (Some "2024-03-06T05:00:00.000Z"%string).
Proof.
  rewrite (parseDate_n_units_ago (in_zone new_york_2024 1710345600000) 1710345600000
             "1" "week");
    [|reflexivity|discriminate|right; right; left; reflexivity
     |reflexivity|reflexivity|reflexivity].
  vm_compute. reflexivity.
Defined.

Lemma unparseable_bound_dropped_witness :
  parseDate leap_day_noon 1709210096789 (Some "next tuesday"%string) = Normal None /\
  addFilters leap_day_noon 1709210096789
             (baseParams leap_day_noon 10 "receivedDateTime desc" 0)
             (mkFilterTerms None (Some true) (Some "next tuesday"%string) None)
  = addFilters leap_day_noon 1709210096789
               (baseParams leap_day_noon 10 "receivedDateTime desc" 0)
               (mkFilterTerms None (Some true) None None) /\
  addFilters leap_day_noon 1709210096789
             (baseParams leap_day_noon 10 "receivedDateTime desc" 0)
             (mkFilterTerms None (Some true) None (Some "next tuesday"%string))
  = addFilters leap_day_noon 1709210096789
               (baseParams leap_day_noon 10 "receivedDateTime desc" 0)
               (mkFilterTerms None (Some true) None None).
Proof.
  apply (unparseable_bound_dropped leap_day_noon 1709210096789 "next tuesday"
           None (Some true) (baseParams leap_day_noon 10 "receivedDateTime desc" 0));
    reflexivity.
Defined.

Lemma relativeMatch_digits_months ds u :
  allDigits ds = true -> ds <> EmptyString ->
  u = "month"%string \/ u = "months"%string ->
  JsString.trim (JsString.toLowerCase (ds +:+ " " +:+ u +:+ " ago"))
  = ds +:+ " " +:+ u +:+ " ago" /\
  Search.relativeMatch (ds +:+ " " +:+ u +:+ " ago") = Some (decimalValue 0 ds, u).
Proof.
  intros Hd Hne Hu. split.
  - rewrite toLowerCase_app, toLowerCase_digits by done.
    destruct Hu as [-> | ->]; by apply trim_digits_then.
  - unfold Search.relativeMatch.
    change (ds +:+ " " +:+ u +:+ " ago")
      with (ds +:+ String " "%char (u +:+ " ago")).
    rewrite digits_then_space by done.
    destruct ds as [|a ds]; [done|]. simpl Nat.add.
    destruct Hu as [-> | ->]; reflexivity.
Qed.

(** X9. For every number written in decimal digits, "n month(s) ago"
    gives the instant at which, in the local time zone, the day begins
    that the runtime numbers [MakeDay(year, month - n, date)] from the
    local date of the clock: the same day of the month n months back,
    counted on into the following month where that month is shorter.
    The zone may change its clocks over the year; the local time of
    day of the clock, set on that day, is read back by the runtime on
    the same day, and the dates on the way are representable. *)
Theorem parseDate_n_months_ago :
  forall (env : Env) (now : Z) (ds u : string),
    allDigits ds = true -> ds <> EmptyString ->
    u = "month"%string \/ u = "months"%string ->
    JsDate.TimeClip now = Some now ->
    let zone := timeZone env in
    let lt := JsDate.LocalTime zone now in
    let day := JsDate.MakeDay (JsDate.YearFromTime lt)
                              (JsDate.MonthFromTime lt - decimalValue 0 ds)
                              (JsDate.DateFromTime lt) in
    let back := JsDate.UTC zone (day * JsDate.msPerDay + JsDate.TimeWithinDay lt) in
    JsDate.TimeClip back = Some back ->
    JsDate.Day (JsDate.LocalTime zone back) = day ->
    parseDate env now (Some (ds +:+ " " +:+ u +:+ " ago"))
    = bind (JsDate.toISOString
              (JsDate.TimeClip (JsDate.UTC zone (day * JsDate.msPerDay))))
           (fun s => Normal (Some s)).
Proof.
  intros env now ds u Hd Hne Hu Hnow zone lt day back Hback Hday.
  destruct (relativeMatch_digits_months ds u Hd Hne Hu) as [Htrim Hm].
  unfold parseDate.
  assert (String.eqb (ds +:+ " " +:+ u +:+ " ago") "" = false) as ->.
  { destruct ds; [done|]. reflexivity. }
  rewrite Htrim.
  destruct (relativeMatch_not_a_word _ _ _ Hm) as [-> ->]. rewrite Hm, Hnow.
  assert (JsString.startsWith u "day" = false /\ JsString.startsWith u "week" = false /\
          JsString.startsWith u "month" = true) as (-> & -> & ->)
      by (by destruct Hu as [-> | ->]).
  fold zone.
  assert (JsDate.setMonth zone (Some now) (JsDate.getMonth zone now - decimalValue 0 ds)
          = Some back) as ->.
  { unfold JsDate.setMonth, JsDate.getMonth, JsDate.MakeDate.
    fold lt. fold day. exact Hback. }
  rewrite setHoursZero_valid. unfold localMidnight. by rewrite Hday.
Qed.

(** On 31 March 2024, the day the clocks go forward in Berlin, a month
    ago is 31 February, which the runtime counts on to 2 March, a day
    of winter time. *)
Lemma parseDate_n_months_ago_witness :
  parseDate (in_zone berlin_2024 1711886400000) 1711886400000
            (Some ("1" +:+ " " +:+ "month" +:+ " ago"))
  = Normal (Some "2024-03-01T23:00:00.000Z"%string).
Proof.
  rewrite (parseDate_n_months_ago (in_zone berlin_2024 1711886400000) 1711886400000
             "1" "month");
    [|reflexivity|discriminate|left; reflexivity|reflexivity|reflexivity|reflexivity].
  vm_compute. reflexivity.
Defined.

(** X11. The relative forms are read from the lower-cased, trimmed
    text alone: two bounds with the same such text, which is "today",
    "yesterday" or a match of the pattern, parse to the same result,
    whatever the runtime's date parser makes of either. *)
Theorem parseDate_relative_forms_normalised :
  forall (env : Env) (now : Z) (s1 s2 : string),
    s1 <> ""%string -> s2 <> ""%string ->
    JsString.trim (JsString.toLowerCase s1) = JsString.trim (JsString.toLowerCase s2) ->
    (let str := JsString.trim (JsString.toLowerCase s1) in
     str = "today"%string \/ str = "yesterday"%string \/
     Search.relativeMatch str <> None) ->
    parseDate env now (Some s1) = parseDate env now (Some s2).
Proof.
  intros env now s1 s2 H1 H2 He Hr. unfold parseDate.
  destruct (String.eqb_spec s1 "") as [|_]; [done|].
  destruct (String.eqb_spec s2 "") as [|_]; [done|].
  rewrite <- He. cbv zeta in Hr.
  destruct (String.eqb (JsString.trim (JsString.toLowerCase s1)) "today") eqn:Ht; [done|].
  destruct (String.eqb (JsString.trim (JsString.toLowerCase s1)) "yesterday") eqn:Hy;
    [done|].
  destruct (Search.relativeMatch _) as [[amount unit]|]; [done|].
  destruct Hr as [Hr|[Hr|Hr]]; [| |done].
  - rewrite Hr in Ht. discriminate Ht.
  - rewrite Hr in Hy. discriminate Hy.
Qed.

Lemma parseDate_relative_forms_normalised_witness :
  parseDate leap_day_noon 1709210096789 (Some "  3 Days Ago "%string)
  = parseDate leap_day_noon 1709210096789 (Some "3 days ago"%string).
Proof.
  apply (parseDate_relative_forms_normalised leap_day_noon 1709210096789
           "  3 Days Ago " "3 days ago");
    [discriminate|discriminate|reflexivity|].
  right. right. vm_compute. discriminate.
Defined.

(** X12. On a clock reading at least a day inside the range of dates,
    and on a local day whose clocks have not changed between its
    midnight and the clock reading, a bound that reads "today" parses
    to the ISO form of an instant: the start of the local day the clock
    is in, at most 24 hours before the clock. *)
Theorem parseDate_today_is_local_midnight :
  forall (env : Env) (now : Z) (dateStr : string),
    dateStr <> ""%string ->
    JsString.trim (JsString.toLowerCase dateStr) = "today"%string ->
    Z.abs now <= 8640000000000000 - JsDate.msPerDay ->
    let zone := timeZone env in
    JsDate.offsetAtLocal zone (JsDate.Day (JsDate.LocalTime zone now) * JsDate.msPerDay)
    = JsDate.offsetAtUTC zone now ->
    exists m iso,
      parseDate env now (Some dateStr) = Normal (Some iso) /\
      JsDate.toISOString (Some m) = Normal iso /\
      m <= now < m + JsDate.msPerDay /\
      (m + JsDate.offsetAtUTC zone now) mod JsDate.msPerDay = 0.
Proof.
  intros env now dateStr Hne Hstr Hnow zone Hzone.
  assert (JsDate.TimeClip now = Some now) as Hclip.
  { unfold JsDate.TimeClip, JsDate.msPerDay in *.
    destruct (Z.leb_spec (Z.abs now) 8640000000000000); [done|lia]. }
  destruct (parseDate_relative env now dateStr Hne Hclip) as (Htoday & _).
  fold zone in Htoday.
  set (m := localMidnight zone (JsDate.LocalTime zone now)).
  assert (m = JsDate.Day (now + JsDate.offsetAtUTC zone now) * JsDate.msPerDay
              - JsDate.offsetAtUTC zone now) as Hmid.
  { subst m. unfold localMidnight, JsDate.UTC. rewrite Hzone. done. }
  assert (m <= now < m + JsDate.msPerDay) as Hm.
  { rewrite Hmid. unfold JsDate.Day, JsDate.msPerDay.
    pose proof (Z.div_mod (now + JsDate.offsetAtUTC zone now) 86400000 ltac:(done)).
    pose proof (Z.mod_pos_bound (now + JsDate.offsetAtUTC zone now) 86400000 ltac:(done)).
    lia. }
  assert (JsDate.TimeClip m = Some m) as Hclipm.
  { unfold JsDate.TimeClip, JsDate.msPerDay in *.
    destruct (Z.leb_spec (Z.abs m) 8640000000000000); [done|lia]. }
  destruct (JsDate.toISOString (Some m)) as [iso|e] eqn:Hiso; [|done].
  exists m, iso. split_and!; try done; try lia.
  - rewrite (Htoday Hstr). fold m. by rewrite Hclipm, Hiso.
  - rewrite Hmid.
    replace (JsDate.Day (now + JsDate.offsetAtUTC zone now) * JsDate.msPerDay
             - JsDate.offsetAtUTC zone now + JsDate.offsetAtUTC zone now)
      with (JsDate.Day (now + JsDate.offsetAtUTC zone now) * JsDate.msPerDay) by lia.
    apply Z.mod_mul. done.
Qed.

(** Noon of 4 July 2024 in New York. *)
Lemma parseDate_today_is_local_midnight_witness :
  exists m iso,
    parseDate (in_zone new_york_2024 1720108800000) 1720108800000 (Some " Today"%string)
    = Normal (Some iso) /\
    JsDate.toISOString (Some m) = Normal iso /\
    m <= 1720108800000 < m + JsDate.msPerDay /\
    (m - 14400000) mod JsDate.msPerDay = 0.
Proof.
  apply (parseDate_today_is_local_midnight (in_zone new_york_2024 1720108800000)
           1720108800000 " Today");
    [discriminate|reflexivity|vm_compute; discriminate|reflexivity].
Defined.
(** ** The calls a search makes *)

Section RunGrowth.

Variable env : Env.
Variable searchTerms : SearchTerms.
Variable filterTerms : FilterTerms.
Variable maxCount : Z.
Variable orderBy : string.
Variable skip : Z.

(** A part of the function only appends to the run: at most one call
    per strategy name pushed, at most one name per attempt, and a call
    whenever it returns. *)
Definition grows (returned : bool) (r r' : Run) : Prop :=
  exists cs ss ats,
    calls r' = calls r ++ cs /\
    searchAttempts r' = searchAttempts r ++ ss /\
    attempts r' = attempts r ++ ats /\
    (length cs <= length ss <= length ats)%nat /\
    (returned = true -> (1 <= length cs)%nat).

Definition returns (f : Flow) : bool :=
  match f with
  | Return _ => true
  | Next => false
  end.

Lemma grows_refl r : grows false r r.
Proof. exists [], [], []. rewrite !app_nil_r. split_and!; simpl; done || lia. Qed.

Lemma grows_trans b r1 r2 r3 :
  grows false r1 r2 -> grows b r2 r3 -> grows b r1 r3.
Proof.
  intros (c1 & s1 & a1 & Hc1 & Hs1 & Ha1 & Hl1 & _)
         (c2 & s2 & a2 & Hc2 & Hs2 & Ha2 & Hl2 & Hb).
  exists (c1 ++ c2), (s1 ++ s2), (a1 ++ a2).
  rewrite Hc2, Hs2, Ha2, Hc1, Hs1, Ha1, !app_assoc, !length_app.
  split_and!; try done; try lia. intros H. specialize (Hb H). lia.
Qed.

Ltac one_attempt :=
  repeat match goal with
    | |- context [match ?c with Normal _ => _ | Throw _ => _ end] => destruct c
    | |- context [if ?c then _ else _] => destruct c
    end;
  unfold grows, record, push;
  cbn [fst snd returns calls searchAttempts attempts];
  do 3 eexists; split_and!;
  first [ reflexivity
        | symmetry; apply app_nil_r
        | simpl; lia
        | simpl; intros; first [done | lia] ].

Lemma combinedSearch_grows r :
  grows (returns (combinedSearch env searchTerms filterTerms maxCount orderBy skip r).1)
        r (combinedSearch env searchTerms filterTerms maxCount orderBy skip r).2.
Proof. unfold combinedSearch, call. one_attempt. Qed.

Lemma singleTermSearch_grows term r :
  grows (returns (singleTermSearch env searchTerms filterTerms maxCount orderBy skip
                                   term r).1)
        r (singleTermSearch env searchTerms filterTerms maxCount orderBy skip term r).2.
Proof. unfold singleTermSearch, call. one_attempt. Qed.

Lemma singleTermLoop_grows terms : forall r,
  grows (returns (singleTermLoop env searchTerms filterTerms maxCount orderBy skip
                                 terms r).1)
        r (singleTermLoop env searchTerms filterTerms maxCount orderBy skip terms r).2.
Proof.
  induction terms as [|term terms IH]; intros r; simpl; [apply grows_refl|].
  pose proof (singleTermSearch_grows term r) as H.
  destruct (singleTermSearch env searchTerms filterTerms maxCount orderBy skip term r)
    as [[resp|] r1]; [done|].
  eapply grows_trans; [exact H|apply IH].
Qed.

Lemma filtersOnlySearch_grows r :
  grows (returns (filtersOnlySearch env filterTerms maxCount orderBy skip r).1)
        r (filtersOnlySearch env filterTerms maxCount orderBy skip r).2.
Proof. unfold filtersOnlySearch, call. one_attempt. Qed.

Lemma basicListing_grows r :
  grows true r (basicListing env searchTerms filterTerms maxCount orderBy skip r).2.
Proof. unfold basicListing, call. one_attempt. Qed.

End RunGrowth.

Lemma progressiveSearch_grows env st ft maxCount sortOrder skip :
  grows true (mkRun [] [] []) (progressiveSearch env st ft maxCount sortOrder skip).2.
Proof.
  unfold progressiveSearch.
  set (orderBy := "receivedDateTime " +:+ sortOrder).
  pose proof (combinedSearch_grows env st ft maxCount orderBy skip (mkRun [] [] [])) as H1.
  destruct (combinedSearch env st ft maxCount orderBy skip (mkRun [] [] []))
    as [[resp|] r1]; [done|].
  pose proof (singleTermLoop_grows env st ft maxCount orderBy skip searchPriority r1) as H2.
  destruct (singleTermLoop env st ft maxCount orderBy skip searchPriority r1)
    as [[resp|] r2]; [by eapply grows_trans|].
  pose proof (filtersOnlySearch_grows env ft maxCount orderBy skip r2) as H3.
  destruct (filtersOnlySearch env ft maxCount orderBy skip r2)
    as [[resp|] r3]; [eapply grows_trans; [done|by eapply grows_trans]|].
  eapply grows_trans; [done|]. eapply grows_trans; [done|]. eapply grows_trans; [done|].
  apply basicListing_grows.
Qed.

(** X13. A search makes at least one remote call and at most seven:
    no more calls than strategy names it pushed on [searchAttempts], no
    more names than attempts it began, and no more attempts than the
    plan holds strategies. *)
Theorem progressiveSearch_call_count :
  forall (env : Env) (searchTerms : SearchTerms) (filterTerms : FilterTerms)
         (maxCount : Z) (sortOrder : string) (skip : Z),
    let run := (progressiveSearch env searchTerms filterTerms maxCount sortOrder skip).2 in
    (1 <= length (calls run) <= length (searchAttempts run))%nat /\
    (length (searchAttempts run) <= length (attempts run)
     <= length (plan searchTerms filterTerms))%nat /\
    (length (plan searchTerms filterTerms) <= 7)%nat.
Proof.
  intros env st ft maxCount sortOrder skip run.
  destruct (progressiveSearch_grows env st ft maxCount sortOrder skip)
    as (cs & ss & ats & Hc & Hs & Ha & Hl & H1).
  fold run in Hc, Hs, Ha. simpl in Hc, Hs, Ha. specialize (H1 eq_refl).
  destruct (cascade_last_attempt env st ft maxCount sortOrder skip)
    as (init & s & a & rest & _ & Hplan & _).
  cbv zeta in Hplan. fold run in Hplan.
  assert (length (plan st ft) <= 7)%nat as H7.
  { unfold plan. etrans; [apply List.filter_length_le|]. done. }
  rewrite Hc, Hs, Ha. split_and!; try lia.
  rewrite Hplan, length_app, length_map, Ha. lia.
Qed.
(** *** Requests a search repeats *)

Lemma addFilters_no_filters env now params ft :
  hasFilters ft = false -> addFilters env now params ft = Normal params.
Proof.
  unfold hasFilters, addFilters, filterConditions.
  destruct (hasAttachments ft) as [[|]|], (unreadOnly ft) as [[|]|]; try done;
    intros [-> ->]%orb_false_elim; reflexivity.
Qed.

Lemma buildSearchParams_no_terms env now ft count orderBy skip :
  hasFilters ft = false ->
  buildSearchParams env now no_terms ft count orderBy skip
  = Normal (baseParams env count orderBy skip).
Proof. intros H. unfold buildSearchParams. simpl. by apply addFilters_no_filters. Qed.

Lemma singleTermSearch_skip env st ft maxCount orderBy skip term r :
  getTerm st term = ""%string ->
  singleTermSearch env st ft maxCount orderBy skip term r = (Next, r).
Proof. intros H. unfold singleTermSearch. by rewrite H. Qed.

Lemma singleTermLoop_skip env st ft maxCount orderBy skip terms r :
  (forall t, t ∈ terms -> getTerm st t = ""%string) ->
  singleTermLoop env st ft maxCount orderBy skip terms r = (Next, r).
Proof.
  induction terms as [|t terms IH]; intros H; simpl; [done|].
  rewrite singleTermSearch_skip by (apply H; left).
  apply IH. intros t' Ht'. apply H. by right.
Qed.

(** X14. A search without terms and without filters is a listing: the
    combined search sends the request of the basic listing, and when it
    finds nothing or fails the basic listing sends that request
    again. *)
Theorem search_without_criteria_lists_twice :
  forall (env : Env) (filterTerms : FilterTerms) (maxCount : Z)
         (sortOrder : string) (skip : Z),
    hasFilters filterTerms = false ->
    let listing :=
      (baseParams env (Z.min 50 maxCount) ("receivedDateTime " +:+ sortOrder) skip,
       maxCount) in
    let found := match callGraphAPIPaginated env O listing.1 maxCount with
                 | Normal x => hasItems x
                 | Throw _ => false
                 end in
    calls (progressiveSearch env no_terms filterTerms maxCount sortOrder skip).2
    = (if found then [listing] else [listing; listing]) /\
    plan no_terms filterTerms = [Combined; BasicListing].
Proof.
  intros env ft maxCount sortOrder skip Hf listing found. split.
  - subst found listing. cbn [fst].
    unfold progressiveSearch, combinedSearch.
    rewrite buildSearchParams_no_terms by done. unfold call. cbn [calls length push].
    set (base := baseParams env (Z.min 50 maxCount) ("receivedDateTime " +:+ sortOrder) skip).
    destruct (callGraphAPIPaginated env O base maxCount) as [x|m] eqn:Ha.
    + destruct (hasItems x) eqn:Hi; [done|].
      rewrite singleTermLoop_skip by (by intros []).
      unfold filtersOnlySearch. rewrite Hf.
      unfold basicListing, call. simpl.
      by destruct (callGraphAPIPaginated env 1 _ maxCount).
    + rewrite singleTermLoop_skip by (by intros []).
      unfold filtersOnlySearch. rewrite Hf.
      unfold basicListing, call. simpl.
      by destruct (callGraphAPIPaginated env 1 _ maxCount).
  - unfold plan, strategyOrder. simpl. by rewrite Hf.
Qed.

Lemma search_without_criteria_lists_twice_witness :
  calls (progressiveSearch (scripted []) no_terms no_filters 10 "desc" 0).2
  = [(baseParams (scripted []) 10 "receivedDateTime desc" 0, 10);
     (baseParams (scripted []) 10 "receivedDateTime desc" 0, 10)] /\
  plan no_terms no_filters = [Combined; BasicListing].
Proof.
  apply (search_without_criteria_lists_twice (scripted []) no_filters 10 "desc" 0).
  reflexivity.
Defined.

Lemma buildSearchParams_single_field env now st ft count orderBy skip term :
  term <> Query ->
  getTerm st term <> ""%string ->
  (forall t, t <> term -> getTerm st t = ""%string) ->
  buildSearchParams env now st ft count orderBy skip
  = addFilters env now
      (set_search (Some (termName term +:+ ":" +:+ dquote +:+ getTerm st term +:+ dquote))
                  (baseParams env count orderBy skip))
      ft.
Proof.
  intros Hq Hne Hothers. destruct st as [q f t s].
  pose proof (Hothers Subject) as HS. pose proof (Hothers From) as HF.
  pose proof (Hothers To) as HT. pose proof (Hothers Query) as HQ.
  unfold buildSearchParams. cbn [Search.query Search.from Search.to Search.subject].
  destruct term; simpl in *; try done.
  - rewrite HF, HT, HQ by done. simpl.
    destruct (String.eqb_spec s ""); [done|]. reflexivity.
  - rewrite HS, HT, HQ by done. simpl.
    destruct (String.eqb_spec f ""); [done|]. reflexivity.
  - rewrite HS, HF, HQ by done. simpl.
    destruct (String.eqb_spec t ""); [done|]. reflexivity.
Qed.

Lemma singleTermLoop_first_call env st ft maxCount orderBy skip term p terms : forall r,
  term <> Query ->
  getTerm st term <> ""%string ->
  (forall t, t <> term -> getTerm st t = ""%string) ->
  (forall r', addFilters env (now_of env r')
                (set_search (Some (termName term +:+ ":" +:+ dquote
                                   +:+ getTerm st term +:+ dquote))
                            (baseParams env (Z.min 50 maxCount) orderBy skip))
                ft = Normal p) ->
  term ∈ terms ->
  exists cs,
    calls (singleTermLoop env st ft maxCount orderBy skip terms r).2
    = calls r ++ (p, maxCount) :: cs.
Proof.
  intros r Hq Hne Hothers Hp. revert r.
  induction terms as [|t terms IH]; intros r Hin; [by apply elem_of_nil in Hin|].
  simpl.
  assert (t = term \/ t <> term) as [->|Hneq]
    by (destruct t, term; (by left) || (by right)).
  - pose proof (singleTermLoop_grows env st ft maxCount orderBy skip terms) as Hrest.
    unfold singleTermSearch.
    destruct (String.eqb_spec (getTerm st term) ""); [done|].
    assert ((match term with
             | Query => set_search (Some (dquote +:+ getTerm st term +:+ dquote))
                                   (baseParams env (Z.min 50 maxCount) orderBy skip)
             | _ => set_search (Some (termName term +:+ ":" +:+ dquote
                                      +:+ getTerm st term +:+ dquote))
                               (baseParams env (Z.min 50 maxCount) orderBy skip)
             end)
            = set_search (Some (termName term +:+ ":" +:+ dquote
                                +:+ getTerm st term +:+ dquote))
                         (baseParams env (Z.min 50 maxCount) orderBy skip)) as ->
        by by destruct term.
    rewrite Hp. unfold call. cbn [calls push].
    destruct (callGraphAPIPaginated env (length (calls r)) p maxCount) as [x|m].
    + destruct (hasItems x); cbn [snd record calls]; [by exists []|].
      match goal with
      | |- context [singleTermLoop _ _ _ _ _ _ _ ?r1] =>
          destruct (Hrest r1) as (cs & _ & _ & Hc & _)
      end.
      rewrite Hc. unfold record. cbn [calls]. exists cs. by rewrite <- app_assoc.
    + cbn [snd record calls].
      match goal with
      | |- context [singleTermLoop _ _ _ _ _ _ _ ?r1] =>
          destruct (Hrest r1) as (cs & _ & _ & Hc & _)
      end.
      rewrite Hc. unfold record. cbn [calls]. exists cs. by rewrite <- app_assoc.
  - rewrite singleTermSearch_skip by by apply Hothers.
    apply IH. apply elem_of_cons in Hin as [->|Hin]; done.
Qed.

(** X15. A search on one field alone (subject, sender or recipient)
    whose combined search finds nothing sends the same request a second
    time: the single-term search for that field builds the parameters
    the combined search built.  The clock is taken to stand still for
    the duration of the search. *)
Theorem single_field_search_repeats_request :
  forall (env : Env) (searchTerms : SearchTerms) (filterTerms : FilterTerms)
         (maxCount : Z) (sortOrder : string) (skip : Z)
         (term : Term) (p : Params) (x : ApiResponse),
    term <> Query ->
    getTerm searchTerms term <> ""%string ->
    (forall t, t <> term -> getTerm searchTerms t = ""%string) ->
    (forall n, clock env n = clock env O) ->
    buildSearchParams env (clock env O) searchTerms filterTerms (Z.min 50 maxCount)
                      ("receivedDateTime " +:+ sortOrder) skip = Normal p ->
    callGraphAPIPaginated env O p maxCount = Normal x ->
    hasItems x = false ->
    exists rest,
      calls (progressiveSearch env searchTerms filterTerms maxCount sortOrder skip).2
      = (p, maxCount) :: (p, maxCount) :: rest.
Proof.
  intros env st ft maxCount sortOrder skip term p x Hq Hne Hothers Hclock Hbuild Ha Hi.
  unfold progressiveSearch.
  set (orderBy := "receivedDateTime " +:+ sortOrder) in *.
  unfold combinedSearch. unfold now_of at 1. cbn [calls length].
  rewrite Hbuild. unfold call. cbn [calls length push]. rewrite Ha, Hi.
  set (r1 := record Combined (Normal x) _).
  assert (forall r', addFilters env (now_of env r')
                (set_search (Some (termName term +:+ ":" +:+ dquote
                                   +:+ getTerm st term +:+ dquote))
                            (baseParams env (Z.min 50 maxCount) orderBy skip))
                ft = Normal p) as Hp.
  { intros r'. unfold now_of. rewrite Hclock, <- Hbuild.
    symmetry. by apply buildSearchParams_single_field. }
  assert (term ∈ searchPriority) as Hin.
  { unfold searchPriority. destruct term; set_solver. }
  destruct (singleTermLoop_first_call env st ft maxCount orderBy skip term p
              searchPriority r1 Hq Hne Hothers Hp Hin) as (cs & Hcs).
  destruct (singleTermLoop env st ft maxCount orderBy skip searchPriority r1)
    as [[resp|] r2]; cbn [snd] in *.
  { exists cs. by rewrite Hcs. }
  pose proof (filtersOnlySearch_grows env ft maxCount orderBy skip r2) as H3.
  destruct (filtersOnlySearch env ft maxCount orderBy skip r2) as [[resp|] r3];
    cbn [snd] in *.
  { destruct H3 as (c3 & _ & _ & Hc3 & _). exists (cs ++ c3).
    rewrite Hc3, Hcs. simpl. done. }
  destruct H3 as (c3 & _ & _ & Hc3 & _).
  destruct (basicListing_grows env st ft maxCount orderBy skip r3)
    as (c4 & _ & _ & Hc4 & _).
  exists ((cs ++ c3) ++ c4). rewrite Hc4, Hc3, Hcs. simpl.
  by rewrite <- !app_assoc.
Qed.

Lemma single_field_search_repeats_request_witness :
  exists rest,
    calls (progressiveSearch subject_after_combined only_subject no_filters 10 "desc" 0).2
    = (set_search (Some ("subject:" +:+ dquote +:+ "invoice" +:+ dquote))
                  (baseParams subject_after_combined 10 "receivedDateTime desc" 0), 10)
      :: (set_search (Some ("subject:" +:+ dquote +:+ "invoice" +:+ dquote))
                     (baseParams subject_after_combined 10 "receivedDateTime desc" 0), 10)
      :: rest.
Proof.
  apply (single_field_search_repeats_request subject_after_combined only_subject
           no_filters 10 "desc" 0 Subject _ no_items);
    [discriminate|discriminate|by intros [] H|reflexivity|reflexivity|reflexivity
    |reflexivity].
Defined.
(** ** Properties of the search and list handlers *)

(** X16. Once authenticated, what [handleSearchEmails] answers is
    decided by the last attempt of the search alone.  An error is
    reported only when that attempt is the basic listing and its call
    failed; otherwise the answer is the formatted result of the last
    attempt, with the strategy line only when that attempt is the basic
    listing.  Errors of the earlier attempts never reach the caller. *)
Theorem handleSearchEmails_reports_last_attempt :
  forall (env : EmailHandlers.Env) (render : Z -> Email -> string)
         (args : EmailHandlers.SearchArgs) (accessToken : string),
    EmailHandlers.ensureAuthenticated env = Normal accessToken ->
    let out := EmailHandlers.handleSearchEmails env render args in
    exists run init s a,
      out.2 = Some run /\
      attempts run = init ++ [(s, a)] /\
      match a with
      | Throw m =>
          s = BasicListing /\
          out.1 = EmailHandlers.report "Error searching emails: " m
      | Normal x =>
          exists info,
            out.1 = formatSearchResults render (mkResponse (api_value x) info)
                      (JsText.orString (EmailHandlers.sortOrder args) "desc")
                      (Tool.orNumber (EmailHandlers.skip args) 0) /\
            match info with
            | Some i =>
                s = BasicListing /\ last (strategies i) = Some "basic-listing"%string
            | None => s <> BasicListing
            end
      end.
Proof.
  intros env render args accessToken Hauth out. subst out.
  unfold EmailHandlers.handleSearchEmails. rewrite Hauth.
  match goal with
  | |- context [progressiveSearch ?e ?st ?ft ?k ?so ?sk] =>
      pose proof (cascade_of_progressiveSearch e st ft k so sk) as Hc;
      unfold cascade in Hc; cbv zeta in Hc;
      pose proof (searchInfo_only_from_basic_listing e st ft k so sk) as Hi;
      destruct (progressiveSearch e st ft k so sk) as [response run]
  end.
  destruct Hc as (init & s & a & rest & Hatt & _ & _ & _ & Hout).
  cbn [fst snd] in *. exists run, init, s, a.
  destruct response as [resp|m], a as [x|m']; try done; cbn [fst snd].
  - split_and!; try done. specialize (Hi resp eq_refl).
    destruct resp as [v info]. simpl in Hout. cbn [value _searchInfo] in *. subst v.
    exists info. split; [done|]. rewrite Hatt, last_snoc in Hi.
    destruct info as [i|].
    + destruct Hi as (_ & Hl & x' & [= -> _]). done.
    + destruct Hi as (s' & x' & [= -> _] & Hs). done.
  - destruct Hout as [-> ->]. done.
Qed.

(** A mailbox service for the handlers: authenticated, folders Inbox
    and Projects, and the search service [searchEnv] on every
    endpoint. *)
Definition mail_service (searchEnv : Search.Env) : EmailHandlers.Env :=
  EmailHandlers.mkEnv (Normal "token-1"%string) two_folders (fun _ _ => searchEnv).

Definition unread_args : EmailHandlers.SearchArgs :=
  EmailHandlers.mkSearchArgs None None None None None None None (Some true) None
                             None None None None.

Lemma handleSearchEmails_reports_last_attempt_witness :
  exists run init s a,
    (EmailHandlers.handleSearchEmails (mail_service filters_call_fails)
                                      (fun _ e => email_subject e) unread_args).2
    = Some run /\
    attempts run = init ++ [(s, a)] /\
    match a with
    | Throw m =>
        s = BasicListing /\
        (EmailHandlers.handleSearchEmails (mail_service filters_call_fails)
                                          (fun _ e => email_subject e) unread_args).1
        = EmailHandlers.report "Error searching emails: " m
    | Normal x =>
        exists info,
          (EmailHandlers.handleSearchEmails (mail_service filters_call_fails)
                                            (fun _ e => email_subject e) unread_args).1
          = formatSearchResults (fun _ e => email_subject e)
                                (mkResponse (api_value x) info) "desc" 0 /\
          match info with
          | Some i =>
              s = BasicListing /\ last (strategies i) = Some "basic-listing"%string
          | None => s <> BasicListing
          end
    end.
Proof.
  apply (handleSearchEmails_reports_last_attempt (mail_service filters_call_fails)
           (fun _ e => email_subject e) unread_args "token-1").
  reflexivity.
Defined.

(** X17. On ASCII text, a folder name that is not well known and that
    the lookup does not find makes [handleListEmails] list the inbox of
    the mailbox, while its answer names the folder that was asked
    for. *)
Theorem handleListEmails_unknown_folder_lists_inbox :
  forall (env : EmailHandlers.Env) (render : Z -> Email -> string)
         (args : EmailHandlers.ListArgs) (accessToken name : string),
    EmailHandlers.ensureAuthenticated env = Normal accessToken ->
    EmailHandlers.list_folder args = Some name ->
    name <> ""%string ->
    let mailbox := JsText.orNull (EmailHandlers.list_mailbox args) in
    let count := Tool.orNumber (EmailHandlers.list_count args) 10 in
    let inbox := VString (inboxPath mailbox) in
    asciiLookup (EmailHandlers.graph env) name mailbox ->
    getWellKnownFolders mailbox !! JsString.toLowerCase name = None ->
    objectPrototype !! JsString.toLowerCase name = None ->
    getFolderIdByName (EmailHandlers.graph env) name mailbox = None ->
    let out := EmailHandlers.handleListEmails env render args in
    let request := listEmailsRequest (EmailHandlers.searchOn env accessToken inbox) count in
    out.2 = [(inbox, request.1, count)] /\
    match callGraphAPIPaginated (EmailHandlers.searchOn env accessToken inbox) O
                                request.1 count with
    | Normal (mkApiResponse (Some (e :: l))) =>
        exists rest,
          out.1 = "Found " +:+ pretty (S (length l)) +:+ " emails in " +:+ name +:+ rest
    | Normal _ =>
        out.1 = "No emails found in " +:+ name +:+ Tool.mailboxInfo mailbox +:+ "."
    | Throw m => out.1 = EmailHandlers.report "Error listing emails: " m
    end.
Proof.
  intros env render args accessToken name Hauth Hfolder Hne mailbox count inbox
         _ Hw Hp Hid out request.
  subst out request. unfold EmailHandlers.handleListEmails.
  rewrite Hauth, Hfolder. fold mailbox. fold count.
  assert (JsText.orString (Some name) "inbox" = name) as ->.
  { unfold JsText.orString. by destruct (String.eqb_spec name ""). }
  assert (resolveFolderPath (EmailHandlers.graph env) (Some name) mailbox = inbox) as ->.
  { unfold resolveFolderPath. destruct (String.eqb name ""); [apply inboxOf_wellKnown|].
    unfold getProperty. rewrite Hw, Hp. cbn [truthy]. rewrite Hid.
    apply inboxOf_wellKnown. } unfold listEmailsRequest. cbn [fst snd].
  destruct (callGraphAPIPaginated _ O _ count) as [[[[|e l]|]]|m];
    cbn [fst snd api_value]; split; try done.
  eexists. reflexivity.
Qed.

Definition receipts_args : EmailHandlers.ListArgs :=
  EmailHandlers.mkListArgs (Some "Receipts"%string) (Some 5) None.

Lemma handleListEmails_unknown_folder_lists_inbox_witness :
  (EmailHandlers.handleListEmails
     (mail_service (scripted [Normal (mkApiResponse (Some [invoice_mail]))]))
     (fun _ e => email_subject e) receipts_args).2
  = [(VString "me/mailFolders/inbox/messages",
      mkParams 5 "id,subject,receivedDateTime" "receivedDateTime desc" None None None,
      5)] /\
  exists rest,
    (EmailHandlers.handleListEmails
       (mail_service (scripted [Normal (mkApiResponse (Some [invoice_mail]))]))
       (fun _ e => email_subject e) receipts_args).1
    = "Found " +:+ pretty 1%nat +:+ " emails in " +:+ "Receipts" +:+ rest.
Proof.
  apply (handleListEmails_unknown_folder_lists_inbox
           (mail_service (scripted [Normal (mkApiResponse (Some [invoice_mail]))]))
           (fun _ e => email_subject e) receipts_args "token-1" "Receipts");
    try reflexivity; [discriminate|].
  split_and!; [reflexivity..|]. intros l [= <-]. reflexivity.
Defined.
(** ** Properties of the category handlers *)

Section CategoryFacts.

Import JsText.

Lemma orString_empty v : orString v "" = ""%string -> truthyStr v = false.
Proof.
  unfold orString, truthyStr. destruct v as [s|]; [|done].
  by destruct (String.eqb_spec s "").
Qed.

Lemma orString_nonempty v s :
  orString v "" = s -> s <> ""%string -> v = Some s.
Proof.
  unfold orString. destruct v as [t|]; [|by intros <-].
  destruct (String.eqb_spec t ""); [by intros <-|by intros ->].
Qed.

Lemma filter_out_absent (category : string) (current : list string) :
  category ∉ current -> filter (fun c => c ≠ category) current = current.
Proof.
  induction current as [|c l IH]; intros Hn; [done|].
  apply not_elem_of_cons in Hn as [Hc Hl].
  rewrite filter_cons_True by done. f_equal. by apply IH.
Qed.

Lemma filter_out_added (category : string) (current : list string) :
  category ∉ current ->
  filter (fun c => c ≠ category) (current ++ [category]) = current.
Proof.
  intros Hn. rewrite filter_app, filter_out_absent by done.
  rewrite filter_cons_False by (by intros H; apply H).
  by rewrite filter_nil, app_nil_r.
Qed.

End CategoryFacts.

Ltac trace_cases H :=
  repeat match type of H with
    | _ ∈ [] => by apply elem_of_nil in H
    | _ ∈ _ :: _ => apply elem_of_cons in H as [H|H]; [try discriminate H|]
    end.

Lemma removeCategory_patch env emailId category mailbox accessToken path updated :
  (Categories.Patch accessToken path updated)
    ∈ ((Categories.removeCategory env emailId category mailbox).2) ->
  exists current,
    Categories.ensureAuthenticated env = Normal accessToken /\
    path = getMailboxBasePath mailbox +:+ "/messages/" +:+ emailId /\
    Categories.callGet env accessToken path
    = Normal (Categories.mkMessage (Some current)) /\
    category ∈ current /\
    updated = filter (fun c => c ≠ category) current /\
    (Categories.removeCategory env emailId category mailbox).2
    = [Categories.Get accessToken path; Categories.Patch accessToken path updated].
Proof.
  unfold Categories.removeCategory.
  destruct (Categories.ensureAuthenticated env) as [tok|m] eqn:Hauth;
    [|intros H; cbn [snd] in H; trace_cases H].
  destruct (Categories.callGet env tok _) as [[cur]|m] eqn:Hget;
    [|intros H; cbn [snd] in H; trace_cases H].
  cbn [Categories.categories].
  destruct (bool_decide (category ∈ default [] cur)) eqn:Hin; cbn [negb];
    [|intros H; cbn [snd] in H; trace_cases H].
  apply bool_decide_eq_true in Hin.
  destruct cur as [cur|]; [|by apply elem_of_nil in Hin]. simpl in Hin.
  destruct (Categories.callPatch env tok _ _) as [[]|m]; cbn [snd default];
    intros H; trace_cases H; injection H as H1 H2 H3; subst; by exists cur.
Qed.

Lemma handleRemoveCategory_calls env args :
  (Categories.handleRemoveCategory env args).2
  = if String.eqb (JsText.orString (Categories.id args) "") ""
       || String.eqb (JsText.orString (Categories.category args) "") ""
    then []
    else (Categories.removeCategory env
            (JsText.orString (Categories.id args) "")
            (JsText.orString (Categories.category args) "")
            (JsText.orNull (Categories.mailbox args))).2.
Proof.
  unfold Categories.handleRemoveCategory.
  destruct (String.eqb (JsText.orString (Categories.id args) "") ""); [done|].
  destruct (String.eqb (JsText.orString (Categories.category args) "") ""); [done|].
  cbn [orb].
  destruct (Categories.removeCategory _ _ _ _) as [[text|m] calls]; [done|].
  by destruct (String.eqb m _).
Qed.

(** X18. [handleRemoveCategory] patches a message only after reading
    its categories and finding the category among them, and only with
    the list it read minus that category: every other category is kept,
    in order.  The read and the patch are then its only calls. *)
Theorem handleRemoveCategory_patches_only_removal :
  forall (env : Categories.Env) (args : Categories.Args)
         (accessToken path : string) (updated : list string),
    (Categories.Patch accessToken path updated)
      ∈ ((Categories.handleRemoveCategory env args).2) ->
    exists emailId category current,
      Categories.id args = Some emailId /\ emailId <> ""%string /\
      Categories.category args = Some category /\ category <> ""%string /\
      Categories.ensureAuthenticated env = Normal accessToken /\
      path = getMailboxBasePath (JsText.orNull (Categories.mailbox args))
             +:+ "/messages/" +:+ emailId /\
      Categories.callGet env accessToken path
      = Normal (Categories.mkMessage (Some current)) /\
      category ∈ current /\
      updated = filter (fun c => c ≠ category) current /\
      (category ∉ updated) /\
      updated `sublist_of` current /\
      (Categories.handleRemoveCategory env args).2
      = [Categories.Get accessToken path; Categories.Patch accessToken path updated].
Proof.
  intros env args accessToken path updated.
  rewrite handleRemoveCategory_calls.
  destruct (String.eqb_spec (JsText.orString (Categories.id args) "") "") as [_|Hid];
    [intros H; by apply elem_of_nil in H|].
  destruct (String.eqb_spec (JsText.orString (Categories.category args) "") "")
    as [_|Hcat]; [intros H; by apply elem_of_nil in H|].
  cbn [orb]. intros H.
  destruct (removeCategory_patch _ _ _ _ _ _ _ H) as (cur & Hauth & Hp & Hget & Hin & Hu & Ht).
  exists (JsText.orString (Categories.id args) ""),
         (JsText.orString (Categories.category args) ""), cur.
  split_and!; try done.
  - by apply orString_nonempty.
  - by apply orString_nonempty.
  - rewrite Hu. intros [Hc _]%list_elem_of_filter. by apply Hc.
  - rewrite Hu. apply sublist_filter.
Qed.

(** A message with two categories, on a service that accepts the patch. *)
Definition two_categories : Categories.Env :=
  Categories.mkEnv (Normal "token-1"%string)
    (fun _ _ => Normal (Categories.mkMessage (Some ["Red Category"; "Blue Category"]%string)))
    (fun _ _ _ => Normal tt).

Definition remove_red : Categories.Args :=
  Categories.mkArgs (Some "email-123"%string) (Some "Red Category"%string) None.

Lemma handleRemoveCategory_patches_only_removal_witness :
  exists emailId category current,
    Categories.id remove_red = Some emailId /\ emailId <> ""%string /\
    Categories.category remove_red = Some category /\ category <> ""%string /\
    Categories.ensureAuthenticated two_categories = Normal "token-1"%string /\
    "me/messages/email-123"%string
    = getMailboxBasePath (JsText.orNull (Categories.mailbox remove_red))
      +:+ "/messages/" +:+ emailId /\
    Categories.callGet two_categories "token-1" "me/messages/email-123"
    = Normal (Categories.mkMessage (Some current)) /\
    category ∈ current /\
    ["Blue Category"%string] = filter (fun c => c ≠ category) current /\
    (category ∉ ["Blue Category"%string]) /\
    ["Blue Category"%string] `sublist_of` current /\
    (Categories.handleRemoveCategory two_categories remove_red).2
    = [Categories.Get "token-1" "me/messages/email-123";
       Categories.Patch "token-1" "me/messages/email-123" ["Blue Category"%string]].
Proof.
  apply (handleRemoveCategory_patches_only_removal two_categories remove_red
           "token-1" "me/messages/email-123" ["Blue Category"%string]).
  vm_compute. right. left.
Defined.

Lemma addCategory_patch env emailId category mailbox accessToken path updated :
  (Categories.Patch accessToken path updated)
    ∈ ((Categories.addCategory env emailId category mailbox).2) ->
  exists current,
    Categories.ensureAuthenticated env = Normal accessToken /\
    path = getMailboxBasePath mailbox +:+ "/messages/" +:+ emailId /\
    Categories.categories <$> (match Categories.callGet env accessToken path with
                               | Normal email => Some email
                               | Throw _ => None
                               end) = Some current /\
    (category ∉ default [] current) /\
    updated = default [] current ++ [category] /\
    (Categories.addCategory env emailId category mailbox).2
    = [Categories.Get accessToken path; Categories.Patch accessToken path updated].
Proof.
  unfold Categories.addCategory.
  destruct (Categories.ensureAuthenticated env) as [tok|m] eqn:Hauth;
    [|intros H; cbn [snd] in H; trace_cases H].
  destruct (Categories.callGet env tok _) as [[cur]|m] eqn:Hget;
    [|intros H; cbn [snd] in H; trace_cases H].
  cbn [Categories.categories].
  destruct (bool_decide (category ∈ default [] cur)) eqn:Hin;
    [intros H; cbn [snd] in H; trace_cases H|].
  apply bool_decide_eq_false in Hin.
  destruct (Categories.callPatch env tok _ _) as [[]|m]; cbn [snd];
    intros H; trace_cases H; injection H as H1 H2 H3; subst; exists cur;
    by rewrite Hget.
Qed.

Lemma handleAddCategory_calls env args :
  (Categories.handleAddCategory env args).2
  = if String.eqb (JsText.orString (Categories.id args) "") ""
       || String.eqb (JsText.orString (Categories.category args) "") ""
    then []
    else (Categories.addCategory env
            (JsText.orString (Categories.id args) "")
            (JsText.orString (Categories.category args) "")
            (JsText.orNull (Categories.mailbox args))).2.
Proof.
  unfold Categories.handleAddCategory.
  destruct (String.eqb (JsText.orString (Categories.id args) "") ""); [done|].
  destruct (String.eqb (JsText.orString (Categories.category args) "") ""); [done|].
  cbn [orb].
  destruct (Categories.addCategory _ _ _ _) as [[text|m] calls]; [done|].
  destruct (String.eqb m _); [done|]. by destruct (JsText.includes m _).
Qed.

(** X19. [handleAddCategory] patches a message only after reading its
    categories and not finding the category among them (a message
    without a [categories] property counts as having none), and only
    with the list it read followed by the new category: no category is
    dropped or reordered, and a list without duplicates stays so. *)
Theorem handleAddCategory_patches_only_addition :
  forall (env : Categories.Env) (args : Categories.Args)
         (accessToken path : string) (updated : list string),
    (Categories.Patch accessToken path updated)
      ∈ ((Categories.handleAddCategory env args).2) ->
    exists emailId category read,
      Categories.id args = Some emailId /\ emailId <> ""%string /\
      Categories.category args = Some category /\ category <> ""%string /\
      Categories.ensureAuthenticated env = Normal accessToken /\
      path = getMailboxBasePath (JsText.orNull (Categories.mailbox args))
             +:+ "/messages/" +:+ emailId /\
      Categories.callGet env accessToken path = Normal (Categories.mkMessage read) /\
      (category ∉ default [] read) /\
      updated = default [] read ++ [category] /\
      (NoDup (default [] read) -> NoDup updated) /\
      (Categories.handleAddCategory env args).2
      = [Categories.Get accessToken path; Categories.Patch accessToken path updated].
Proof.
  intros env args accessToken path updated.
  rewrite handleAddCategory_calls.
  destruct (String.eqb_spec (JsText.orString (Categories.id args) "") "") as [_|Hid];
    [intros H; by apply elem_of_nil in H|].
  destruct (String.eqb_spec (JsText.orString (Categories.category args) "") "")
    as [_|Hcat]; [intros H; by apply elem_of_nil in H|].
  cbn [orb]. intros H.
  destruct (addCategory_patch _ _ _ _ _ _ _ H)
    as (cur & Hauth & Hp & Hget & Hin & Hu & Ht).
  destruct (Categories.callGet env accessToken path) as [[read]|m] eqn:Hg; [|done].
  injection Hget as <-.
  exists (JsText.orString (Categories.id args) ""),
         (JsText.orString (Categories.category args) ""), read.
  split_and!; try done.
  - by apply orString_nonempty.
  - by apply orString_nonempty.
  - intros Hnd. rewrite Hu. apply NoDup_app. split_and!; [done| |apply NoDup_singleton].
    intros c Hc ->%list_elem_of_singleton. done.
Qed.

Definition add_green : Categories.Args :=
  Categories.mkArgs (Some "email-123"%string) (Some "Green Category"%string)
                    (Some "team@example.com"%string).

Lemma handleAddCategory_patches_only_addition_witness :
  exists emailId category read,
    Categories.id add_green = Some emailId /\ emailId <> ""%string /\
    Categories.category add_green = Some category /\ category <> ""%string /\
    Categories.ensureAuthenticated two_categories = Normal "token-1"%string /\
    "users/team@example.com/messages/email-123"%string
    = getMailboxBasePath (JsText.orNull (Categories.mailbox add_green))
      +:+ "/messages/" +:+ emailId /\
    Categories.callGet two_categories "token-1" "users/team@example.com/messages/email-123"
    = Normal (Categories.mkMessage read) /\
    (category ∉ default [] read) /\
    ["Red Category"; "Blue Category"; "Green Category"]%string
    = default [] read ++ [category] /\
    (NoDup (default [] read)
     -> NoDup ["Red Category"; "Blue Category"; "Green Category"]%string) /\
    (Categories.handleAddCategory two_categories add_green).2
    = [Categories.Get "token-1" "users/team@example.com/messages/email-123";
       Categories.Patch "token-1" "users/team@example.com/messages/email-123"
                        ["Red Category"; "Blue Category"; "Green Category"]%string].
Proof.
  apply (handleAddCategory_patches_only_addition two_categories add_green
           "token-1" "users/team@example.com/messages/email-123"
           ["Red Category"; "Blue Category"; "Green Category"]%string).
  vm_compute. right. left.
Defined.

(** *** Adding and removing against a service that stores *)

(** The categories of the messages of a mailbox service, by message
    path. *)
Abbreviation Mailstore := (gmap string (list string)).

(** The service over a store: it answers a read with what is stored
    and accepts a patch of a message it holds. *)
Definition storing (store : Mailstore) : Categories.Env :=
  Categories.mkEnv
    (Normal "token-1"%string)
    (fun _ path =>
       match store !! path with
       | Some l => Normal (Categories.mkMessage (Some l))
       | None => Throw "404 Not Found"
       end)
    (fun _ path _ =>
       match store !! path with
       | Some _ => Normal tt
       | None => Throw "404 Not Found"
       end).

(** What the calls of a handler do to the store. *)
Definition served (calls : list Categories.Request) (store : Mailstore) : Mailstore :=
  foldl (fun st r =>
           match r with
           | Categories.Patch _ path l => <[path := l]> st
           | Categories.Get _ _ => st
           end)
        store calls.

(** X20. Against a service that stores what is patched, adding a
    category a message does not have and then removing it leaves the
    message with the categories it had, in their order. *)
Theorem add_then_remove_restores_categories :
  forall (store : Mailstore) (args : Categories.Args)
         (emailId category : string) (current : list string),
    Categories.id args = Some emailId -> emailId <> ""%string ->
    Categories.category args = Some category -> category <> ""%string ->
    let path := getMailboxBasePath (JsText.orNull (Categories.mailbox args))
                +:+ "/messages/" +:+ emailId in
    store !! path = Some current ->
    category ∉ current ->
    let added := served (Categories.handleAddCategory (storing store) args).2 store in
    added !! path = Some (current ++ [category]) /\
    served (Categories.handleRemoveCategory (storing added) args).2 added = store.
Proof.
  intros store args emailId category current Hid Hne Hcat Hne' path Hs Hn added.
  assert (JsText.orString (Categories.id args) "" = emailId) as Ho.
  { rewrite Hid. unfold JsText.orString. by destruct (String.eqb_spec emailId ""). }
  assert (JsText.orString (Categories.category args) "" = category) as Ho'.
  { rewrite Hcat. unfold JsText.orString. by destruct (String.eqb_spec category ""). }
  assert (added = <[path := current ++ [category]]> store) as ->.
  { subst added. rewrite handleAddCategory_calls, Ho, Ho'.
    destruct (String.eqb_spec emailId ""); [done|].
    destruct (String.eqb_spec category ""); [done|]. cbn [orb].
    unfold Categories.addCategory. cbn [storing Categories.ensureAuthenticated
      Categories.callGet Categories.callPatch]. fold path. rewrite Hs.
    cbn [Categories.categories default].
    rewrite bool_decide_eq_false_2 by done. done. }
  split; [apply lookup_insert_eq|].
  rewrite handleRemoveCategory_calls, Ho, Ho'.
  destruct (String.eqb_spec emailId ""); [done|].
  destruct (String.eqb_spec category ""); [done|]. cbn [orb].
  unfold Categories.removeCategory. cbn [storing Categories.ensureAuthenticated
    Categories.callGet Categories.callPatch]. fold path. rewrite lookup_insert_eq.
  cbn [Categories.categories default].
  rewrite bool_decide_eq_true_2 by (apply elem_of_app; right; left).
  cbn [negb snd served foldl]. unfold id. rewrite filter_out_added by done.
  rewrite insert_insert_eq. by apply insert_id.
Qed.

Lemma add_then_remove_restores_categories_witness :
  served (Categories.handleAddCategory
            (storing {["me/messages/email-123"%string := ["Red Category"%string]]})
            (Categories.mkArgs (Some "email-123"%string) (Some "Blue Category"%string) None)).2
         {["me/messages/email-123"%string := ["Red Category"%string]]}
  !! "me/messages/email-123"%string
  = Some (["Red Category"%string] ++ ["Blue Category"%string]) /\
  served (Categories.handleRemoveCategory
            (storing
               (served (Categories.handleAddCategory
                          (storing {["me/messages/email-123"%string
                                     := ["Red Category"%string]]})
                          (Categories.mkArgs (Some "email-123"%string)
                                             (Some "Blue Category"%string) None)).2
                       {["me/messages/email-123"%string := ["Red Category"%string]]}))
            (Categories.mkArgs (Some "email-123"%string) (Some "Blue Category"%string) None)).2
         (served (Categories.handleAddCategory
                    (storing {["me/messages/email-123"%string := ["Red Category"%string]]})
                    (Categories.mkArgs (Some "email-123"%string)
                                       (Some "Blue Category"%string) None)).2
                 {["me/messages/email-123"%string := ["Red Category"%string]]})
  = {["me/messages/email-123"%string := ["Red Category"%string]]}.
Proof.
  apply (add_then_remove_restores_categories
           {["me/messages/email-123"%string := ["Red Category"%string]]}
           (Categories.mkArgs (Some "email-123"%string) (Some "Blue Category"%string) None)
           "email-123" "Blue Category" ["Red Category"%string]);
    try reflexivity; try discriminate.
  intros H. apply list_elem_of_singleton in H. discriminate H.
Defined.
(** ** Properties of the delete handler *)

Lemma handleDeleteEmail_cases env args :
  let emailId := JsText.orString (EmailDelete.id args) "" in
  let mailbox := JsText.orNull (EmailDelete.mailbox args) in
  let path := getMailboxBasePath mailbox +:+ "/messages/" +:+ emailId in
  let out := EmailDelete.handleDeleteEmail env args in
  (exists accessToken,
      emailId <> ""%string /\
      EmailDelete.ensureAuthenticated env = Normal accessToken /\
      EmailDelete.callDelete env accessToken path = Normal tt /\
      out = ("Email deleted successfully" +:+ Tool.mailboxInfo mailbox
             +:+ ". The email has been moved to Deleted Items.",
             [(accessToken, path)])) \/
  ((forall accessToken,
       emailId <> ""%string ->
       EmailDelete.ensureAuthenticated env = Normal accessToken ->
       EmailDelete.callDelete env accessToken path <> Normal tt) /\
   (length out.2 <= 1)%nat /\
   (out.1 = "Email ID is required. Please provide the ID of the email to delete."%string \/
    out.1 = Tool.pleaseAuthenticate \/
    (exists rest, out.1 = "Email not found. The email with ID " +:+ rest) \/
    (exists rest, out.1 = "Error deleting email: " +:+ rest))).
Proof.
  intros emailId mailbox path out. subst out.
  unfold EmailDelete.handleDeleteEmail. fold emailId. fold mailbox.
  destruct (String.eqb_spec emailId "") as [He|He].
  { right. split_and!; [done|simpl; lia|by left]. }
  unfold EmailDelete.deleteEmail. fold path.
  destruct (EmailDelete.ensureAuthenticated env) as [tok|m] eqn:Hauth.
  - destruct (EmailDelete.callDelete env tok path) as [[]|m] eqn:Hdel.
    + left. by exists tok.
    + right. split_and!.
      * intros tok' _ [= <-]. by rewrite Hdel.
      * destruct (String.eqb m _); [simpl; lia|]. destruct (_ || _); simpl; lia.
      * destruct (String.eqb m _); [by right; left|].
        destruct (_ || _); right; right; [left|right]; by eexists.
  - right. split_and!.
    + by intros tok' _ [=].
    + destruct (String.eqb m _); [simpl; lia|]. destruct (_ || _); simpl; lia.
    + destruct (String.eqb m _); [by right; left|].
      destruct (_ || _); right; right; [left|right]; by eexists.
Qed.

(** X21. [handleDeleteEmail] makes at most one call, and its answer
    begins with "Email deleted successfully" exactly when an email id
    was given, authentication succeeded and the DELETE of that message
    in the mailbox returned. *)
Theorem handleDeleteEmail_reports_success_only_after_delete :
  forall (env : EmailDelete.Env) (args : EmailDelete.Args),
    let emailId := JsText.orString (EmailDelete.id args) "" in
    let path := getMailboxBasePath (JsText.orNull (EmailDelete.mailbox args))
                +:+ "/messages/" +:+ emailId in
    let out := EmailDelete.handleDeleteEmail env args in
    (length out.2 <= 1)%nat /\
    (JsString.startsWith out.1 "Email deleted successfully" = true <->
     exists accessToken,
       emailId <> ""%string /\
       EmailDelete.ensureAuthenticated env = Normal accessToken /\
       EmailDelete.callDelete env accessToken path = Normal tt /\
       out.2 = [(accessToken, path)]).
Proof.
  intros env args. cbv zeta.
  pose proof (handleDeleteEmail_cases env args) as H. cbv zeta in H.
  destruct H as [(tok & He & Hauth & Hdel & Hout)|(Hno & Hlen & Htext)].
  - rewrite Hout. cbn [fst snd]. split; [simpl; lia|]. split; [|done].
    intros _. by exists tok.
  - split; [done|]. split.
    + intros Hs. exfalso.
      destruct Htext as [H|[H|[[rest H]|[rest H]]]]; rewrite H in Hs; discriminate Hs.
    + intros (tok & He & Hauth & Hdel & _). by destruct (Hno tok He Hauth).
Qed.

Lemma append_assoc (a b c : string) : (a +:+ b) +:+ c = a +:+ b +:+ c.
Proof.
  induction a as [|x a IH]; [done|].
  change (String x ((a +:+ b) +:+ c) = String x (a +:+ b +:+ c)). by rewrite IH.
Qed.

(** X22. A mailbox argument of white space alone addresses the primary
    mailbox: the DELETE goes to [me/messages/<id>], while the answer
    reports a shared mailbox of that name. *)
Theorem handleDeleteEmail_blank_mailbox_is_primary :
  forall (env : EmailDelete.Env) (emailId m accessToken : string),
    emailId <> ""%string ->
    m <> ""%string -> JsString.trim m = ""%string ->
    EmailDelete.ensureAuthenticated env = Normal accessToken ->
    EmailDelete.callDelete env accessToken ("me/messages/" +:+ emailId) = Normal tt ->
    EmailDelete.handleDeleteEmail env (EmailDelete.mkArgs (Some emailId) (Some m))
    = ("Email deleted successfully (shared mailbox: " +:+ m
       +:+ "). The email has been moved to Deleted Items.",
       [(accessToken, "me/messages/" +:+ emailId)]).
Proof.
  intros env emailId m tok He Hm Ht Hauth Hdel.
  unfold EmailDelete.handleDeleteEmail, EmailDelete.deleteEmail.
  cbn [EmailDelete.id EmailDelete.mailbox].
  unfold JsText.orString, JsText.orNull, truthyStr.
  destruct (String.eqb_spec emailId ""); [done|].
  destruct (String.eqb_spec m ""); [done|]. cbn [negb].
  rewrite Hauth. unfold getMailboxBasePath. rewrite Ht.
  destruct (String.eqb_spec m ""); [done|]. cbn [orb String.eqb].
  change ("me" +:+ "/messages/" +:+ emailId) with ("me/messages/" +:+ emailId).
  rewrite Hdel. unfold Tool.mailboxInfo.
  destruct (String.eqb_spec m ""); [done|].
  destruct (String.eqb_spec emailId ""); [done|].
  f_equal. by rewrite !append_assoc.
Qed.

(** A service that accepts every DELETE. *)
Definition deleting : EmailDelete.Env :=
  EmailDelete.mkEnv (Normal "token-1"%string) (fun _ _ => Normal tt).

Lemma handleDeleteEmail_blank_mailbox_is_primary_witness :
  EmailDelete.handleDeleteEmail deleting
    (EmailDelete.mkArgs (Some "email-123"%string) (Some "  "%string))
  = ("Email deleted successfully (shared mailbox: " +:+ "  "
     +:+ "). The email has been moved to Deleted Items.",
     [("token-1"%string, "me/messages/" +:+ "email-123")]).
Proof.
  apply (handleDeleteEmail_blank_mailbox_is_primary deleting "email-123" "  " "token-1");
    try reflexivity; discriminate.
Defined.
(** ** Properties of folder creation *)

(** X23. [createMailFolder] posts only when the lookup finds no folder
    of the new name, and at most once: to the mailbox's folder
    collection when no parent is named, and otherwise to the child
    collection of the parent the lookup found; without such a parent
    nothing is posted. *)
Theorem createMailFolder_posts_only_new_folders :
  forall (env : FolderCreate.Env) (accessToken folderName parentFolderName : string)
         (mailbox : option string) (post : FolderCreate.Post),
    post ∈ (FolderCreate.createMailFolder env accessToken folderName parentFolderName
                                          mailbox).2 ->
    truthyStr (getFolderIdByName (FolderCreate.graph env) folderName mailbox) = false /\
    (FolderCreate.createMailFolder env accessToken folderName parentFolderName mailbox).2
    = [post] /\
    exists endpoint,
      post = (accessToken, endpoint, folderName) /\
      ((parentFolderName = ""%string /\
        endpoint = getMailboxBasePath mailbox +:+ "/mailFolders") \/
       (exists parentId,
           parentFolderName <> ""%string /\
           getFolderIdByName (FolderCreate.graph env) parentFolderName mailbox
           = Some parentId /\
           parentId <> ""%string /\
           endpoint = getMailboxBasePath mailbox +:+ "/mailFolders/" +:+ parentId
                      +:+ "/childFolders")).
Proof.
  intros env tok name parent mailbox post.
  unfold FolderCreate.createMailFolder.
  destruct (truthyStr (getFolderIdByName (FolderCreate.graph env) name mailbox));
    [intros H; cbn [snd] in H; trace_cases H|].
  assert (forall endpoint (o : Completion FolderCreate.Result * list FolderCreate.Post),
             o.2 = [(tok, endpoint, name)] -> post ∈ o.2 ->
             o.2 = [post] /\ post = (tok, endpoint, name)) as Hone.
  { intros endpoint o -> H. trace_cases H. by subst. }
  assert (forall endpoint,
             (match FolderCreate.callPost env tok endpoint name with
              | Normal response =>
                  match response with
                  | Some (FolderCreate.mkCreated (Some i)) =>
                      if String.eqb i "" then
                        (Normal (FolderCreate.mkResult false
                                   "Failed to create folder. The server didn't return a folder ID."
                                   None),
                         [(tok, endpoint, name)])
                      else
                        (Normal (FolderCreate.mkResult true
                                   ("Successfully created folder " +:+ dquote +:+ name
                                    +:+ dquote +:+ " "
                                    +:+ (if String.eqb parent "" then "at the root level"%string
                                         else "inside " +:+ dquote +:+ parent +:+ dquote)
                                    +:+ match mailbox with
                                        | Some m => if String.eqb m "" then ""
                                                    else " in shared mailbox " +:+ m
                                        | None => ""
                                        end +:+ ".")
                                   (Some i)),
                         [(tok, endpoint, name)])
                  | _ =>
                      (Normal (FolderCreate.mkResult false
                                 "Failed to create folder. The server didn't return a folder ID."
                                 None),
                       [(tok, endpoint, name)])
                  end
              | Throw m => (Throw m, [(tok, endpoint, name)])
              end).2 = [(tok, endpoint, name)]) as Hposts.
  { intros endpoint.
    destruct (FolderCreate.callPost env tok endpoint name) as [[[[i|]]|]|m]; try done.
    by destruct (String.eqb i ""). }
  destruct (String.eqb_spec parent "") as [->|Hparent].
  - intros H. destruct (Hone _ _ (Hposts _) H) as [H1 H2].
    split_and!; try done. eexists. split; [done|]. by left.
  - destruct (getFolderIdByName (FolderCreate.graph env) parent mailbox) as [pid|] eqn:Hpid;
      [|intros H; cbn [snd] in H; trace_cases H].
    destruct (String.eqb_spec pid "") as [->|Hne];
      [intros H; cbn [snd] in H; trace_cases H|].
    intros H. destruct (Hone _ _ (Hposts _) H) as [H1 H2].
    split_and!; try done. eexists. split; [done|]. right. by exists pid.
Qed.

(** A service with the folders Inbox and Projects that answers a POST
    with a new id. *)
Definition creating : FolderCreate.Env :=
  FolderCreate.mkEnv (Normal "token-1"%string) two_folders
    (fun _ _ _ => Normal (Some (FolderCreate.mkCreated (Some "AQMkAD-42"%string)))).

Lemma createMailFolder_posts_only_new_folders_witness :
  truthyStr (getFolderIdByName (FolderCreate.graph creating) "2024" None) = false /\
  (FolderCreate.createMailFolder creating "token-1" "2024" "projects" None).2
  = [("token-1"%string, "me/mailFolders/AQMkAD-17/childFolders"%string, "2024"%string)] /\
  exists endpoint,
    ("token-1"%string, "me/mailFolders/AQMkAD-17/childFolders"%string, "2024"%string)
    = ("token-1"%string, endpoint, "2024"%string) /\
    (("projects"%string = ""%string /\
      endpoint = getMailboxBasePath None +:+ "/mailFolders") \/
     (exists parentId,
         "projects"%string <> ""%string /\
         getFolderIdByName (FolderCreate.graph creating) "projects" None = Some parentId /\
         parentId <> ""%string /\
         endpoint = getMailboxBasePath None +:+ "/mailFolders/" +:+ parentId
                    +:+ "/childFolders")).
Proof.
  apply (createMailFolder_posts_only_new_folders creating "token-1" "2024" "projects" None
           ("token-1"%string, "me/mailFolders/AQMkAD-17/childFolders"%string, "2024"%string)).
  vm_compute. left.
Defined.

(** X24. When the service fails the lookups, [handleCreateFolder]
    cannot tell whether the folder exists: without a parent it posts
    the folder to the mailbox's folder collection all the same, and
    with a parent it posts nothing and reports the parent as not
    found. *)
Theorem handleCreateFolder_when_lookups_fail :
  forall (env : FolderCreate.Env) (args : FolderCreate.Args)
         (folderName accessToken : string),
    FolderCreate.name args = Some folderName -> folderName <> ""%string ->
    FolderCreate.ensureAuthenticated env = Normal accessToken ->
    (forall path q, exists m, FolderCreate.graph env path q = Throw m) ->
    let out := FolderCreate.handleCreateFolder env args in
    let parent := JsText.orString (FolderCreate.parentFolder args) "" in
    if String.eqb parent "" then
      out.2 = [(accessToken,
                getMailboxBasePath (JsText.orNull (FolderCreate.mailbox args))
                +:+ "/mailFolders",
                folderName)]
    else
      out.2 = [] /\
      exists rest,
        out.1 = "Parent folder " +:+ dquote +:+ parent +:+ dquote +:+ " not found" +:+ rest.
Proof.
  intros env args name tok Hname Hne Hauth Hfail out parent. subst out.
  unfold FolderCreate.handleCreateFolder. rewrite Hname, Hauth.
  destruct (String.eqb_spec name ""); [done|]. fold parent.
  assert (forall n, getFolderIdByName (FolderCreate.graph env) n
                      (JsText.orNull (FolderCreate.mailbox args)) = None) as Hnone.
  { intros n0. destruct (Hfail (getMailboxBasePath (JsText.orNull (FolderCreate.mailbox args))
                                +:+ "/mailFolders") (FilterDisplayName n0)) as [m Hm].
    by eapply getFolderIdByName_absorbs_errors. }
  unfold FolderCreate.createMailFolder. rewrite !Hnone. cbn [truthyStr].
  destruct (String.eqb parent "") eqn:Hp.
  - destruct (FolderCreate.callPost env tok _ name) as [[[[i|]]|]|m]; try done.
    + by destruct (String.eqb i "").
    + by destruct (String.eqb m _).
  - cbn [fst snd FolderCreate.message]. split; [done|]. eexists. reflexivity.
Qed.

(** The same service with every lookup failing. *)
Definition creating_blind : FolderCreate.Env :=
  FolderCreate.mkEnv (Normal "token-1"%string) unreachable
    (fun _ _ _ => Normal (Some (FolderCreate.mkCreated (Some "AQMkAD-42"%string)))).

Lemma handleCreateFolder_when_lookups_fail_witness :
  (FolderCreate.handleCreateFolder creating_blind
     (FolderCreate.mkArgs (Some "Projects"%string) None None)).2
  = [("token-1"%string, getMailboxBasePath (JsText.orNull None) +:+ "/mailFolders",
      "Projects"%string)].
Proof.
  apply (handleCreateFolder_when_lookups_fail creating_blind
           (FolderCreate.mkArgs (Some "Projects"%string) None None)
           "Projects" "token-1");
    [reflexivity|discriminate|reflexivity|].
  intros path q. by exists "ECONNRESET"%string.
Defined.
(** ** Properties of the mailbox discovery *)

(** An answer with its failure replaced by a null answer. *)
Definition quiet {A : Type} (answer : Completion (option A)) : Completion (option A) :=
  match answer with
  | Throw _ => Normal None
  | _ => answer
  end.

(** X25. For [handleListSharedMailboxes] a discovery call that fails
    is a call that finds nothing: replacing the failure of the [me] or
    the [me/people] call by a null answer changes nothing in the
    answer, and replacing the failure of the [me/memberOf] call changes
    only the closing note, which is added when that call failed and a
    mailbox was found. *)
Theorem discovery_failure_is_empty_answer :
  forall (env : SharedMailboxes.Env) (accessToken : string),
    SharedMailboxes.ensureAuthenticated env = Normal accessToken ->
    let withoutErrors :=
      SharedMailboxes.mkEnv (SharedMailboxes.ensureAuthenticated env)
                            (fun t => quiet (SharedMailboxes.callMe env t))
                            (fun t => quiet (SharedMailboxes.callPeople env t))
                            (SharedMailboxes.callMemberOf env) in
    let withoutGroupError :=
      SharedMailboxes.mkEnv (SharedMailboxes.ensureAuthenticated env)
                            (SharedMailboxes.callMe env)
                            (SharedMailboxes.callPeople env)
                            (fun t => quiet (SharedMailboxes.callMemberOf env t)) in
    SharedMailboxes.handleListSharedMailboxes withoutErrors
    = SharedMailboxes.handleListSharedMailboxes env /\
    (SharedMailboxes.discover withoutGroupError accessToken).1
    = (SharedMailboxes.discover env accessToken).1 /\
    SharedMailboxes.handleListSharedMailboxes env
    = match SharedMailboxes.callMemberOf env accessToken,
            (SharedMailboxes.discover env accessToken).1 with
      | Throw _, _ :: _ =>
          SharedMailboxes.handleListSharedMailboxes withoutGroupError
          +:+ SharedMailboxes.failureNote
      | _, _ => SharedMailboxes.handleListSharedMailboxes withoutGroupError
      end.
Proof.
  intros env tok Hauth withoutErrors withoutGroupError.
  subst withoutErrors withoutGroupError.
  unfold SharedMailboxes.handleListSharedMailboxes, SharedMailboxes.discover.
  cbn [SharedMailboxes.ensureAuthenticated SharedMailboxes.callMe
       SharedMailboxes.callPeople SharedMailboxes.callMemberOf].
  rewrite Hauth. split_and!.
  - assert (SharedMailboxes.fromUser (quiet (SharedMailboxes.callMe env tok))
            = SharedMailboxes.fromUser (SharedMailboxes.callMe env tok)) as ->
      by by destruct (SharedMailboxes.callMe env tok).
    assert (SharedMailboxes.fromPeople (quiet (SharedMailboxes.callPeople env tok))
            = SharedMailboxes.fromPeople (SharedMailboxes.callPeople env tok)) as ->
      by by destruct (SharedMailboxes.callPeople env tok).
    done.
  - by destruct (SharedMailboxes.callMemberOf env tok) as [[[l|]|]|m].
  - destruct (SharedMailboxes.callMemberOf env tok) as [[[l|]|]|m]; cbn [quiet];
      try by destruct (SharedMailboxes.fromGroups _).
    cbn [SharedMailboxes.fromGroups fst snd]. rewrite !app_nil_r.
    destruct (SharedMailboxes.fromUser _ ++ SharedMailboxes.fromPeople _) as [|mb l];
      [done|].
    unfold SharedMailboxes.formatDiscovery. done.
Qed.

(** A directory where the people search is not available and the group
    listing fails. *)
Definition groups_fail : SharedMailboxes.Env :=
  SharedMailboxes.mkEnv
    (Normal "token-1"%string)
    (fun _ => Normal (Some (SharedMailboxes.mkUser (Some "Ada"%string)
                                                   (Some "ada@example.com"%string) None)))
    (fun _ => Throw "403 Forbidden")
    (fun _ => Throw "503 Service Unavailable").

Lemma discovery_failure_is_empty_answer_witness :
  SharedMailboxes.handleListSharedMailboxes groups_fail
  = SharedMailboxes.handleListSharedMailboxes
      (SharedMailboxes.mkEnv (Normal "token-1"%string)
         (SharedMailboxes.callMe groups_fail)
         (SharedMailboxes.callPeople groups_fail)
         (fun _ => Normal None))
    +:+ SharedMailboxes.failureNote.
Proof.
  exact (proj2 (proj2 (discovery_failure_is_empty_answer groups_fail "token-1" eq_refl))).
Defined.

(** ** Properties of the authentication tools *)

(** X26. When [handleCheckAuthStatus] reports the token as expired,
    the record it loaded is the cached one and [needsRefresh] holds of
    it: the status tool's expiry test is the stricter of the two. *)
Theorem expired_status_implies_needsRefresh :
  forall (now : Z) (st : State),
    let out := AuthTools.handleCheckAuthStatus now st in
    JsString.startsWith out.1 "Token expired" = true ->
    needsRefresh now out.2 = true /\
    exists t e,
      tokenFile st = Stored t /\ cachedTokens out.2 = Some t /\
      expires_at t = Some (Finite e) /\ e < now.
Proof.
  intros now st out. subst out.
  unfold AuthTools.handleCheckAuthStatus, loadTokenCache.
  destruct (tokenFile st) as [| |t] eqn:Hf; try (intros H; discriminate H).
  destruct (truthyStr (access_token t)) eqn:Ha; cbn [negb];
    [|intros H; discriminate H].
  rewrite Ha. cbn [negb].
  destruct (AuthTools.isExpired now t) eqn:He; cbn [negb andb fst snd].
  - intros _. unfold AuthTools.isExpired in He.
    apply andb_prop in He as [Ht He].
    destruct (expires_at t) as [[e|]|] eqn:Hexp; try done.
    apply Z.ltb_lt in He. split.
    + unfold needsRefresh. cbn [set_cachedTokens cachedTokens]. rewrite Hexp, Ht.
      cbn [negb toNumber sub geb]. apply Z.leb_le. unfold REFRESH_BUFFER_MS. lia.
    + by exists t, e.
  - destruct (0 <? length (AuthTools.grantedScopes t))%nat; cbn [fst];
      [|intros H; discriminate H].
    destruct (AuthTools.hasSharedMailboxAccess t); cbn [negb fst];
      intros H; discriminate H.
Qed.

Lemma expired_status_implies_needsRefresh_witness :
  needsRefresh 2000000 (AuthTools.handleCheckAuthStatus 2000000 sample_state).2 = true /\
  exists t e,
    tokenFile sample_state = Stored t /\
    cachedTokens (AuthTools.handleCheckAuthStatus 2000000 sample_state).2 = Some t /\
    expires_at t = Some (Finite e) /\ e < 2000000.
Proof.
  apply (expired_status_implies_needsRefresh 2000000 sample_state). reflexivity.
Defined.

(** A call of [getAccessToken] that resolves to [v] at once: in the
    state after it the call is the last of the settled calls, settled
    with [v]; no call has been suspended, no request created, and the
    record, the slot and the token file are as they were. *)
Definition resolves_at_once (c : nat) (v : option string) (st st' : State) : Prop :=
  completed st' = completed st ++ [(c, Normal v)] /\
  waiters st' = waiters st /\
  requests st' = requests st /\
  pending st' = pending st /\
  refreshPromise st' = refreshPromise st /\
  cachedTokens st' = cachedTokens st /\
  tokenFile st' = tokenFile st.

(** X27. In test mode [handleAuthenticate] reports success whether or
    not the test tokens could be saved.  Saved, they serve every call
    of [getAccessToken] made before the last five minutes of their
    hour: the call resolves at once to the test access token and
    creates no renewal request, and the status tool reports the session
    as ready.  When the save fails the module state is left as it was,
    and on a server without stored tokens the next call of
    [getAccessToken] still resolves to null. *)
Theorem test_mode_authentication :
  forall (config : AuthTools.Config) (now1 now2 now3 : Z) (st : State)
         (c : nat) (now : Z),
    AuthTools.USE_TEST_MODE config = true ->
    now3 + 3600 * 1000 <> 0 ->
    now < now3 + 3600 * 1000 - REFRESH_BUFFER_MS ->
    let saved := AuthTools.handleAuthenticate config now1 now2 now3 true st in
    let unsaved := AuthTools.handleAuthenticate config now1 now2 now3 false st in
    saved.1 = "Successfully authenticated with Microsoft Graph API (test mode)"%string /\
    resolves_at_once c (Some ("test_access_token_" +:+ pretty now1)) saved.2
                     (getAccessToken c now saved.2) /\
    requests (getAccessToken c now saved.2) = requests st /\
    AuthTools.handleCheckAuthStatus now saved.2
    = ("Authenticated and ready"%string, saved.2) /\
    unsaved
    = ("Successfully authenticated with Microsoft Graph API (test mode)"%string, st) /\
    (cachedTokens st = None -> tokenFile st = Missing ->
     resolves_at_once c None st (getAccessToken c now unsaved.2)).
Proof.
  intros config now1 now2 now3 st c now Hmode Hnz Hnow saved unsaved.
  subst saved unsaved. unfold AuthTools.handleAuthenticate. rewrite Hmode.
  unfold AuthTools.createTestTokens, saveTokenCache. cbn [fst snd].
  assert ((now3 + 3600 * 1000 =? 0) = false) as Hz by by apply Z.eqb_neq.
  assert ((now3 + 3600 * 1000 - REFRESH_BUFFER_MS <=? now) = false) as Hfresh
      by (apply Z.leb_gt; lia).
  assert ((now3 + 3600 * 1000 <? now) = false) as Hnot
      by (apply Z.ltb_ge; unfold REFRESH_BUFFER_MS in *; lia).
  split_and!; try done.
  - unfold getAccessToken, needsRefresh.
    cbn [set_cachedTokens set_tokenFile cachedTokens access_token refresh_token
         expires_at truthyNum toNumber sub geb].
    rewrite Hz, Hfresh. by repeat split.
  - unfold getAccessToken, needsRefresh.
    cbn [set_cachedTokens set_tokenFile cachedTokens access_token refresh_token
         expires_at truthyNum toNumber sub geb].
    rewrite Hz, Hfresh. reflexivity.
  - unfold AuthTools.handleCheckAuthStatus, loadTokenCache, AuthTools.isExpired.
    cbn [set_cachedTokens set_tokenFile tokenFile access_token expires_at truthyNum].
    change (truthyStr (Some ("test_access_token_" +:+ pretty now1))) with true.
    cbn [negb access_token expires_at truthyNum]. rewrite Hz, Hnot. reflexivity.
  - intros Hc Hf. unfold getAccessToken, loadTokenCache. rewrite Hc, Hf. cbn [snd].
    rewrite Hc. by repeat split.
Qed.

(** A server in test mode. *)
Definition test_config : AuthTools.Config :=
  AuthTools.mkConfig true "http://localhost:3333" "client-1".

Lemma test_mode_authentication_witness :
  completed
    (getAccessToken 1 1709210096789
       (AuthTools.handleAuthenticate test_config 1709210000000 1709210000000 1709210000001
                                     true (init Missing)).2)
  = [(1%nat, Normal (Some ("test_access_token_" +:+ pretty 1709210000000)))] /\
  AuthTools.handleAuthenticate test_config 1709210000000 1709210000000 1709210000001
                               false (init Missing)
  = ("Successfully authenticated with Microsoft Graph API (test mode)"%string,
     init Missing).
Proof.
  destruct (test_mode_authentication test_config 1709210000000 1709210000000
              1709210000001 (init Missing) 1 1709210096789 eq_refl ltac:(discriminate)
              eq_refl) as (_ & (H1 & _) & _ & _ & H2 & _).
  exact (conj H1 H2).
Defined.

(** ** One more property of the token manager *)

(** X28. A call of [getAccessToken] that resolves at once to a token
    hands out the cached access token of a record that is more than
    five minutes from its expiry, and creates no renewal request. *)
Theorem getAccessToken_immediate_token_is_fresh :
  forall (c : nat) (now : Z) (st : State) (v : string),
    completed (getAccessToken c now st) = completed st ++ [(c, Normal (Some v))] ->
    exists t e,
      cachedTokens (getAccessToken c now st) = Some t /\
      access_token t = Some v /\
      expires_at t = Some (Finite e) /\
      now < e - REFRESH_BUFFER_MS /\
      requests (getAccessToken c now st) = requests st /\
      waiters (getAccessToken c now st) = waiters st.
Proof.
  intros c now st v. unfold getAccessToken.
  set (st' := match cachedTokens st with
              | None => (loadTokenCache st).2
              | Some _ => st
              end).
  assert (completed st' = completed st /\ requests st' = requests st
          /\ waiters st' = waiters st) as (Hc & Hr & Hw).
  { subst st'. destruct (cachedTokens st); [done|].
    unfold loadTokenCache. destruct (tokenFile st) as [| |t]; try done.
    by destruct (truthyStr (access_token t)). }
  assert (forall x, completed st ++ [(c, Normal None)]
                    = completed st ++ [(c, Normal (Some x))] -> False) as Hnull.
  { intros x H. by apply app_inv_head in H. }
  destruct (cachedTokens st') as [t|] eqn:Ht; cbn [complete completed];
    rewrite ?Hc; [|by intros H%Hnull].
  destruct (truthyStr (access_token t)) eqn:Ha; cbn [negb complete completed];
    rewrite ?Hc; [|by intros H%Hnull].
  destruct (needsRefresh now st') eqn:Hn.
  - destruct (truthyStr (refresh_token t)) eqn:Hrt; cbn [complete completed];
      rewrite ?Hc; [|by intros H%Hnull].
    unfold refreshAccessToken. rewrite Ht, Hrt. cbn [negb].
    destruct (refreshPromise st'); cbn [suspend completed]; rewrite Hc;
      intros H; apply (f_equal length) in H; rewrite length_app in H; simpl in H; lia.
  - unfold read_access_token. rewrite Ht. cbn [complete completed cachedTokens requests
      waiters]. rewrite Hc. intros H%app_inv_head. injection H as Hv.
    unfold needsRefresh in Hn. rewrite Ht in Hn.
    destruct (expires_at t) as [[e|]|] eqn:He; try done.
    cbn [truthyNum] in Hn. destruct (e =? 0); [done|].
    cbn [negb toNumber sub geb] in Hn. apply Z.leb_gt in Hn.
    exists t, e. by split_and!.
Qed.

Lemma getAccessToken_immediate_token_is_fresh_witness :
  exists t e,
    cachedTokens (getAccessToken 1 600000 sample_state) = Some t /\
    access_token t = Some "old-access"%string /\
    expires_at t = Some (Finite e) /\
    600000 < e - REFRESH_BUFFER_MS /\
    requests (getAccessToken 1 600000 sample_state) = requests sample_state /\
    waiters (getAccessToken 1 600000 sample_state) = waiters sample_state.
Proof.
  apply (getAccessToken_immediate_token_is_fresh 1 600000 sample_state "old-access").
  reflexivity.
Defined.
(** ** Properties of the calendar handlers and of argument checking *)

(** X29. The event [handleCreateEvent] posts goes to the events of the
    mailbox, once, and only when subject, start and end are given.  It
    carries the subject, for each end the time zone given with the time
    or else the default one (so never an empty one under a non-empty
    default), and the attendees in the order given, each as
    required. *)
Theorem handleCreateEvent_posts_zoned_times :
  forall (env : Calendar.Env) (args : Calendar.CreateArgs)
         (accessToken endpoint : string) (bodyContent : Calendar.EventBody),
    (Calendar.PostEvent accessToken endpoint bodyContent)
      ∈ ((Calendar.handleCreateEvent env args).2) ->
    Calendar.ensureAuthenticated env = Normal accessToken /\
    endpoint = getMailboxBasePath (Calendar.create_mailbox args) +:+ "/events" /\
    (Calendar.handleCreateEvent env args).2
    = [Calendar.PostEvent accessToken endpoint bodyContent] /\
    exists subject start end_,
      Calendar.subject args = Some subject /\ subject <> ""%string /\
      Calendar.start args = Some start /\ Calendar.given (Some start) = true /\
      Calendar.end_ args = Some end_ /\ Calendar.given (Some end_) = true /\
      Calendar.body_subject bodyContent = subject /\
      Calendar.timeZone (Calendar.body_start bodyContent)
      = Calendar.timeZoneOf (Calendar.DEFAULT_TIMEZONE env) start /\
      Calendar.timeZone (Calendar.body_end bodyContent)
      = Calendar.timeZoneOf (Calendar.DEFAULT_TIMEZONE env) end_ /\
      (Calendar.DEFAULT_TIMEZONE env <> ""%string ->
       Calendar.timeZone (Calendar.body_start bodyContent) <> ""%string /\
       Calendar.timeZone (Calendar.body_end bodyContent) <> ""%string) /\
      (forall s, start = Calendar.Text s ->
                 Calendar.body_start bodyContent
                 = Calendar.mkEventTime (Calendar.DateTimeText s)
                                        (Calendar.DEFAULT_TIMEZONE env)) /\
      Calendar.body_attendees bodyContent
      = (map (fun a => Calendar.mkAttendee a "required")) <$> Calendar.attendees args.
Proof.
  intros env args tok endpoint bodyContent.
  unfold Calendar.handleCreateEvent.
  destruct (Calendar.subject args) as [subject|] eqn:Hs;
    [|intros H; cbn [snd] in H; trace_cases H].
  destruct (Calendar.start args) as [start|] eqn:Hst;
    [|intros H; cbn [snd] in H; trace_cases H].
  destruct (Calendar.end_ args) as [end_|] eqn:He;
    [|intros H; cbn [snd] in H; trace_cases H].
  destruct (truthyStr (Some subject)) eqn:Hsub; cbn [negb orb];
    [|intros H; cbn [snd] in H; trace_cases H].
  destruct (Calendar.given (Some start)) eqn:Hgs; cbn [negb orb];
    [|intros H; cbn [snd] in H; trace_cases H].
  destruct (Calendar.given (Some end_)) eqn:Hge; cbn [negb orb];
    [|intros H; cbn [snd] in H; trace_cases H].
  destruct (Calendar.ensureAuthenticated env) as [tok'|m] eqn:Hauth;
    [|intros H; cbn [snd] in H; trace_cases H].
  assert (forall z, z <> ""%string -> forall w, Calendar.timeZoneOf z w <> ""%string) as Hz.
  { intros z Hzne [s|dt [tz|]]; cbn [Calendar.timeZoneOf JsText.orString]; try done.
    by destruct (String.eqb_spec tz ""). }
  destruct (Calendar.callGraphAPI env _) as [[]|m]; cbn [snd];
    intros H; trace_cases H; injection H as H1 H2 H3; subst;
    (split_and!; try done; exists subject, start, end_;
     cbn [Calendar.body_subject Calendar.body_start Calendar.body_end
          Calendar.body_attendees Calendar.timeZone];
     split_and!; try done;
     [ cbn [truthyStr] in Hsub; by destruct (String.eqb_spec subject "")
     | intros Hd; split; by apply Hz
     | by intros s -> ]).
Qed.

(** A calendar service with Berlin as the default time zone. *)
Definition calendar_service : Calendar.Env :=
  Calendar.mkEnv (Normal "token-1"%string) "Europe/Berlin" (fun _ => Normal tt).

Definition review_meeting : Calendar.CreateArgs :=
  Calendar.mkCreateArgs (Some "Review"%string)
                        (Some (Calendar.Text "2024-03-01T10:00:00"))
                        (Some (Calendar.Zoned (Some "2024-03-01T11:00:00"%string)
                                              (Some "UTC"%string)))
                        (Some ["ada@example.com"%string])
                        None None.

Lemma handleCreateEvent_posts_zoned_times_witness :
  (Calendar.handleCreateEvent calendar_service review_meeting).2
  = [Calendar.PostEvent "token-1" "me/events"
       (Calendar.mkEventBody "Review"
          (Calendar.mkEventTime (Calendar.DateTimeText "2024-03-01T10:00:00")
                                "Europe/Berlin")
          (Calendar.mkEventTime (Calendar.DateTimeText "2024-03-01T11:00:00") "UTC")
          (Some [Calendar.mkAttendee "ada@example.com" "required"])
          "")].
Proof.
  exact (proj1 (proj2 (proj2
    (handleCreateEvent_posts_zoned_times calendar_service review_meeting
       "token-1" "me/events"
       (Calendar.mkEventBody "Review"
          (Calendar.mkEventTime (Calendar.DateTimeText "2024-03-01T10:00:00")
                                "Europe/Berlin")
          (Calendar.mkEventTime (Calendar.DateTimeText "2024-03-01T11:00:00") "UTC")
          (Some [Calendar.mkAttendee "ada@example.com" "required"])
          "")
       ltac:(vm_compute; left))))).
Defined.

(** X30. No handler consults its environment before it has the
    arguments it requires: without them there is no authentication and
    no call, and the answer is the same in every environment.  This
    holds of the category handlers (email id and category), the email
    delete handler (email id), the folder creation handler (name) and
    the calendar handlers (event id; subject, start and end). *)
Theorem handlers_check_arguments_first :
  (forall (env env' : Categories.Env) (args : Categories.Args),
      truthyStr (Categories.id args) = false \/
      truthyStr (Categories.category args) = false ->
      (Categories.handleRemoveCategory env args).2 = [] /\
      (Categories.handleAddCategory env args).2 = [] /\
      Categories.handleRemoveCategory env' args = Categories.handleRemoveCategory env args /\
      Categories.handleAddCategory env' args = Categories.handleAddCategory env args) /\
  (forall (env env' : EmailDelete.Env) (args : EmailDelete.Args),
      truthyStr (EmailDelete.id args) = false ->
      (EmailDelete.handleDeleteEmail env args).2 = [] /\
      EmailDelete.handleDeleteEmail env' args = EmailDelete.handleDeleteEmail env args) /\
  (forall (env env' : FolderCreate.Env) (args : FolderCreate.Args),
      truthyStr (FolderCreate.name args) = false ->
      (FolderCreate.handleCreateFolder env args).2 = [] /\
      FolderCreate.handleCreateFolder env' args = FolderCreate.handleCreateFolder env args) /\
  (forall (env env' : Calendar.Env) (args : Calendar.EventArgs),
      truthyStr (Calendar.eventId args) = false ->
      (Calendar.handleAcceptEvent env args).2 = [] /\
      (Calendar.handleDeleteEvent env args).2 = [] /\
      Calendar.handleAcceptEvent env' args = Calendar.handleAcceptEvent env args /\
      Calendar.handleDeleteEvent env' args = Calendar.handleDeleteEvent env args) /\
  (forall (env env' : Calendar.Env) (args : Calendar.CreateArgs),
      truthyStr (Calendar.subject args) = false \/
      Calendar.given (Calendar.start args) = false \/
      Calendar.given (Calendar.end_ args) = false ->
      (Calendar.handleCreateEvent env args).2 = [] /\
      Calendar.handleCreateEvent env' args = Calendar.handleCreateEvent env args).
Proof.
  split_and!.
  - intros env env' args H.
    assert (String.eqb (JsText.orString (Categories.id args) "") "" = true \/
            String.eqb (JsText.orString (Categories.category args) "") "" = true) as H'.
    { unfold JsText.orString, truthyStr in *.
      destruct H as [H|H]; [left|right];
        [destruct (Categories.id args) as [s|]
        |destruct (Categories.category args) as [s|]];
        try done; by destruct (String.eqb s ""). }
    unfold Categories.handleRemoveCategory, Categories.handleAddCategory.
    destruct H' as [-> | H']; [done|].
    rewrite H'. by destruct (String.eqb (JsText.orString (Categories.id args) "") "").
  - intros env env' args H. unfold EmailDelete.handleDeleteEmail.
    assert (String.eqb (JsText.orString (EmailDelete.id args) "") "" = true) as ->; [|done].
    unfold JsText.orString, truthyStr in *.
    destruct (EmailDelete.id args) as [s|]; [|done]. by destruct (String.eqb s "").
  - intros env env' args H. unfold FolderCreate.handleCreateFolder.
    unfold truthyStr in H. destruct (FolderCreate.name args) as [s|]; [|done].
    by destruct (String.eqb s "").
  - intros env env' args H.
    unfold Calendar.handleAcceptEvent, Calendar.handleDeleteEvent.
    unfold truthyStr in H. destruct (Calendar.eventId args) as [s|]; [|done].
    by destruct (String.eqb s "").
  - intros env env' args H. unfold Calendar.handleCreateEvent.
    destruct (Calendar.subject args) as [s|]; [|done].
    destruct (Calendar.start args) as [st|]; [|done].
    destruct (Calendar.end_ args) as [en|]; [|done].
    destruct H as [-> | [-> | ->]]; cbn [negb orb]; try done.
    + by destruct (truthyStr (Some s)).
    + by destruct (truthyStr (Some s)), (Calendar.given (Some st)).
Qed.
